(** * Live auction engine: shallow embedding of the socket handlers

    The engine is one Node.js module.  It keeps four Mongoose collections
    (Player, Team, Bid, AuctionState), six module-level variables
    (auctionTimer, timerValue, playerQueue, isAutoAuction, unsoldPlayers,
    isTeamSummaryShowing), three connection tables, and it talks to clients
    by emitting named events.  Every handler is embedded as a function on
    one explicit [State] record that holds all of these; emitted events are
    appended to a log, pending [setTimeout] callbacks are counted, and
    [new Date()] is an argument of the handler.

    Conventions: document ids and socket ids are [nat]; fields that no
    handler of the engine reads (names, logos, categories, PINs) are left
    out of the records.

    Numbers.  Amounts, prices and points are JavaScript numbers, that is
    IEEE 754 doubles, and no handler checks that an amount is an integer.
    The records below take them in [Z]: the embedding is the code on
    amounts that are integers in the safe range ([safe_integer], below
    2^53 in absolute value), where [+], [-] and the comparisons on
    doubles are exact and agree with those of [Z].  What the two updates
    of a team's points do on doubles in general is embedded apart, in
    [sold_remainingPoints] and [undone_remainingPoints].

    Atomicity.  Every handler is an [async] function that yields at each
    [await].  [step], [run] and [serve] run one handler at a time, each
    to completion: they are the executions of the server in which no two
    handlers overlap.  What the database holds inside a settlement, after
    the lot is saved and before the team and the auction state are, is
    [handleAutoSold_lot_saved]; the four writes of POST /reset are
    embedded one by one. *)

From stdpp Require Import gmap list sorting.
From Stdlib Require Import ZArith Lia PrimFloat.

Local Open Scope Z_scope.

(** ** Documents *)

Inductive Status := AVAILABLE | IN_AUCTION | SOLD | UNSOLD.

#[global] Instance Status_eq_dec : EqDecision Status.
Proof. solve_decision. Defined.

Record Player := mkPlayer {
  basePrice : Z;
  status : Status;
  soldTo : option nat;
  soldPrice : option Z;
  soldAt : option Z
}.

Record Team := mkTeam {
  remainingPoints : Z;
  rosterSlotsFilled : Z;
  players : list nat;
  isOnline : bool;
  lastActive : option Z
}.

Record Bid := mkBid {
  bid_player : nat;
  bid_team : nat;
  bid_amount : Z;
  isWinning : bool
}.

Record HighBid := mkHighBid {
  amount : Z;
  team : option nat
}.

Record SoldRecord := mkSoldRecord {
  rs_player : nat;
  rs_team : nat;
  rs_amount : Z;
  rs_soldAt : Z
}.

Record AuctionState := mkAuctionState {
  currentPlayer : option nat;
  currentHighBid : HighBid;
  isActive : bool;
  isPaused : bool;
  lastBidAt : option Z;
  auctionStartedAt : option Z;
  recentlySold : list SoldRecord
}.

(** ** Events *)

Inductive Target :=
  | ToSocket (sock : nat)      (* socket.emit *)
  | ToAdmin                    (* io.to('admin').emit *)
  | ToAll.                     (* io.emit *)

(** The messages of [bid:error], one constructor per message of the
    handler. *)
Inductive BidError :=
  | NotAuthenticated                 (* 'Not authenticated' *)
  | AuctionNotActive                 (* 'Auction not active' *)
  | PlayerNotInAuction               (* 'Player not in auction' *)
  | BidMustBeAtLeast (floor : Z)     (* 'Bid must be at least ...' *)
  | BidMustBeHigher (high : Z)       (* 'Bid must be higher than ...' *)
  | InsufficientPoints (left : Z)    (* 'Insufficient points. ...' *)
  | AlreadyHighestBidder             (* 'You are already the highest bidder' *)
  | FailedToPlaceBid.                (* the catch block *)

Inductive AdminError :=
  | Unauthorized                     (* 'Unauthorized' *)
  | WaitForTeamSummary               (* 'Please wait for team summary to complete' *)
  | PlayerNotAvailable               (* 'Player not available' *)
  | CannotUndoSale                   (* 'Cannot undo this sale' *)
  | NoPlayersAvailable.              (* 'No players available for auction' *)

Inductive AuthError := InvalidTeamId | InvalidPin | InvalidAdminPassword.

Inductive Event :=
  | auth_error (e : AuthError)
  | auth_success_team (teamId : nat)
  | auth_success_admin
  | connected
  | auction_state (st : option AuctionState) (timer : Z)
  | teamSummary_showing (isShowing : bool)
  | teams_status
  | bid_error (e : BidError)
  | bid_new (amt : Z) (teamId : nat)
  | bid_success
  | error (e : AdminError)
  | timer_update (value : Z)
  | timer_reset (value : Z)
  | auction_started (playerId : nat) (base : Z) (timer : Z)
  | auction_paused
  | auction_resumed
  | sale_undone (playerId : nat) (teamId : option nat)
  | player_sold (playerId : nat) (teamId : option nat) (amt : Z)
  | autoAuction_started (total : nat)
  | autoAuction_stopped (remainingInQueue unsoldCount : nat)
  | autoAuction_status (active : bool) (queueLength unsoldCount : nat)
  | autoAuction_playerUnsold (playerId : nat) (unsoldCount : nat)
  | autoAuction_queueUpdate (queueLength unsoldCount : nat)
  | autoAuction_unsoldRound (count : nat)
  | autoAuction_completed
  | auction_allCompleted.

(** ** The state of the process and of its database *)

Record State := mkState {
  (* collections *)
  Players : gmap nat Player;
  Teams : gmap nat Team;
  Bids : list Bid;
  auction : option AuctionState;      (* AuctionState.findOne() *)
  (* module-level variables *)
  auctionTimer : bool;                (* the interval handle is not null *)
  timerValue : Z;
  playerQueue : list nat;
  isAutoAuction : bool;
  unsoldPlayers : list nat;
  isTeamSummaryShowing : bool;
  (* connection tables *)
  connectedTeams : gmap nat nat;      (* socket id -> team id *)
  adminSockets : gset nat;
  bigScreenSockets : gset nat;
  (* setTimeout callbacks scheduled and not yet run *)
  pendingAdvance : nat;
  (* events sent so far, oldest first *)
  emitted : list (Target * Event)
}.

Definition set_Players (v : gmap nat Player) (s : State) : State :=
  mkState v (Teams s) (Bids s) (auction s) (auctionTimer s) (timerValue s)
    (playerQueue s) (isAutoAuction s) (unsoldPlayers s)
    (isTeamSummaryShowing s) (connectedTeams s) (adminSockets s)
    (bigScreenSockets s) (pendingAdvance s) (emitted s).

Definition set_Teams (v : gmap nat Team) (s : State) : State :=
  mkState (Players s) v (Bids s) (auction s) (auctionTimer s) (timerValue s)
    (playerQueue s) (isAutoAuction s) (unsoldPlayers s)
    (isTeamSummaryShowing s) (connectedTeams s) (adminSockets s)
    (bigScreenSockets s) (pendingAdvance s) (emitted s).

Definition set_Bids (v : list Bid) (s : State) : State :=
  mkState (Players s) (Teams s) v (auction s) (auctionTimer s) (timerValue s)
    (playerQueue s) (isAutoAuction s) (unsoldPlayers s)
    (isTeamSummaryShowing s) (connectedTeams s) (adminSockets s)
    (bigScreenSockets s) (pendingAdvance s) (emitted s).

Definition set_auction (v : option AuctionState) (s : State) : State :=
  mkState (Players s) (Teams s) (Bids s) v (auctionTimer s) (timerValue s)
    (playerQueue s) (isAutoAuction s) (unsoldPlayers s)
    (isTeamSummaryShowing s) (connectedTeams s) (adminSockets s)
    (bigScreenSockets s) (pendingAdvance s) (emitted s).

Definition set_auctionTimer (v : bool) (s : State) : State :=
  mkState (Players s) (Teams s) (Bids s) (auction s) v (timerValue s)
    (playerQueue s) (isAutoAuction s) (unsoldPlayers s)
    (isTeamSummaryShowing s) (connectedTeams s) (adminSockets s)
    (bigScreenSockets s) (pendingAdvance s) (emitted s).

Definition set_timerValue (v : Z) (s : State) : State :=
  mkState (Players s) (Teams s) (Bids s) (auction s) (auctionTimer s) v
    (playerQueue s) (isAutoAuction s) (unsoldPlayers s)
    (isTeamSummaryShowing s) (connectedTeams s) (adminSockets s)
    (bigScreenSockets s) (pendingAdvance s) (emitted s).

Definition set_playerQueue (v : list nat) (s : State) : State :=
  mkState (Players s) (Teams s) (Bids s) (auction s) (auctionTimer s)
    (timerValue s) v (isAutoAuction s) (unsoldPlayers s)
    (isTeamSummaryShowing s) (connectedTeams s) (adminSockets s)
    (bigScreenSockets s) (pendingAdvance s) (emitted s).

Definition set_isAutoAuction (v : bool) (s : State) : State :=
  mkState (Players s) (Teams s) (Bids s) (auction s) (auctionTimer s)
    (timerValue s) (playerQueue s) v (unsoldPlayers s)
    (isTeamSummaryShowing s) (connectedTeams s) (adminSockets s)
    (bigScreenSockets s) (pendingAdvance s) (emitted s).

Definition set_unsoldPlayers (v : list nat) (s : State) : State :=
  mkState (Players s) (Teams s) (Bids s) (auction s) (auctionTimer s)
    (timerValue s) (playerQueue s) (isAutoAuction s) v
    (isTeamSummaryShowing s) (connectedTeams s) (adminSockets s)
    (bigScreenSockets s) (pendingAdvance s) (emitted s).

Definition set_isTeamSummaryShowing (v : bool) (s : State) : State :=
  mkState (Players s) (Teams s) (Bids s) (auction s) (auctionTimer s)
    (timerValue s) (playerQueue s) (isAutoAuction s) (unsoldPlayers s) v
    (connectedTeams s) (adminSockets s) (bigScreenSockets s)
    (pendingAdvance s) (emitted s).

Definition set_connectedTeams (v : gmap nat nat) (s : State) : State :=
  mkState (Players s) (Teams s) (Bids s) (auction s) (auctionTimer s)
    (timerValue s) (playerQueue s) (isAutoAuction s) (unsoldPlayers s)
    (isTeamSummaryShowing s) v (adminSockets s) (bigScreenSockets s)
    (pendingAdvance s) (emitted s).

Definition set_adminSockets (v : gset nat) (s : State) : State :=
  mkState (Players s) (Teams s) (Bids s) (auction s) (auctionTimer s)
    (timerValue s) (playerQueue s) (isAutoAuction s) (unsoldPlayers s)
    (isTeamSummaryShowing s) (connectedTeams s) v (bigScreenSockets s)
    (pendingAdvance s) (emitted s).

Definition set_bigScreenSockets (v : gset nat) (s : State) : State :=
  mkState (Players s) (Teams s) (Bids s) (auction s) (auctionTimer s)
    (timerValue s) (playerQueue s) (isAutoAuction s) (unsoldPlayers s)
    (isTeamSummaryShowing s) (connectedTeams s) (adminSockets s) v
    (pendingAdvance s) (emitted s).

Definition set_pendingAdvance (v : nat) (s : State) : State :=
  mkState (Players s) (Teams s) (Bids s) (auction s) (auctionTimer s)
    (timerValue s) (playerQueue s) (isAutoAuction s) (unsoldPlayers s)
    (isTeamSummaryShowing s) (connectedTeams s) (adminSockets s)
    (bigScreenSockets s) v (emitted s).

(** [emit] appends one event to the log. *)
Definition emit (to : Target) (e : Event) (s : State) : State :=
  mkState (Players s) (Teams s) (Bids s) (auction s) (auctionTimer s)
    (timerValue s) (playerQueue s) (isAutoAuction s) (unsoldPlayers s)
    (isTeamSummaryShowing s) (connectedTeams s) (adminSockets s)
    (bigScreenSockets s) (pendingAdvance s) (emitted s ++ [(to, e)]).

(** [Model.findById(id)]: a null id finds nothing. *)
Definition findPlayer (s : State) (id : option nat) : option Player :=
  id ≫= (Players s !!.).

Definition findTeam (s : State) (id : option nat) : option Team :=
  id ≫= (Teams s !!.).

(** Field updates of the documents. *)

Definition player_with_status (st : Status) (p : Player) : Player :=
  mkPlayer (basePrice p) st (soldTo p) (soldPrice p) (soldAt p).

Definition player_sold_to (tid : nat) (price now : Z) (p : Player) : Player :=
  mkPlayer (basePrice p) SOLD (Some tid) (Some price) (Some now).

Definition player_reset (p : Player) : Player :=
  mkPlayer (basePrice p) UNSOLD None None None.

Definition auction_with_bid (amt : Z) (tid : nat) (now : Z)
    (a : AuctionState) : AuctionState :=
  mkAuctionState (currentPlayer a) (mkHighBid amt (Some tid)) (isActive a)
    (isPaused a) (Some now) (auctionStartedAt a) (recentlySold a).

Definition auction_with_paused (b : bool) (a : AuctionState) : AuctionState :=
  mkAuctionState (currentPlayer a) (currentHighBid a) (isActive a) b
    (lastBidAt a) (auctionStartedAt a) (recentlySold a).

Section Engine.

(** [Number.parseInt(process.env.TIMER_DURATION)]: [None] is NaN. *)
Variable TIMER_DURATION : option Z.

(** The document [new AuctionState()] builds from the schema defaults; the
    schema is not part of the sources, and [startAuctionForPlayer]
    overwrites every field but [lastBidAt] and [recentlySold]. *)
Variable AuctionState_new : AuctionState.

(** [x || 20] on numbers: NaN and 0 are falsy. *)
Definition timerDuration : Z :=
  match TIMER_DURATION with
  | Some v => if decide (v = 0) then 20 else v
  | None => 20
  end.

(** ** Timer functions (lines 421-454) *)

Definition stopTimer (s : State) : State :=
  if auctionTimer s then set_auctionTimer false s else s.

Definition startTimer (s : State) : State :=
  let s := stopTimer s in
  let s := set_timerValue timerDuration s in
  let s := emit ToAll (timer_update (timerValue s)) s in
  set_auctionTimer true s.

Definition resetTimer (s : State) : State :=
  let s := set_timerValue 10 s in
  emit ToAll (timer_reset (timerValue s)) s.

Definition broadcastTeamStatus (s : State) : State :=
  emit ToAll teams_status s.

Definition sendAuctionState (sock : nat) (s : State) : State :=
  emit (ToSocket sock) (auction_state (auction s) (timerValue s)) s.

(** ** startAuctionForPlayer (lines 589-628) *)

Definition startAuctionForPlayer (now : Z) (playerId : nat) (s : State)
    : State :=
  match Players s !! playerId with
  | None => s
  | Some player =>
    if decide (status player = SOLD) then s
    else
      let player := player_with_status IN_AUCTION player in
      let s := set_Players (<[playerId := player]> (Players s)) s in
      let auctionState := default AuctionState_new (auction s) in
      let auctionState :=
        mkAuctionState (Some playerId) (mkHighBid (basePrice player) None)
          true false (lastBidAt auctionState) (Some now)
          (recentlySold auctionState) in
      let s := set_auction (Some auctionState) s in
      let s := startTimer s in
      emit ToAll (auction_started playerId (basePrice player) (timerValue s)) s
  end.

(** ** processNextPlayerInQueue (lines 541-587)

    The source function calls itself after skipping a sold player and after
    moving the unsold players into the queue.  [advanceQueue] is its first
    branch iterated along [playerQueue] (its list argument is always the
    current [playerQueue]); it reports whether an auction was started.
    [processNextPlayerInQueue] runs it, and when the queue ran empty takes
    the second branch once and runs it again; after that second run
    [unsoldPlayers] is empty, so the third branch ends the recursion.
    Lemma [processNextPlayerInQueue_unfold] below shows that the result
    satisfies the recursive equation of the source. *)

Fixpoint advanceQueue (now : Z) (queue : list nat) (s : State)
    : bool * State :=
  match queue with
  | [] => (false, s)
  | playerId :: rest =>
    let s := set_playerQueue rest s in
    let s := emit ToAdmin (autoAuction_queueUpdate (length (playerQueue s))
                             (length (unsoldPlayers s))) s in
    match Players s !! playerId with
    | Some player =>
      if decide (status player = SOLD) then advanceQueue now rest s
      else (true, startAuctionForPlayer now playerId s)
    | None => advanceQueue now rest s
    end
  end.

Definition autoAuctionCompleted (s : State) : State :=
  let s := set_isAutoAuction false s in
  let s := emit ToAdmin autoAuction_completed s in
  emit ToAll auction_allCompleted s.

Definition processNextPlayerInQueue (now : Z) (s : State) : State :=
  match advanceQueue now (playerQueue s) s with
  | (true, s) => s
  | (false, s) =>
    match unsoldPlayers s with
    | _ :: _ =>
      let s := set_playerQueue (unsoldPlayers s) s in
      let s := set_unsoldPlayers [] s in
      let s := emit ToAdmin (autoAuction_unsoldRound (length (playerQueue s))) s in
      match advanceQueue now (playerQueue s) s with
      | (true, s) => s
      | (false, s) => autoAuctionCompleted s
      end
    | [] => autoAuctionCompleted s
    end
  end.

(** ** handleAutoSold (lines 456-539)

    [populate] replaces [currentPlayer] and [currentHighBid.team] by the
    documents they refer to, or by null when the document is gone. *)

Definition handleAutoSold (now : Z) (s : State) : State :=
  let s := stopTimer s in
  match auction s with
  | None => s
  | Some auctionState =>
    match currentPlayer auctionState,
          findPlayer s (currentPlayer auctionState) with
    | Some playerId, Some player =>
      let winningTeam := team (currentHighBid auctionState) in
      let soldPrice := amount (currentHighBid auctionState) in
      let '(s, recently) :=
        match winningTeam, findTeam s winningTeam with
        | Some teamId, Some winner =>
          let s := set_Players
                     (<[playerId := player_sold_to teamId soldPrice now player]>
                        (Players s)) s in
          let winner :=
            mkTeam (remainingPoints winner - soldPrice)
              (rosterSlotsFilled winner + 1)
              (players winner ++ [playerId])
              (isOnline winner) (lastActive winner) in
          let s := set_Teams (<[teamId := winner]> (Teams s)) s in
          let recently :=
            mkSoldRecord playerId teamId soldPrice now
              :: recentlySold auctionState in
          (s, if decide (10 < length recently)%nat
              then take 10 recently else recently)
        | _, _ =>
          let s := set_Players
                     (<[playerId := player_with_status UNSOLD player]>
                        (Players s)) s in
          let s :=
            if isAutoAuction s && bool_decide (playerId ∉ unsoldPlayers s)
            then
              let s := set_unsoldPlayers (unsoldPlayers s ++ [playerId]) s in
              emit ToAdmin (autoAuction_playerUnsold playerId
                              (length (unsoldPlayers s))) s
            else s in
          (s, recentlySold auctionState)
        end in
      let auctionState :=
        mkAuctionState None (mkHighBid 5 None) false (isPaused auctionState)
          (lastBidAt auctionState) (auctionStartedAt auctionState) recently in
      let s := set_auction (Some auctionState) s in
      let s := emit ToAll
                 (player_sold playerId
                    (match findTeam s winningTeam with
                     | Some _ => winningTeam | None => None end)
                    soldPrice) s in
      let s := broadcastTeamStatus s in
      if isAutoAuction s
      then set_pendingAdvance (S (pendingAdvance s)) s
      else s
    | _, _ => s
    end
  end.

(** The interval callback of [startTimer]; it runs only while the interval
    is set. *)
Definition timerTick (now : Z) (s : State) : State :=
  if auctionTimer s then
    let s := set_timerValue (timerValue s - 1) s in
    let s := emit ToAll (timer_update (timerValue s)) s in
    if decide (timerValue s <= 0)
    then handleAutoSold now (stopTimer s)
    else s
  else s.

(** The [setTimeout] callback of [handleAutoSold]; it runs once for every
    scheduled timeout. *)
Definition advanceTimeout (now : Z) (s : State) : State :=
  match pendingAdvance s with
  | O => s
  | S n => processNextPlayerInQueue now (set_pendingAdvance n s)
  end.

(** ** bid:place (lines 108-207)

    The result pairs the reply sent to the bidding socket ([None] is
    [bid:success]) with the new state.  [team.remainingPoints] throws when
    the team document is gone; the catch block answers
    [FailedToPlaceBid]. *)

Definition bid_place (now : Z) (sock : nat) (amt : Z) (s : State)
    : option BidError * State :=
  let reject e := (Some e, emit (ToSocket sock) (bid_error e) s) in
  match connectedTeams s !! sock with
  | None => reject NotAuthenticated
  | Some teamId =>
    match auction s with
    | None => reject AuctionNotActive
    | Some auctionState =>
      if negb (isActive auctionState) || isPaused auctionState
      then reject AuctionNotActive
      else
        let team_doc := Teams s !! teamId in
        match currentPlayer auctionState,
              findPlayer s (currentPlayer auctionState) with
        | Some playerId, Some player =>
          if decide (status player ≠ IN_AUCTION)
          then reject PlayerNotInAuction
          else
            let currentHigh := amount (currentHighBid auctionState) in
            let hasNoBids :=
              bool_decide (team (currentHighBid auctionState) = None) in
            (* the code after the bid-amount validation *)
            let afterAmount :=
              match team_doc with
              | None => reject FailedToPlaceBid
              | Some tm =>
                if decide (amt > remainingPoints tm)
                then reject (InsufficientPoints (remainingPoints tm))
                else if negb hasNoBids &&
                        bool_decide (team (currentHighBid auctionState)
                                     = Some teamId)
                then reject AlreadyHighestBidder
                else
                  let s := set_Bids
                             (Bids s ++ [mkBid playerId teamId amt false]) s in
                  let s := set_auction
                             (Some (auction_with_bid amt teamId now
                                      auctionState)) s in
                  let s := resetTimer s in
                  let s := emit ToAll (bid_new amt teamId) s in
                  let s := emit (ToSocket sock) bid_success s in
                  (None, s)
              end in
            if hasNoBids then
              if decide (amt < currentHigh)
              then reject (BidMustBeAtLeast currentHigh)
              else afterAmount
            else
              if decide (amt <= currentHigh)
              then reject (BidMustBeHigher currentHigh)
              else afterAmount
        | _, _ => reject PlayerNotInAuction
        end
    end
  end.

(** ** Connections (lines 23-105 and 391-418)

    [Team.findOne({teamId})] and [team.comparePin(pin)] belong to the Team
    model; their results are arguments: [found] is the id of the document
    found, [isValidPin] the answer of [comparePin]. *)

Definition team_with_online (b : bool) (now : Z) (t : Team) : Team :=
  mkTeam (remainingPoints t) (rosterSlotsFilled t) (players t) b (Some now).

Definition team_login (now : Z) (sock : nat) (found : option nat)
    (isValidPin : bool) (s : State) : State :=
  match found, findTeam s found with
  | Some id, Some tm =>
    if isValidPin then
      let s := set_Teams (<[id := team_with_online true now tm]> (Teams s)) s in
      let s := set_connectedTeams (<[sock := id]> (connectedTeams s)) s in
      let s := emit (ToSocket sock) (auth_success_team id) s in
      broadcastTeamStatus s
    else emit (ToSocket sock) (auth_error InvalidPin) s
  | _, _ => emit (ToSocket sock) (auth_error InvalidTeamId) s
  end.

Definition admin_login (sock : nat) (passwordOk : bool) (s : State) : State :=
  if passwordOk then
    let s := set_adminSockets ({[sock]} ∪ adminSockets s) s in
    let s := emit (ToSocket sock) auth_success_admin s in
    sendAuctionState sock s
  else emit (ToSocket sock) (auth_error InvalidAdminPassword) s.

Definition bigscreen_connect (sock : nat) (s : State) : State :=
  let s := set_bigScreenSockets ({[sock]} ∪ bigScreenSockets s) s in
  let s := emit (ToSocket sock) connected s in
  sendAuctionState sock s.

Definition bigscreen_summaryStarting (s : State) : State :=
  let s := set_isTeamSummaryShowing true s in
  emit ToAdmin (teamSummary_showing true) s.

Definition bigscreen_summaryComplete (s : State) : State :=
  let s := set_isTeamSummaryShowing false s in
  emit ToAdmin (teamSummary_showing false) s.

Definition disconnect (now : Z) (sock : nat) (s : State) : State :=
  let s :=
    match connectedTeams s !! sock with
    | Some teamId =>
      let s := set_Teams (alter (team_with_online false now) teamId (Teams s)) s in
      let s := set_connectedTeams (delete sock (connectedTeams s)) s in
      broadcastTeamStatus s
    | None => s
    end in
  let s := set_adminSockets (adminSockets s ∖ {[sock]}) s in
  set_bigScreenSockets (bigScreenSockets s ∖ {[sock]}) s.

(** ** admin:startAuction, admin:pauseAuction, admin:resumeAuction
    (lines 210-265) *)

Definition admin_startAuction (now : Z) (sock playerId : nat) (s : State)
    : State :=
  if decide (sock ∉ adminSockets s)
  then emit (ToSocket sock) (error Unauthorized) s
  else if isTeamSummaryShowing s
  then emit (ToSocket sock) (error WaitForTeamSummary) s
  else
    match Players s !! playerId with
    | None => emit (ToSocket sock) (error PlayerNotAvailable) s
    | Some player =>
      if decide (status player = SOLD)
      then emit (ToSocket sock) (error PlayerNotAvailable) s
      else startAuctionForPlayer now playerId s
    end.

Definition admin_pauseAuction (sock : nat) (s : State) : State :=
  if decide (sock ∉ adminSockets s) then s
  else
    match auction s with
    | Some auctionState =>
      let s := set_auction (Some (auction_with_paused true auctionState)) s in
      let s := stopTimer s in
      emit ToAll auction_paused s
    | None => s
    end.

Definition admin_resumeAuction (sock : nat) (s : State) : State :=
  if decide (sock ∉ adminSockets s) then s
  else
    match auction s with
    | Some auctionState =>
      if isPaused auctionState then
        let s := set_auction (Some (auction_with_paused false auctionState)) s in
        let s := startTimer s in
        emit ToAll auction_resumed s
      else s
    | None => s
    end.

(** ** admin:undoSale (lines 267-300)

    [team.remainingPoints += player.soldPrice] adds 0 when [soldPrice] is
    null. *)

Definition admin_undoSale (sock playerId : nat) (s : State) : State :=
  if decide (sock ∉ adminSockets s) then s
  else
    match Players s !! playerId with
    | None => emit (ToSocket sock) (error CannotUndoSale) s
    | Some player =>
      if decide (status player ≠ SOLD)
      then emit (ToSocket sock) (error CannotUndoSale) s
      else
        let team_doc := findTeam s (soldTo player) in
        let s :=
          match soldTo player, team_doc with
          | Some teamId, Some tm =>
            let tm :=
              mkTeam (remainingPoints tm + default 0 (soldPrice player))
                (rosterSlotsFilled tm - 1)
                (filter (λ p, p ≠ playerId) (players tm))
                (isOnline tm) (lastActive tm) in
            set_Teams (<[teamId := tm]> (Teams s)) s
          | _, _ => s
          end in
        let s := set_Players (<[playerId := player_reset player]> (Players s)) s in
        let s := set_Bids (filter (λ b, bid_player b ≠ playerId) (Bids s)) s in
        emit ToAll
          (sale_undone playerId
             (match team_doc with Some _ => soldTo player | None => None end)) s
    end.

(** ** admin:startAutoAuction (lines 303-363)

    [Math.random()] is an oracle: the [k]-th call of one run of the handler
    yields [rnd k], and [Math.floor(Math.random() * (i + 1))] is
    [rnd k mod (i + 1)]. *)

(** [[a[i], a[j]] = [a[j], a[i]]] *)
Definition swap {A} (i j : nat) (a : list A) : list A :=
  match a !! i, a !! j with
  | Some x, Some y => <[j := x]> (<[i := y]> a)
  | _, _ => a
  end.

(** The Fisher-Yates loop from index [i] down to 1, with [k] random numbers
    drawn before. *)
Fixpoint shuffleLoop {A} (rnd : nat → nat) (k i : nat) (a : list A)
    : list A :=
  match i with
  | O => a
  | S i' =>
    let j := Nat.modulo (rnd k) (i + 1) in
    shuffleLoop rnd (S k) i' (swap i j a)
  end.

Definition shuffle {A} (rnd : nat → nat) (k : nat) (a : list A) : list A :=
  shuffleLoop rnd k (length a - 1)%nat a.

(** The comparator [(a, b) => b - a]. *)
Definition descending (a b : Z) : Prop := b ≤ a.

#[global] Instance descending_dec a b : Decision (descending a b).
Proof. unfold descending. apply _. Defined.

Definition addToGroup (playersByPrice : gmap Z (list (nat * Player)))
    (player : nat * Player) : gmap Z (list (nat * Player)) :=
  let price := basePrice player.2 in
  <[price := default [] (playersByPrice !! price) ++ [player]]> playersByPrice.

Definition pushGroup (rnd : nat → nat)
    (playersByPrice : gmap Z (list (nat * Player)))
    (acc : list (nat * Player) * nat) (price : Z)
    : list (nat * Player) * nat :=
  let playersAtPrice := default [] (playersByPrice !! price) in
  (acc.1 ++ shuffle rnd acc.2 playersAtPrice,
   (acc.2 + (length playersAtPrice - 1))%nat).

(** Lines 318-346: the queue built from [availablePlayers], documents
    paired with their ids. *)
Definition buildQueue (rnd : nat → nat)
    (availablePlayers : list (nat * Player)) : list nat :=
  let playersByPrice := foldl addToGroup ∅ availablePlayers in
  let sortedPrices := merge_sort descending (map_to_list playersByPrice).*1 in
  let shuffledPlayers :=
    (foldl (pushGroup rnd playersByPrice) ([], O) sortedPrices).1 in
  shuffledPlayers.*1.

(** [Player.find({ status: { $ne: 'SOLD' } })] *)
Definition findAvailablePlayers (s : State) : list (nat * Player) :=
  filter (λ p, status p.2 ≠ SOLD) (map_to_list (Players s)).

Definition admin_startAutoAuction (now : Z) (rnd : nat → nat) (sock : nat)
    (s : State) : State :=
  if decide (sock ∉ adminSockets s)
  then emit (ToSocket sock) (error Unauthorized) s
  else
    let availablePlayers := findAvailablePlayers s in
    match availablePlayers with
    | [] => emit (ToSocket sock) (error NoPlayersAvailable) s
    | _ :: _ =>
      let s := set_playerQueue (buildQueue rnd availablePlayers) s in
      let s := set_unsoldPlayers [] s in
      let s := set_isAutoAuction true s in
      let s := emit ToAdmin (autoAuction_started (length (playerQueue s))) s in
      processNextPlayerInQueue now s
    end.

(** ** admin:stopAutoAuction, admin:getAutoAuctionStatus (lines 366-388) *)

Definition admin_stopAutoAuction (sock : nat) (s : State) : State :=
  if decide (sock ∉ adminSockets s) then s
  else
    let s := set_isAutoAuction false s in
    let s := stopTimer s in
    emit ToAdmin (autoAuction_stopped (length (playerQueue s))
                    (length (unsoldPlayers s))) s.

Definition admin_getAutoAuctionStatus (sock : nat) (s : State) : State :=
  if decide (sock ∉ adminSockets s) then s
  else
    emit (ToSocket sock)
      (autoAuction_status (isAutoAuction s) (length (playerQueue s))
         (length (unsoldPlayers s))) s.

(** ** The engine as a transition system

    One [Input] per socket message and per callback of the event loop;
    [step] runs its handler to completion, with no other handler running
    between its awaits. *)

Inductive Input :=
  | team_login_msg (sock : nat) (found : option nat) (isValidPin : bool)
  | admin_login_msg (sock : nat) (passwordOk : bool)
  | bigscreen_connect_msg (sock : nat)
  | bigscreen_summaryStarting_msg
  | bigscreen_summaryComplete_msg
  | bid_place_msg (sock : nat) (amt : Z)
  | admin_startAuction_msg (sock playerId : nat)
  | admin_pauseAuction_msg (sock : nat)
  | admin_resumeAuction_msg (sock : nat)
  | admin_undoSale_msg (sock playerId : nat)
  | admin_startAutoAuction_msg (rnd : nat → nat) (sock : nat)
  | admin_stopAutoAuction_msg (sock : nat)
  | admin_getAutoAuctionStatus_msg (sock : nat)
  | disconnect_msg (sock : nat)
  | interval_fires
  | timeout_fires.

Definition step (now : Z) (i : Input) (s : State) : State :=
  match i with
  | team_login_msg sock found ok => team_login now sock found ok s
  | admin_login_msg sock ok => admin_login sock ok s
  | bigscreen_connect_msg sock => bigscreen_connect sock s
  | bigscreen_summaryStarting_msg => bigscreen_summaryStarting s
  | bigscreen_summaryComplete_msg => bigscreen_summaryComplete s
  | bid_place_msg sock amt => (bid_place now sock amt s).2
  | admin_startAuction_msg sock playerId => admin_startAuction now sock playerId s
  | admin_pauseAuction_msg sock => admin_pauseAuction sock s
  | admin_resumeAuction_msg sock => admin_resumeAuction sock s
  | admin_undoSale_msg sock playerId => admin_undoSale sock playerId s
  | admin_startAutoAuction_msg rnd sock => admin_startAutoAuction now rnd sock s
  | admin_stopAutoAuction_msg sock => admin_stopAutoAuction sock s
  | admin_getAutoAuctionStatus_msg sock => admin_getAutoAuctionStatus sock s
  | disconnect_msg sock => disconnect now sock s
  | interval_fires => timerTick now s
  | timeout_fires => advanceTimeout now s
  end.

(** A run: the inputs with the clock reading at each, oldest first, each
    handled to completion before the next one starts. *)
Definition run (inputs : list (Z * Input)) (s : State) : State :=
  foldl (λ s i, step i.1 i.2 s) s inputs.

End Engine.

(** * Bid arbitration *)

(** ** The validation rules as the specification words them

    The six rules of the bid arbiter, in the order of the specification;
    [None] means that every rule passes.  The base price is the one of the
    current lot, the budget the one of the bidder of the connection. *)

Inductive SpecBidFailure :=
  | SpecNotAuthenticated
  | SpecAuctionInactive
  | SpecBelowMinimum
  | SpecNotHigherThanCurrent
  | SpecInsufficientBudget
  | SpecAlreadyHighBidder.

(** [amt < bound] and [bound < amt] where the bound is known. *)
Definition below (amt : Z) (bound : option Z) : Prop :=
  match bound with Some b => amt < b | None => False end.

Definition below_opt (bound : option Z) (amt : Z) : Prop :=
  match bound with Some b => b < amt | None => False end.

#[global] Instance below_dec amt bound : Decision (below amt bound).
Proof. destruct bound; simpl; apply _. Defined.

#[global] Instance below_opt_dec bound amt : Decision (below_opt bound amt).
Proof. destruct bound; simpl; apply _. Defined.

Definition spec_placeBid_checks (s : State) (sock : nat) (amt : Z)
    : option SpecBidFailure :=
  match connectedTeams s !! sock with
  | None => Some SpecNotAuthenticated
  | Some bidder =>
    match auction s with
    | None => Some SpecAuctionInactive
    | Some a =>
      let lot := findPlayer s (currentPlayer a) in
      let budget := remainingPoints <$> Teams s !! bidder in
      let high := currentHighBid a in
      if decide (isActive a = false ∨ isPaused a = true)
      then Some SpecAuctionInactive
      else if decide (team high = None ∧ below amt (basePrice <$> lot))
      then Some SpecBelowMinimum
      else if decide (team high ≠ None ∧ amt ≤ amount high)
      then Some SpecNotHigherThanCurrent
      else if decide (below_opt budget amt)
      then Some SpecInsufficientBudget
      else if decide (team high = Some bidder)
      then Some SpecAlreadyHighBidder
      else None
    end
  end.

(** ** The validation rules of the handler, in its order

    Seven rules: the six above with the lot check in third place, the
    floor of the first bid read from [currentHighBid.amount], and the
    failure of the handler when the team document of the connection is
    gone. *)

Definition placeBid_checks (s : State) (sock : nat) (amt : Z)
    : option BidError :=
  match connectedTeams s !! sock with
  | None => Some NotAuthenticated
  | Some bidder =>
    match auction s with
    | None => Some AuctionNotActive
    | Some a =>
      let high := currentHighBid a in
      if decide (isActive a = false ∨ isPaused a = true)
      then Some AuctionNotActive
      else if decide (status <$> findPlayer s (currentPlayer a)
                      ≠ Some IN_AUCTION)
      then Some PlayerNotInAuction
      else if decide (team high = None ∧ amt < amount high)
      then Some (BidMustBeAtLeast (amount high))
      else if decide (team high ≠ None ∧ amt ≤ amount high)
      then Some (BidMustBeHigher (amount high))
      else
        match Teams s !! bidder with
        | None => Some FailedToPlaceBid
        | Some tm =>
          if decide (amt > remainingPoints tm)
          then Some (InsufficientPoints (remainingPoints tm))
          else if decide (team high = Some bidder)
          then Some AlreadyHighestBidder
          else None
        end
    end
  end.

(** ** What a rejection and an acceptance do to the state *)

Definition bid_accepted (now : Z) (sock teamId playerId : nat) (amt : Z)
    (a : AuctionState) (s : State) : State :=
  emit (ToSocket sock) bid_success
    (emit ToAll (bid_new amt teamId)
       (resetTimer
          (set_auction (Some (auction_with_bid amt teamId now a))
             (set_Bids (Bids s ++ [mkBid playerId teamId amt false]) s)))).

(** * Example states and runs *)

(** A state in which the current lot is no longer in auction while the
    auction state is still active: team 100 is connected on socket 1 with
    50 points, lot 1 has base price 10. *)
Definition lot_withdrawn_state : State :=
  mkState
    {[ 1%nat := mkPlayer 10 UNSOLD None None None ]}
    {[ 100%nat := mkTeam 50 0 [] true None ]}
    []
    (Some (mkAuctionState (Some 1%nat) (mkHighBid 10 None) true false
             None (Some 0) []))
    true 20 [] false [] false
    {[ 1%nat := 100%nat ]} ∅ ∅ 0 [].

(** The document used for [new AuctionState()] in the examples. *)
Definition blank_auction : AuctionState :=
  mkAuctionState None (mkHighBid 5 None) false false None None [].

(** Three lots (1 and 2 at base price 10, 3 at 30), team 100 with 50
    points on socket 1, team 101 with 30 points on socket 2, the admin on
    socket 9; nothing in auction yet. *)
Definition lobby_state : State :=
  mkState
    (list_to_map [(1%nat, mkPlayer 10 AVAILABLE None None None);
                  (2%nat, mkPlayer 10 AVAILABLE None None None);
                  (3%nat, mkPlayer 30 AVAILABLE None None None)])
    (list_to_map [(100%nat, mkTeam 50 0 [] true None);
                  (101%nat, mkTeam 30 0 [] true None)])
    [] None false 20 [] false [] false
    (list_to_map [(1%nat, 100%nat); (2%nat, 101%nat)]) {[ 9%nat ]} ∅ 0 [].

(** Lot 1 in auction during an auto-run, no bid placed. *)
Definition no_bid_state : State :=
  mkState
    {[ 1%nat := mkPlayer 10 IN_AUCTION None None None ]}
    {[ 100%nat := mkTeam 50 0 [] true None ]}
    []
    (Some (mkAuctionState (Some 1%nat) (mkHighBid 10 None) true false
             None (Some 0) []))
    true 1 [2%nat] true [] false
    {[ 1%nat := 100%nat ]} {[ 9%nat ]} ∅ 0 [].

(** Lot 1 in auction with a high bid of 20 by team 100, whose roster
    already holds lot 7; two bids recorded for lot 1 and one for lot 7. *)
Definition high_bid_state : State :=
  mkState
    (list_to_map [(1%nat, mkPlayer 10 IN_AUCTION None None None);
                  (7%nat, mkPlayer 5 SOLD (Some 100%nat) (Some 5) (Some 0))])
    (list_to_map [(100%nat, mkTeam 50 1 [7%nat] true None);
                  (101%nat, mkTeam 30 0 [] true None)])
    [mkBid 7 100 5 false; mkBid 1 101 15 false; mkBid 1 100 20 false]
    (Some (mkAuctionState (Some 1%nat) (mkHighBid 20 (Some 100%nat)) true
             false (Some 3) (Some 1) []))
    true 1 [] false [] false
    (list_to_map [(1%nat, 100%nat); (2%nat, 101%nat)]) {[ 9%nat ]} ∅ 0 [].

(** The lobby while the big screen shows the team summary. *)
Definition summary_showing_state : State :=
  bigscreen_summaryStarting lobby_state.

(** An auto-run started from the lobby ([Math.random] yields the call
    number) whose first lot, lot 3, gets no bid during the 20 ticks of the
    countdown. *)
Definition first_lot_unsold_inputs : list (Z * Input) :=
  (1, admin_startAutoAuction_msg (λ k, k) 9)
    :: replicate 20 (2, interval_fires).

(** ... after which the admin stops the auto-run, and only then the
    17-second timeout of the settlement fires. *)
Definition stop_then_timeout_inputs : list (Z * Input) :=
  first_lot_unsold_inputs
    ++ [(3, admin_stopAutoAuction_msg 9); (4, timeout_fires)].

(** The order of the queue: the base price never increases. *)
Definition price_desc (x y : nat * Player) : Prop :=
  basePrice y.2 ≤ basePrice x.2.

(** The lots of one base price, in the order of the collection. *)
Definition group_of (price : Z) (l : list (nat * Player))
    : list (nat * Player) :=
  filter (λ x, basePrice x.2 = price) l.

(** ** Well-formed data

    Budgets are not negative; base prices and recorded sale prices are not
    negative; the current high bid is not negative and its bidder can pay
    it. *)
Definition wf_parts (P : gmap nat Player) (T : gmap nat Team)
    (a : option AuctionState) : Prop :=
  (∀ id t, T !! id = Some t → 0 ≤ remainingPoints t) ∧
  (∀ id p, P !! id = Some p →
           0 ≤ basePrice p ∧ 0 ≤ default 0 (soldPrice p)) ∧
  (∀ st, a = Some st →
         0 ≤ amount (currentHighBid st) ∧
         ∀ tid t, team (currentHighBid st) = Some tid → T !! tid = Some t →
                  amount (currentHighBid st) ≤ remainingPoints t).

Definition well_formed (s : State) : Prop :=
  wf_parts (Players s) (Teams s) (auction s).

(** The example of the specification: lot 1 at base price 10 is started
    by the admin; team 100 (budget 50, socket 1) bids 10, team 101 (budget
    30, socket 2) bids 10 and then 15, team 100 bids 15 and then 20; the
    countdown, reset to 10 by the last bid, expires. *)
Definition example_inputs : list (Z * Input) :=
  [(1, admin_startAuction_msg 9 1);
   (2, bid_place_msg 1 10); (3, bid_place_msg 2 10);
   (4, bid_place_msg 2 15); (5, bid_place_msg 1 15);
   (6, bid_place_msg 1 20)]
  ++ replicate 10 (7, interval_fires).

(** The two fields that a settlement clears are in step: the auction state
    is inactive exactly when it names no lot. *)
Definition active_iff_lot (s : State) : Prop :=
  ∀ a, auction s = Some a → (isActive a = false ↔ currentPlayer a = None).

(** * What one handler does to the database

    Every socket handler and callback of the engine runs to completion and
    makes at most one of the following changes to the four collections.
    [Anew] is the document of [new AuctionState()]. *)

Definition sold_records (now : Z) (playerId teamId : nat) (price : Z)
    (old : list SoldRecord) : list SoldRecord :=
  let recently := mkSoldRecord playerId teamId price now :: old in
  if decide (10 < length recently)%nat then take 10 recently else recently.

Inductive db_change (Anew : AuctionState) (s s' : State) : Prop :=
  | dbc_none :
      Players s' = Players s → Teams s' = Teams s →
      auction s' = auction s → Bids s' = Bids s →
      db_change Anew s s'
  | dbc_team_online tid t online seen :
      Teams s !! tid = Some t →
      Teams s' = <[tid := mkTeam (remainingPoints t) (rosterSlotsFilled t)
                            (players t) online seen]> (Teams s) →
      Players s' = Players s → auction s' = auction s → Bids s' = Bids s →
      db_change Anew s s'
  | dbc_start now pid p :
      Players s !! pid = Some p → status p ≠ SOLD →
      Players s' = <[pid := player_with_status IN_AUCTION p]> (Players s) →
      auction s' =
        Some (mkAuctionState (Some pid) (mkHighBid (basePrice p) None) true
                false (lastBidAt (default Anew (auction s))) (Some now)
                (recentlySold (default Anew (auction s)))) →
      Teams s' = Teams s → Bids s' = Bids s →
      db_change Anew s s'
  | dbc_bid now teamId tm pid a amt :
      auction s = Some a → isActive a = true → isPaused a = false →
      currentPlayer a = Some pid →
      Teams s !! teamId = Some tm → amt ≤ remainingPoints tm →
      amount (currentHighBid a) ≤ amt →
      (team (currentHighBid a) ≠ None →
       amount (currentHighBid a) < amt ∧
       team (currentHighBid a) ≠ Some teamId) →
      auction s' = Some (auction_with_bid amt teamId now a) →
      Bids s' = Bids s ++ [mkBid pid teamId amt false] →
      Players s' = Players s → Teams s' = Teams s →
      db_change Anew s s'
  | dbc_paused b a :
      auction s = Some a →
      auction s' = Some (auction_with_paused b a) →
      Players s' = Players s → Teams s' = Teams s → Bids s' = Bids s →
      db_change Anew s s'
  | dbc_sold now a pid p tid tm :
      auction s = Some a → currentPlayer a = Some pid →
      Players s !! pid = Some p →
      team (currentHighBid a) = Some tid → Teams s !! tid = Some tm →
      Players s' =
        <[pid := player_sold_to tid (amount (currentHighBid a)) now p]>
          (Players s) →
      Teams s' =
        <[tid := mkTeam (remainingPoints tm - amount (currentHighBid a))
                   (rosterSlotsFilled tm + 1) (players tm ++ [pid])
                   (isOnline tm) (lastActive tm)]> (Teams s) →
      auction s' =
        Some (mkAuctionState None (mkHighBid 5 None) false (isPaused a)
                (lastBidAt a) (auctionStartedAt a)
                (sold_records now pid tid (amount (currentHighBid a))
                   (recentlySold a))) →
      Bids s' = Bids s →
      db_change Anew s s'
  | dbc_unsold a pid p :
      auction s = Some a → currentPlayer a = Some pid →
      Players s !! pid = Some p →
      findTeam s (team (currentHighBid a)) = None →
      Players s' = <[pid := player_with_status UNSOLD p]> (Players s) →
      auction s' =
        Some (mkAuctionState None (mkHighBid 5 None) false (isPaused a)
                (lastBidAt a) (auctionStartedAt a) (recentlySold a)) →
      Teams s' = Teams s → Bids s' = Bids s →
      db_change Anew s s'
  | dbc_undo pid p :
      Players s !! pid = Some p → status p = SOLD →
      Players s' = <[pid := player_reset p]> (Players s) →
      Teams s' =
        match soldTo p, findTeam s (soldTo p) with
        | Some tid, Some tm =>
          <[tid := mkTeam (remainingPoints tm + default 0 (soldPrice p))
                     (rosterSlotsFilled tm - 1)
                     (filter (λ q, q ≠ pid) (players tm))
                     (isOnline tm) (lastActive tm)]> (Teams s)
        | _, _ => Teams s
        end →
      Bids s' = filter (λ b, bid_player b ≠ pid) (Bids s) →
      auction s' = auction s →
      db_change Anew s s'.

(** A queued id is skipped when its lot is gone or SOLD. *)
Definition skipped (s : State) (playerId : nat) : Prop :=
  ∀ p, Players s !! playerId = Some p → status p = SOLD.

(** Two states with the same four collections. *)
Definition same_database (s s' : State) : Prop :=
  Players s' = Players s ∧ Teams s' = Teams s ∧
  auction s' = auction s ∧ Bids s' = Bids s.

(** * Consistency of the collections

    A lot is SOLD exactly when its three sale fields are set. *)
Definition lots_sale_fields (s : State) : Prop :=
  ∀ id p, Players s !! id = Some p →
    (status p = SOLD →
     is_Some (soldTo p) ∧ is_Some (soldPrice p) ∧ is_Some (soldAt p)) ∧
    (status p ≠ SOLD →
     soldTo p = None ∧ soldPrice p = None ∧ soldAt p = None).

(** The lot named by the auction state exists, is IN_AUCTION, and the
    high bid is not below its base price. *)
Definition current_lot_in_auction (s : State) : Prop :=
  ∀ a pid, auction s = Some a → currentPlayer a = Some pid →
    ∃ p, Players s !! pid = Some p ∧ status p = IN_AUCTION ∧
         basePrice p ≤ amount (currentHighBid a).

(** A roster has no duplicate, [rosterSlotsFilled] is its length, and it
    holds exactly the lots SOLD to the team. *)
Definition rosters_consistent (s : State) : Prop :=
  ∀ tid t, Teams s !! tid = Some t →
    NoDup (players t) ∧
    rosterSlotsFilled t = Z.of_nat (length (players t)) ∧
    ∀ pid, pid ∈ players t ↔
           ∃ p, Players s !! pid = Some p ∧ status p = SOLD ∧
                soldTo p = Some tid.

Definition consistent (s : State) : Prop :=
  active_iff_lot s ∧ lots_sale_fields s ∧ current_lot_in_auction s ∧
  rosters_consistent s.

(** * Further vocabulary *)

(** [n] firings of the interval callback in a row. *)
Definition ticks (n : nat) (now : Z) (s : State) : State :=
  Nat.iter n (timerTick now) s.

(** What a team has paid for the lots of its roster, and its funds: the
    points left plus the points paid. *)
Definition spent (P : gmap nat Player) (roster : list nat) : Z :=
  foldr (λ pid acc, default 0 (P !! pid ≫= soldPrice) + acc) 0 roster.

Definition funds (s : State) (t : Team) : Z :=
  remainingPoints t + spent (Players s) (players t).

(** The admin commands a socket can send. *)
Definition admin_command (sock : nat) (i : Input) : Prop :=
  match i with
  | admin_startAuction_msg sock' _ | admin_pauseAuction_msg sock'
  | admin_resumeAuction_msg sock' | admin_undoSale_msg sock' _
  | admin_startAutoAuction_msg _ sock' | admin_stopAutoAuction_msg sock'
  | admin_getAutoAuctionStatus_msg sock' => sock' = sock
  | _ => False
  end.

(** * HTTP admin routes (src/routes/adminRoutes.js)

    The routes work on the same collections and leave the variables of
    the socket module alone.  [INITIAL_BUDGET] is
    [Number.parseInt(process.env.INITIAL_BUDGET)], [None] for NaN. *)

Definition initialBudget (INITIAL_BUDGET : option Z) : Z :=
  match INITIAL_BUDGET with
  | Some v => if decide (v = 0) then 110 else v
  | None => 110
  end.

Definition team_reset (budget : Z) (t : Team) : Team :=
  mkTeam budget 0 [] false (lastActive t).

(** POST /reset (lines 149-186): four writes, each awaited in turn. *)

(** [Player.updateMany({}, {status: 'UNSOLD', soldTo: null, ...})] *)
Definition reset_Player_updateMany (s : State) : State :=
  set_Players (player_reset <$> Players s) s.

(** [Team.updateMany({}, {remainingPoints: ..., rosterSlotsFilled: 0,
    players: [], isOnline: false})] *)
Definition reset_Team_updateMany (INITIAL_BUDGET : option Z) (s : State)
    : State :=
  set_Teams (team_reset (initialBudget INITIAL_BUDGET) <$> Teams s) s.

(** [Bid.deleteMany({})] *)
Definition reset_Bid_deleteMany (s : State) : State := set_Bids [] s.

(** [AuctionState.deleteMany({})] *)
Definition reset_AuctionState_deleteMany (s : State) : State :=
  set_auction None s.

(** The route when no other handler runs between its writes. *)
Definition http_reset (INITIAL_BUDGET : option Z) (s : State) : State :=
  let s := reset_Player_updateMany s in
  let s := reset_Team_updateMany INITIAL_BUDGET s in
  let s := reset_Bid_deleteMany s in
  reset_AuctionState_deleteMany s.

(** DELETE /clear-all (lines 189-203) *)
Definition http_clear_all (s : State) : State :=
  let s := set_Players ∅ s in
  let s := set_Teams ∅ s in
  let s := set_Bids [] s in
  set_auction None s.

(** POST /clear-all-data (lines 259-290): the new auction state names no
    lot and is inactive; its other fields are those of
    [new AuctionState()]. *)
Definition http_clear_all_data (Anew : AuctionState) (s : State) : State :=
  let s := http_clear_all s in
  set_auction
    (Some (mkAuctionState None (currentHighBid Anew) false (isPaused Anew)
             (lastBidAt Anew) (auctionStartedAt Anew) (recentlySold Anew)))
    s.

Inductive HttpReply :=
  | http_ok              (* 200 *)
  | http_bad_request     (* 400 *)
  | http_not_found.      (* 404 *)

(** DELETE /:id of the team routes (lines 523-540 of the second file of
    adminRoutes.js) *)
Definition http_delete_team (id : nat) (s : State) : HttpReply * State :=
  match Teams s !! id with
  | None => (http_not_found, s)
  | Some tm =>
    if decide (rosterSlotsFilled tm > 0) then (http_bad_request, s)
    else (http_ok, set_Teams (delete id (Teams s)) s)
  end.

(** Socket messages, callbacks and HTTP requests together, each handled
    to completion before the next one starts. *)
Inductive Request :=
  | socket_input (i : Input)
  | reset_request
  | clear_all_request
  | clear_all_data_request
  | delete_team_request (id : nat).

Definition handle (TD INITIAL_BUDGET : option Z) (Anew : AuctionState)
    (now : Z) (r : Request) (s : State) : State :=
  match r with
  | socket_input i => step TD Anew now i s
  | reset_request => http_reset INITIAL_BUDGET s
  | clear_all_request => http_clear_all s
  | clear_all_data_request => http_clear_all_data Anew s
  | delete_team_request id => (http_delete_team id s).2
  end.

Definition serve (TD INITIAL_BUDGET : option Z) (Anew : AuctionState)
    (requests : list (Z * Request)) (s : State) : State :=
  foldl (λ s r, handle TD INITIAL_BUDGET Anew r.1 r.2 s) s requests.

(** The list of recent sales holds at most ten records. *)
Definition recent_bounded (a : option AuctionState) : Prop :=
  ∀ st, a = Some st → (length (recentlySold st) ≤ 10)%nat.

(** Inputs that a team, a big screen or a login attempt can cause: no
    admin command and no callback. *)
Definition client_message (i : Input) : Prop :=
  match i with
  | team_login_msg _ _ _ | admin_login_msg _ _ | bigscreen_connect_msg _
  | bigscreen_summaryStarting_msg | bigscreen_summaryComplete_msg
  | bid_place_msg _ _ | disconnect_msg _ => True
  | _ => False
  end.

(** Bids and firings of the interval callback only. *)
Definition bids_and_ticks (inputs : list (Z * Input)) : Prop :=
  Forall (λ i, match i.2 with
               | bid_place_msg _ _ | interval_fires => True
               | _ => False
               end) inputs.

(** One round of an auto-run in which nobody bids: the countdown expires
    and the timeout scheduled by the settlement fires. *)
Definition unsold_round (TD : option Z) (Anew : AuctionState) (now : Z)
    (s : State) : State :=
  advanceTimeout TD Anew now (handleAutoSold now s).

(** An auto-run whose only waiting lot is the one that is up, with no
    bidder. *)
Definition last_lot_without_bid (playerId : nat) (s : State) : Prop :=
  isAutoAuction s = true ∧ playerQueue s = [] ∧ unsoldPlayers s = [] ∧
  pendingAdvance s = O ∧
  ∃ a p, auction s = Some a ∧ currentPlayer a = Some playerId ∧
         team (currentHighBid a) = None ∧ Players s !! playerId = Some p.

(** * Inside a settlement

    [handleAutoSold] awaits three saves in turn: the lot (line 476, or
    497 when there is no winner), the winning team (line 482) and the
    auction state (line 514).  This is the database after the first of
    them: the lot is written, the team and the auction state are not
    yet. *)
Definition handleAutoSold_lot_saved (now : Z) (s : State) : State :=
  let s := stopTimer s in
  match auction s with
  | None => s
  | Some auctionState =>
    match currentPlayer auctionState,
          findPlayer s (currentPlayer auctionState) with
    | Some playerId, Some player =>
      let winningTeam := team (currentHighBid auctionState) in
      let soldPrice := amount (currentHighBid auctionState) in
      match winningTeam, findTeam s winningTeam with
      | Some teamId, Some _ =>
        set_Players
          (<[playerId := player_sold_to teamId soldPrice now player]>
             (Players s)) s
      | _, _ =>
        set_Players
          (<[playerId := player_with_status UNSOLD player]> (Players s)) s
      end
    | _, _ => s
    end
  end.

(** * JavaScript numbers

    [Number.isSafeInteger] on an integer. *)
Definition safe_integer (x : Z) : Prop := - 2 ^ 53 < x < 2 ^ 53.

#[global] Instance safe_integer_dec x : Decision (safe_integer x).
Proof. unfold safe_integer. apply _. Defined.

(** A JavaScript number is a double. *)
Definition number : Set := float.

(** The amount checks of [bid:place] (lines 131-152) on doubles: the bid
    is not below the floor, or not at or below the high bid once a bid
    was accepted, and not above the bidder's points. *)
Definition amount_passes (hasNoBids : bool)
    (amount currentHighBid remainingPoints : number) : bool :=
  negb (if hasNoBids then PrimFloat.ltb amount currentHighBid
        else PrimFloat.leb amount currentHighBid)
  && negb (PrimFloat.ltb remainingPoints amount).

(** [winningTeam.remainingPoints -= soldPrice] (line 479) *)
Definition sold_remainingPoints (remainingPoints soldPrice : number)
    : number :=
  PrimFloat.sub remainingPoints soldPrice.

(** [team.remainingPoints += player.soldPrice] (line 279) *)
Definition undone_remainingPoints (remainingPoints soldPrice : number)
    : number :=
  PrimFloat.add remainingPoints soldPrice.

(** * A lot with a negative base price

    Lot 1 has base price -5 and lot 2 base price 7; team 100 has 2 points
    and is connected on socket 1; the admin is on socket 9. *)
Definition negative_price_state : State :=
  mkState
    (list_to_map [(1%nat, mkPlayer (-5) AVAILABLE None None None);
                  (2%nat, mkPlayer 7 AVAILABLE None None None)])
    {[ 100%nat := mkTeam 2 0 [] true None ]}
    [] None false 20 [] false [] false
    {[ 1%nat := 100%nat ]} {[ 9%nat ]} ∅ 0 [].

(** Lot 1 is started, team 100 bids -5 and wins it; lot 2 is started,
    team 100 bids 7 and wins it; the sale of lot 1 is undone. *)
Definition negative_price_inputs : list (Z * Input) :=
  [(1, admin_startAuction_msg 9 1); (2, bid_place_msg 1 (-5))]
  ++ replicate 10 (3, interval_fires)
  ++ [(4, admin_startAuction_msg 9 2); (5, bid_place_msg 1 7)]
  ++ replicate 10 (6, interval_fires)
  ++ [(7, admin_undoSale_msg 9 1)].

(** * Verification *)

Lemma findPlayer_Some s o p :
  findPlayer s o = Some p → ∃ id, o = Some id ∧ Players s !! id = Some p.
Proof. destruct o as [id|]; simpl; [eauto | done]. Qed.

Lemma findTeam_Some s o t :
  findTeam s o = Some t → ∃ id, o = Some id ∧ Teams s !! id = Some t.
Proof. destruct o as [id|]; simpl; [eauto | done]. Qed.

(** The reply of the handler is the first rule that fails. *)
Lemma bid_place_reply now sock amt s :
  (bid_place now sock amt s).1 = placeBid_checks s sock amt.
Proof.
  unfold bid_place, placeBid_checks.
  destruct (connectedTeams s !! sock) as [teamId|]; [|done].
  destruct (auction s) as [a|]; [|done].
  destruct (decide (isActive a = false ∨ isPaused a = true)) as [Hact|Hact].
  { destruct Hact as [-> | ->]; [done|]. by destruct (isActive a). }
  assert (isActive a = true ∧ isPaused a = false) as [-> ->]
    by (destruct (isActive a), (isPaused a); tauto).
  simpl.
  destruct (currentPlayer a) as [pid|]; simpl; [|done].
  destruct (Players s !! pid) as [p|]; simpl; [|done].
  destruct (team (currentHighBid a)) as [hb|] eqn:Hhb; simpl;
    repeat (case_decide || case_bool_decide || case_match);
    simpl in *; simplify_eq; try done; try lia; try congruence;
    naive_solver.
Qed.

(** A rejected bid only sends the error to the bidding socket. *)
Lemma bid_place_rejected now sock amt s e :
  (bid_place now sock amt s).1 = Some e →
  (bid_place now sock amt s).2 = emit (ToSocket sock) (bid_error e) s.
Proof.
  unfold bid_place.
  repeat (case_match; simpl in * ); intros; simplify_eq; done.
Qed.

(** An accepted bid is recorded for the bidder of the connection and the
    current lot. *)
Lemma bid_place_accepted now sock amt s :
  (bid_place now sock amt s).1 = None →
  ∃ teamId playerId a,
    connectedTeams s !! sock = Some teamId ∧
    auction s = Some a ∧ currentPlayer a = Some playerId ∧
    (bid_place now sock amt s).2 = bid_accepted now sock teamId playerId amt a s.
Proof.
  unfold bid_place.
  repeat (case_match; simpl in * ); intros; simplify_eq; eauto 10.
Qed.

(** Clearing a timer that is not set changes nothing, so [stopTimer] is
    the assignment [auctionTimer = null]. *)
Lemma stopTimer_eq s : stopTimer s = set_auctionTimer false s.
Proof. unfold stopTimer. by destruct s as [? ? ? ? []]. Qed.

Lemma stopTimer_idemp s : stopTimer (stopTimer s) = stopTimer s.
Proof. by rewrite !stopTimer_eq. Qed.

Lemma startAuctionForPlayer_auction TD Anew now playerId s p :
  Players s !! playerId = Some p → status p ≠ SOLD →
  let s' := startAuctionForPlayer TD Anew now playerId s in
  Players s' = <[playerId := player_with_status IN_AUCTION p]> (Players s) ∧
  Teams s' = Teams s ∧
  connectedTeams s' = connectedTeams s ∧
  auctionTimer s' = true ∧
  ∃ a, auction s' = Some a ∧ currentPlayer a = Some playerId ∧
       currentHighBid a = mkHighBid (basePrice p) None ∧
       isActive a = true ∧ isPaused a = false.
Proof.
  intros Hp Hst. unfold startAuctionForPlayer. rewrite Hp.
  rewrite decide_False by done. unfold startTimer. rewrite stopTimer_eq.
  simpl. split_and!; try done. eexists. split_and!; done.
Qed.

(** C1 (as the specification states it, refuted): with the six rules of the
    specification all passing - team 100 is authenticated, the auction is
    active and not paused, no bid was accepted yet and the amount 10 equals
    the base price, the budget 50 suffices - the handler still rejects the
    bid, because the current lot is not IN_AUCTION. *)
Lemma placeBid_six_rules_counterexample :
  spec_placeBid_checks lot_withdrawn_state 1 10 = None ∧
  (bid_place 0 1 10 lot_withdrawn_state).1 = Some PlayerNotInAuction.
Proof. split; vm_compute; reflexivity. Qed.

(** C1 (amended): the handler validates in the fixed order
    not-authenticated, auction-inactive-or-paused, lot-not-in-auction,
    below-minimum, not-higher-than-current, insufficient-budget,
    already-high-bidder, and replies with the first rule that fails; the
    bid is accepted iff all of them pass (and the team document exists).
    On an active lot in auction a tie with [currentHighBid.amount] is
    rejected when a bid was accepted before, and accepted when none was
    and the budget suffices; [startAuctionForPlayer] sets that amount to
    the base price, so the first bid of exactly the base price on a
    freshly started lot is accepted. *)
Theorem placeBid_validation_order (now : Z) (sock : nat) (amt : Z) (s : State) :
  (bid_place now sock amt s).1 = placeBid_checks s sock amt ∧
  (∀ a teamId tm lot,
     connectedTeams s !! sock = Some teamId →
     Teams s !! teamId = Some tm →
     auction s = Some a → isActive a = true → isPaused a = false →
     findPlayer s (currentPlayer a) = Some lot → status lot = IN_AUCTION →
     (team (currentHighBid a) ≠ None → amt = amount (currentHighBid a) →
      (bid_place now sock amt s).1 = Some (BidMustBeHigher amt)) ∧
     (team (currentHighBid a) = None → amt = amount (currentHighBid a) →
      amt ≤ remainingPoints tm →
      (bid_place now sock amt s).1 = None)) ∧
  (∀ TD Anew now0 s0 playerId p teamId tm,
     Players s0 !! playerId = Some p → status p ≠ SOLD →
     s = startAuctionForPlayer TD Anew now0 playerId s0 →
     connectedTeams s !! sock = Some teamId →
     Teams s !! teamId = Some tm →
     amt = basePrice p → amt ≤ remainingPoints tm →
     (bid_place now sock amt s).1 = None).
Proof.
  assert (Hgen : ∀ a teamId tm lot,
     connectedTeams s !! sock = Some teamId →
     Teams s !! teamId = Some tm →
     auction s = Some a → isActive a = true → isPaused a = false →
     findPlayer s (currentPlayer a) = Some lot → status lot = IN_AUCTION →
     (team (currentHighBid a) ≠ None → amt = amount (currentHighBid a) →
      (bid_place now sock amt s).1 = Some (BidMustBeHigher amt)) ∧
     (team (currentHighBid a) = None → amt = amount (currentHighBid a) →
      amt ≤ remainingPoints tm →
      (bid_place now sock amt s).1 = None)).
  { intros a teamId tm lot Hc Ht Ha Hact Hp Hlot Hst.
    rewrite bid_place_reply. unfold placeBid_checks.
    rewrite Hc, Ha, Ht, Hlot. simpl. rewrite Hst.
    rewrite decide_False by (rewrite Hact, Hp; intros [?|?]; done).
    rewrite decide_False by (intros H; by apply H).
    split.
    - intros Hteam ->.
      rewrite decide_False by tauto.
      rewrite decide_True by (split; [done | lia]). done.
    - intros Hteam -> Hle.
      rewrite decide_False by lia.
      rewrite decide_False by tauto.
      rewrite decide_False by lia.
      rewrite decide_False by congruence. done. }
  split; [apply bid_place_reply|]. split; [exact Hgen|].
  intros TD Anew now0 s0 playerId p teamId tm Hp Hst Hs Hc Ht Hamt Hle.
  destruct (startAuctionForPlayer_auction TD Anew now0 playerId s0 p Hp Hst)
    as (HP & _ & _ & _ & a & Ha & Hcur & Hhigh & Hact & Hpau).
  rewrite <- Hs in HP, Ha.
  eapply (Hgen a teamId tm (player_with_status IN_AUCTION p)); eauto.
  - rewrite Hcur. simpl. rewrite HP. apply lookup_insert_eq.
  - by rewrite Hhigh.
  - by rewrite Hhigh.
Qed.

(** C9: a rejected bid sends one [bid:error] to the bidding socket and
    changes nothing else: no bid record, no change of the auction state,
    of a team, of a lot, of the timer or of the auto-run variables. *)
Theorem placeBid_rejection_keeps_state (now : Z) (sock : nat) (amt : Z)
    (s : State) (e : BidError) :
  (bid_place now sock amt s).1 = Some e →
  let s' := (bid_place now sock amt s).2 in
  s' = emit (ToSocket sock) (bid_error e) s ∧
  Bids s' = Bids s ∧ auction s' = auction s ∧
  Teams s' = Teams s ∧ Players s' = Players s ∧
  timerValue s' = timerValue s ∧ auctionTimer s' = auctionTimer s ∧
  playerQueue s' = playerQueue s ∧ unsoldPlayers s' = unsoldPlayers s ∧
  isAutoAuction s' = isAutoAuction s ∧
  pendingAdvance s' = pendingAdvance s ∧
  emitted s' = emitted s ++ [(ToSocket sock, bid_error e)].
Proof.
  intros Hrej s'. subst s'.
  rewrite (bid_place_rejected _ _ _ _ _ Hrej). repeat split.
Qed.

(** C10: an authenticated bid on an active, unpaused auction is rejected
    with 'Player not in auction', whatever the amount, when the current
    lot document is not found or its status is not IN_AUCTION; the state
    is unchanged but for that reply. *)
Theorem placeBid_lot_not_in_auction (now : Z) (sock : nat) (amt : Z)
    (s : State) (teamId : nat) (a : AuctionState) :
  connectedTeams s !! sock = Some teamId →
  auction s = Some a → isActive a = true → isPaused a = false →
  status <$> findPlayer s (currentPlayer a) ≠ Some IN_AUCTION →
  bid_place now sock amt s =
    (Some PlayerNotInAuction,
     emit (ToSocket sock) (bid_error PlayerNotInAuction) s).
Proof.
  intros Hc Ha Hact Hp Hlot.
  assert (Hr : (bid_place now sock amt s).1 = Some PlayerNotInAuction).
  { rewrite bid_place_reply. unfold placeBid_checks. rewrite Hc, Ha.
    rewrite decide_False by (rewrite Hact, Hp; intros [?|?]; done).
    by rewrite decide_True. }
  pose proof (bid_place_rejected _ _ _ _ _ Hr) as Hs.
  destruct (bid_place now sock amt s) as [r s']. simpl in *. by subst.
Qed.

Lemma placeBid_validation_order_witness :
  (bid_place 2 1 10
     (startAuctionForPlayer None blank_auction 1 1 lobby_state)).1 = None.
Proof.
  refine (proj2 (proj2 (placeBid_validation_order 2 1 10 _))
            None blank_auction 1 lobby_state 1%nat
            (mkPlayer 10 AVAILABLE None None None) 100%nat
            (mkTeam 50 0 [] true None) _ _ _ _ _ _ _);
    vm_compute; congruence.
Defined.

Lemma placeBid_rejection_keeps_state_witness :
  Bids (bid_place 0 1 10 lot_withdrawn_state).2 = [] ∧
  timerValue (bid_place 0 1 10 lot_withdrawn_state).2 = 20.
Proof.
  pose proof (placeBid_rejection_keeps_state 0 1 10 lot_withdrawn_state
                PlayerNotInAuction eq_refl) as H.
  simpl in H. destruct H as (_ & HB & _ & _ & _ & HT & _).
  split; [exact HB | exact HT].
Defined.

Lemma placeBid_lot_not_in_auction_witness :
  bid_place 0 1 40 lot_withdrawn_state =
    (Some PlayerNotInAuction,
     emit (ToSocket 1) (bid_error PlayerNotInAuction) lot_withdrawn_state).
Proof.
  apply (placeBid_lot_not_in_auction 0 1 40 lot_withdrawn_state 100
           (mkAuctionState (Some 1%nat) (mkHighBid 10 None) true false
              None (Some 0) []));
    vm_compute; congruence.
Defined.

(** * Settlement *)

Lemma stopTimer_off s : auctionTimer s = false → stopTimer s = s.
Proof. unfold stopTimer. by intros ->. Qed.

(** Without a current lot document [handleAutoSold] only clears the
    timer. *)
Lemma handleAutoSold_skip now s :
  (∀ a, auction s = Some a → findPlayer s (currentPlayer a) = None) →
  handleAutoSold now s = stopTimer s.
Proof.
  intros Hgate. unfold handleAutoSold. rewrite stopTimer_eq. simpl.
  destruct (auction s) as [a|]; [|done].
  specialize (Hgate a eq_refl).
  destruct (currentPlayer a) as [pid|]; [|done].
  simpl in *. by rewrite Hgate.
Qed.

(** With a current lot document it settles: afterwards the timer is
    clear, the auction state is reset, and the lot is SOLD or UNSOLD. *)
Lemma handleAutoSold_settles now s a pid p :
  auction s = Some a → currentPlayer a = Some pid →
  Players s !! pid = Some p →
  let s' := handleAutoSold now s in
  auctionTimer s' = false ∧
  (∃ a', auction s' = Some a' ∧ currentPlayer a' = None ∧
         isActive a' = false ∧ currentHighBid a' = mkHighBid 5 None ∧
         isPaused a' = isPaused a) ∧
  isAutoAuction s' = isAutoAuction s ∧
  playerQueue s' = playerQueue s ∧
  connectedTeams s' = connectedTeams s ∧
  adminSockets s' = adminSockets s ∧
  Bids s' = Bids s ∧
  pendingAdvance s' =
    (if isAutoAuction s then S (pendingAdvance s) else pendingAdvance s).
Proof.
  intros Ha Hcur Hp. unfold handleAutoSold. rewrite stopTimer_eq. simpl.
  rewrite Ha, Hcur. simpl. rewrite Hp.
  destruct (team (currentHighBid a)) as [tid|]; simpl;
    [destruct (Teams s !! tid) as [tm|]|];
    destruct (isAutoAuction s) eqn:Hauto; simpl;
    try case_bool_decide; simpl; rewrite ?Hauto; simpl;
    split_and!; try done; eexists; split_and!; done.
Qed.

Lemma handleAutoSold_unsold now s a pid p :
  auction s = Some a → currentPlayer a = Some pid →
  Players s !! pid = Some p →
  findTeam s (team (currentHighBid a)) = None →
  let s' := handleAutoSold now s in
  Players s' = <[pid := player_with_status UNSOLD p]> (Players s) ∧
  Teams s' = Teams s ∧
  unsoldPlayers s' =
    (if isAutoAuction s
     then if decide (pid ∈ unsoldPlayers s)
          then unsoldPlayers s else unsoldPlayers s ++ [pid]
     else unsoldPlayers s).
Proof.
  intros Ha Hcur Hp Hteam. unfold handleAutoSold. rewrite stopTimer_eq.
  simpl. rewrite Ha, Hcur. simpl. rewrite Hp.
  unfold findTeam in Hteam.
  destruct (team (currentHighBid a)) as [tid|]; simpl in *;
    rewrite ?Hteam;
    destruct (isAutoAuction s) eqn:Hauto; simpl;
    try case_bool_decide; try case_decide; simpl; rewrite ?Hauto; simpl;
    split_and!; done.
Qed.

Lemma handleAutoSold_sold now s a pid p tid tm :
  auction s = Some a → currentPlayer a = Some pid →
  Players s !! pid = Some p →
  team (currentHighBid a) = Some tid → Teams s !! tid = Some tm →
  let s' := handleAutoSold now s in
  let price := amount (currentHighBid a) in
  Players s' = <[pid := player_sold_to tid price now p]> (Players s) ∧
  Teams s' =
    <[tid := mkTeam (remainingPoints tm - price) (rosterSlotsFilled tm + 1)
               (players tm ++ [pid]) (isOnline tm) (lastActive tm)]>
      (Teams s) ∧
  unsoldPlayers s' = unsoldPlayers s.
Proof.
  intros Ha Hcur Hp Hteam Htm. unfold handleAutoSold. rewrite stopTimer_eq.
  simpl. rewrite Ha, Hcur. simpl. rewrite Hp, Hteam. simpl. rewrite Htm.
  destruct (isAutoAuction s) eqn:Hauto; simpl; rewrite ?Hauto; simpl;
    split_and!; done.
Qed.

(** C5: a settlement (there is an auction state whose current lot
    document exists) always leaves [currentPlayer] null, [isActive] false
    and [currentHighBid] equal to [{amount: 5, team: null}], with the
    timer stopped; when no winning team is found the lot becomes UNSOLD
    and no team changes, and in auto-run its id is in the unsold list
    afterwards, appended only if it was not there; the unsold list never
    gains a duplicate, in either branch. *)
Theorem settlement_unsold_and_reset (now : Z) (s : State)
    (a : AuctionState) (pid : nat) (p : Player) :
  auction s = Some a → currentPlayer a = Some pid →
  Players s !! pid = Some p →
  let s' := handleAutoSold now s in
  (∃ a', auction s' = Some a' ∧ currentPlayer a' = None ∧
         isActive a' = false ∧ currentHighBid a' = mkHighBid 5 None) ∧
  auctionTimer s' = false ∧
  (NoDup (unsoldPlayers s) → NoDup (unsoldPlayers s')) ∧
  (findTeam s (team (currentHighBid a)) = None →
     Players s' !! pid = Some (player_with_status UNSOLD p) ∧
     (∀ id, id ≠ pid → Players s' !! id = Players s !! id) ∧
     Teams s' = Teams s ∧
     (isAutoAuction s = true →
        pid ∈ unsoldPlayers s' ∧
        unsoldPlayers s' =
          (if decide (pid ∈ unsoldPlayers s)
           then unsoldPlayers s else unsoldPlayers s ++ [pid])) ∧
     (isAutoAuction s = false → unsoldPlayers s' = unsoldPlayers s)).
Proof.
  intros Ha Hcur Hp s'. subst s'.
  destruct (handleAutoSold_settles now s a pid p Ha Hcur Hp)
    as (Htimer & (a' & Ha' & Hc' & Hact' & Hhigh' & _) & _).
  split; [by eauto 10|]. split; [done|].
  destruct (findTeam s (team (currentHighBid a))) as [tm|] eqn:Hteam.
  - apply findTeam_Some in Hteam as (tid & Htid & Htm).
    destruct (handleAutoSold_sold now s a pid p tid tm Ha Hcur Hp Htid Htm)
      as (_ & _ & ->).
    split; [done|]. intros [=].
  - destruct (handleAutoSold_unsold now s a pid p Ha Hcur Hp Hteam)
      as (HP & HT & HU).
    split.
    { rewrite HU. destruct (isAutoAuction s); [|done].
      case_decide; [done|]. intros Hnd.
      apply NoDup_app. split_and!; [done| |apply NoDup_singleton].
      intros x Hx ->%list_elem_of_singleton. done. }
    intros _. rewrite HP, HT. split_and!.
    + apply lookup_insert_eq.
    + intros id Hne. by apply lookup_insert_ne.
    + done.
    + intros Hauto. rewrite Hauto in HU. rewrite HU. split; [|done].
      case_decide; [done|]. apply elem_of_app. right. by left.
    + intros Hauto. by rewrite Hauto in HU.
Qed.

Lemma settlement_unsold_and_reset_witness :
  status <$> Players (handleAutoSold 5 no_bid_state) !! 1%nat = Some UNSOLD ∧
  unsoldPlayers (handleAutoSold 5 no_bid_state) = [1%nat] ∧
  unsoldPlayers (handleAutoSold 6 (set_auction (auction no_bid_state)
                                     (handleAutoSold 5 no_bid_state)))
    = [1%nat].
Proof.
  pose proof (settlement_unsold_and_reset 5 no_bid_state
                (mkAuctionState (Some 1%nat) (mkHighBid 10 None) true false
                   None (Some 0) [])
                1%nat (mkPlayer 10 IN_AUCTION None None None)
                eq_refl eq_refl eq_refl) as H.
  simpl in H. destruct H as (_ & _ & _ & H).
  destruct (H eq_refl) as (HP & _ & _ & HU & _).
  split; [by rewrite HP|]. split; [by destruct (HU eq_refl) as [_ ->]|].
  vm_compute. reflexivity.
Defined.

(** * Undo *)

Lemma filter_Forall_id {A} (P : A → Prop) `{!∀ x, Decision (P x)} (l : list A) :
  Forall P l → filter P l = l.
Proof.
  induction 1 as [|x l Hx _ IH]; [done|].
  by rewrite filter_cons_True, IH.
Qed.

Lemma admin_undoSale_not_sold sock pid s :
  sock ∈ adminSockets s →
  status <$> Players s !! pid ≠ Some SOLD →
  admin_undoSale sock pid s = emit (ToSocket sock) (error CannotUndoSale) s.
Proof.
  intros Hadm Hst. unfold admin_undoSale.
  rewrite decide_False by (intros H; by apply H).
  destruct (Players s !! pid) as [p|]; [|done].
  simpl in Hst. rewrite decide_True by congruence. done.
Qed.

Lemma admin_undoSale_sold sock pid s p tid tm :
  sock ∈ adminSockets s →
  Players s !! pid = Some p → status p = SOLD →
  soldTo p = Some tid → Teams s !! tid = Some tm →
  let s' := admin_undoSale sock pid s in
  Teams s' =
    <[tid := mkTeam (remainingPoints tm + default 0 (soldPrice p))
               (rosterSlotsFilled tm - 1)
               (filter (λ q, q ≠ pid) (players tm))
               (isOnline tm) (lastActive tm)]> (Teams s) ∧
  Players s' = <[pid := player_reset p]> (Players s) ∧
  Bids s' = filter (λ b, bid_player b ≠ pid) (Bids s) ∧
  auction s' = auction s ∧
  emitted s' = emitted s ++ [(ToAll, sale_undone pid (Some tid))].
Proof.
  intros Hadm Hp Hst Hto Htm. unfold admin_undoSale.
  rewrite decide_False by (intros H; by apply H).
  rewrite Hp. rewrite decide_False by (intros H; by apply H).
  rewrite Hto. simpl. rewrite Htm. simpl. done.
Qed.

#[local] Set Warnings "-inexact-float".

(** C7 (as the specification states it, refuted): the credit of the undo
    does not restore the pre-sale value in general.  Points and prices
    are doubles and nothing makes an amount an integer.  A team with 110
    points that bought a lot for 5.2 has 104.8; a first bid of 16.1 on a
    lot of base price 16.1 passes the amount checks; the settlement
    leaves [104.8 - 16.1] and the undo adds 16.1 to that, which is
    104.79999999999998 and not 104.8. *)
Lemma undoSale_restores_counterexample :
  let before := sold_remainingPoints 110%float 5.2%float in
  let sold := sold_remainingPoints before 16.1%float in
  let undone := undone_remainingPoints sold 16.1%float in
  amount_passes true 16.1%float 16.1%float before = true ∧
  PrimFloat.eqb before 104.8%float = true ∧
  PrimFloat.eqb undone 104.79999999999998%float = true ∧
  undone ≠ before.
Proof.
  cbv zeta. split_and!; [vm_compute; reflexivity..|].
  intros H.
  apply (f_equal (λ x, PrimFloat.eqb x
                         (sold_remainingPoints 110%float 5.2%float))) in H.
  vm_compute in H. discriminate.
Qed.

(** C7 (amended): for an admin socket, [undoSale] answers 'Cannot undo
    this sale' and changes nothing unless the lot exists with status
    SOLD; on a SOLD lot whose winner exists it adds [soldPrice] to the
    winner's points, decrements the roster count by one, removes the lot
    from the roster, deletes every bid of the lot and no other, and
    resets the lot to UNSOLD with null [soldTo], [soldPrice] and
    [soldAt].  When the points and the price are integers in the safe
    range, and so is the result, the credit is exact, and after a SOLD
    settlement the undo is a left inverse on the winner: points and
    roster count are back at their values before the sale, and so is the
    whole team document when the lot was not on the roster before. *)
Theorem undoSale_reverts_sale (sock pid : nat) (s : State) :
  sock ∈ adminSockets s →
  (status <$> Players s !! pid ≠ Some SOLD →
   admin_undoSale sock pid s = emit (ToSocket sock) (error CannotUndoSale) s) ∧
  (∀ p tid tm price,
     Players s !! pid = Some p → status p = SOLD →
     soldTo p = Some tid → soldPrice p = Some price →
     Teams s !! tid = Some tm →
     safe_integer (remainingPoints tm) → safe_integer price →
     safe_integer (remainingPoints tm + price) →
     let s' := admin_undoSale sock pid s in
     (∃ tm', Teams s' !! tid = Some tm' ∧
             remainingPoints tm' = remainingPoints tm + price ∧
             rosterSlotsFilled tm' = rosterSlotsFilled tm - 1 ∧
             (pid ∉ players tm') ∧
             (∀ q, q ≠ pid → (q ∈ players tm' ↔ q ∈ players tm))) ∧
     (∀ id, id ≠ tid → Teams s' !! id = Teams s !! id) ∧
     Players s' !! pid = Some (mkPlayer (basePrice p) UNSOLD None None None) ∧
     (∀ id, id ≠ pid → Players s' !! id = Players s !! id) ∧
     (∀ b, b ∈ Bids s' ↔ b ∈ Bids s ∧ bid_player b ≠ pid)) ∧
  (∀ now a p tid tm,
     auction s = Some a → currentPlayer a = Some pid →
     Players s !! pid = Some p →
     team (currentHighBid a) = Some tid → Teams s !! tid = Some tm →
     safe_integer (remainingPoints tm) →
     safe_integer (amount (currentHighBid a)) →
     safe_integer (remainingPoints tm - amount (currentHighBid a)) →
     let s1 := handleAutoSold now s in
     let s2 := admin_undoSale sock pid s1 in
     (status <$> Players s1 !! pid = Some SOLD ∧
      remainingPoints <$> Teams s1 !! tid
        = Some (remainingPoints tm - amount (currentHighBid a))) ∧
     remainingPoints <$> Teams s2 !! tid = Some (remainingPoints tm) ∧
     rosterSlotsFilled <$> Teams s2 !! tid = Some (rosterSlotsFilled tm) ∧
     (pid ∉ players tm → Teams s2 = Teams s) ∧
     Players s2 !! pid = Some (mkPlayer (basePrice p) UNSOLD None None None) ∧
     (∀ b, b ∈ Bids s2 → bid_player b ≠ pid)).
Proof.
  intros Hadm. split_and!.
  - by apply admin_undoSale_not_sold.
  - intros p tid tm price Hp Hst Hto Hprice Htm _ _ _ s'. subst s'.
    destruct (admin_undoSale_sold sock pid s p tid tm Hadm Hp Hst Hto Htm)
      as (HT & HP & HB & _).
    rewrite HT, HP, HB, Hprice. simpl. split_and!.
    + eexists. split; [apply lookup_insert_eq|]. simpl. split_and!; try done.
      * intros [Hne _]%list_elem_of_filter. done.
      * intros q Hq. rewrite list_elem_of_filter. tauto.
    + intros id Hne. by apply lookup_insert_ne.
    + apply lookup_insert_eq.
    + intros id Hne. by apply lookup_insert_ne.
    + intros b. rewrite list_elem_of_filter. tauto.
  - intros now a p tid tm Ha Hcur Hp Hteam Htm _ _ _ s1 s2. subst s1 s2.
    destruct (handleAutoSold_sold now s a pid p tid tm Ha Hcur Hp Hteam Htm)
      as (HP1 & HT1 & _).
    destruct (handleAutoSold_settles now s a pid p Ha Hcur Hp)
      as (_ & _ & _ & _ & _ & Hadm1 & _).
    set (s1 := handleAutoSold now s) in *.
    assert (Hp1 : Players s1 !! pid
              = Some (player_sold_to tid (amount (currentHighBid a)) now p))
      by (rewrite HP1; apply lookup_insert_eq).
    assert (Htm1 : Teams s1 !! tid
              = Some (mkTeam (remainingPoints tm - amount (currentHighBid a))
                        (rosterSlotsFilled tm + 1) (players tm ++ [pid])
                        (isOnline tm) (lastActive tm)))
      by (rewrite HT1; apply lookup_insert_eq).
    assert (Hadm' : sock ∈ adminSockets s1) by (by rewrite Hadm1).
    destruct (admin_undoSale_sold sock pid s1 _ tid _ Hadm' Hp1 eq_refl
                eq_refl Htm1) as (HT2 & HP2 & HB2 & _).
    rewrite HT2, HP2, HB2, Hp1, Htm1. simpl.
    rewrite !lookup_insert_eq. simpl. split_and!.
    + done.
    + done.
    + f_equal. lia.
    + f_equal. lia.
    + intros Hnotin. rewrite HT1, insert_insert_eq.
      apply insert_id. rewrite Htm. f_equal. destruct tm as [rp rs pl on la].
      simpl in *. f_equal; [lia | lia |].
      rewrite filter_app, filter_Forall_id.
      * rewrite filter_cons_False, filter_nil by (intros H; by apply H).
        symmetry. apply app_nil_r.
      * apply Forall_forall. intros q Hq ->. done.
    + done.
    + intros b [Hne _]%list_elem_of_filter. done.
Qed.

Lemma undoSale_reverts_sale_witness :
  remainingPoints <$>
    Teams (admin_undoSale 9 1 (handleAutoSold 4 high_bid_state)) !! 100%nat
    = Some 50 ∧
  admin_undoSale 9 1 high_bid_state
    = emit (ToSocket 9) (error CannotUndoSale) high_bid_state.
Proof.
  assert (Hadm : 9%nat ∈ adminSockets high_bid_state)
    by (vm_compute; reflexivity).
  destruct (undoSale_reverts_sale 9 1 high_bid_state Hadm) as (H1 & _ & H3).
  split.
  - refine (proj1 (proj2 (H3 4 _ (mkPlayer 10 IN_AUCTION None None None)
                            100%nat (mkTeam 50 1 [7%nat] true None)
                            eq_refl eq_refl eq_refl eq_refl eq_refl
                            _ _ _))); by split.
  - apply H1. vm_compute. congruence.
Defined.

(** * The presentation lock *)

(** The manual start honours the lock: while the summary is showing, the
    admin gets the 'Please wait' error and nothing else happens. *)
Lemma admin_startAuction_locked TD Anew now sock playerId s :
  sock ∈ adminSockets s → isTeamSummaryShowing s = true →
  admin_startAuction TD Anew now sock playerId s
    = emit (ToSocket sock) (error WaitForTeamSummary) s.
Proof.
  intros Hadm Hlock. unfold admin_startAuction.
  rewrite decide_False by (intros H; by apply H). by rewrite Hlock.
Qed.

(** C3 (the code at the failing input): while the team summary is showing,
    the manual start of lot 3 is refused with the 'Please wait' error, but
    [admin:startAutoAuction] builds the queue and starts lot 3 at once:
    the lot is IN_AUCTION, the auction state is active, the timer runs,
    and no error is sent.  The start taken from the queue by the timeout
    callback does not look at the lock either. *)
Theorem autoRun_start_ignores_presentation_lock :
  let s := summary_showing_state in
  let s' := admin_startAutoAuction None blank_auction 1 (λ k, k) 9 s in
  let t := advanceTimeout None blank_auction 5
             (set_pendingAdvance 1
                (set_playerQueue [2%nat] summary_showing_state)) in
  isTeamSummaryShowing s = true ∧
  admin_startAuction None blank_auction 1 9 3 s
    = emit (ToSocket 9) (error WaitForTeamSummary) s ∧
  isTeamSummaryShowing s' = true ∧
  auctionTimer s' = true ∧
  auction s' = Some (mkAuctionState (Some 3%nat) (mkHighBid 30 None) true
                       false None (Some 1) []) ∧
  status <$> Players s' !! 3%nat = Some IN_AUCTION ∧
  emitted s' = [(ToAdmin, teamSummary_showing true);
                (ToAdmin, autoAuction_started 3);
                (ToAdmin, autoAuction_queueUpdate 2 0);
                (ToAll, timer_update 20);
                (ToAll, auction_started 3 30 20)] ∧
  isTeamSummaryShowing t = true ∧ auctionTimer t = true ∧
  status <$> Players t !! 2%nat = Some IN_AUCTION.
Proof. split_and!; vm_compute; reflexivity. Qed.

(** * Stopping the auto-run *)

Lemma admin_stopAutoAuction_pending sock s :
  pendingAdvance (admin_stopAutoAuction sock s) = pendingAdvance s.
Proof.
  unfold admin_stopAutoAuction. case_decide; [done|].
  rewrite stopTimer_eq. done.
Qed.

(** C4 (the code at the failing input): [admin:stopAutoAuction] never
    cancels a scheduled timeout.  In the run where lot 3 goes unsold in
    auto-run, the admin then stops the auto-run, and the timeout of that
    settlement fires afterwards: the flag is clear and one timeout is
    still pending after the stop, and when it fires lot 1, the next of the
    queue, is put in auction with the countdown running although
    [isAutoAuction] is false. *)
Theorem stopAutoRun_leaves_timeout_pending :
  (∀ sock s, pendingAdvance (admin_stopAutoAuction sock s) = pendingAdvance s) ∧
  let before := run None blank_auction first_lot_unsold_inputs lobby_state in
  let stopped := admin_stopAutoAuction 9 before in
  let after := run None blank_auction stop_then_timeout_inputs lobby_state in
  (isAutoAuction before = true ∧ pendingAdvance before = 1%nat ∧
   playerQueue before = [1%nat; 2%nat]) ∧
  (isAutoAuction stopped = false ∧ pendingAdvance stopped = 1%nat ∧
   auctionTimer stopped = false) ∧
  after = advanceTimeout None blank_auction 4 stopped ∧
  isAutoAuction after = false ∧
  auctionTimer after = true ∧
  auction after = Some (mkAuctionState (Some 1%nat) (mkHighBid 10 None) true
                          false None (Some 4) []) ∧
  status <$> Players after !! 1%nat = Some IN_AUCTION ∧
  playerQueue after = [2%nat].
Proof.
  split; [apply admin_stopAutoAuction_pending|].
  split_and!; vm_compute; reflexivity.
Qed.

(** * Building the auto-run queue *)

#[global] Instance descending_trans : Transitive descending.
Proof. unfold descending. intros x y z ? ?. lia. Qed.

#[global] Instance descending_total : Total descending.
Proof. unfold descending. intros x y. lia. Qed.

Section shuffle.
Context {A : Type}.
Implicit Types a : list A.

Lemma swap_Permutation i j a : swap i j a ≡ₚ a.
Proof.
  unfold swap.
  destruct (a !! i) as [x|] eqn:Hi; [|done].
  destruct (a !! j) as [y|] eqn:Hj; [|done].
  by apply Permutation_insert_swap.
Qed.

Lemma shuffleLoop_Permutation rnd k i a : shuffleLoop rnd k i a ≡ₚ a.
Proof.
  revert k a. induction i as [|i IH]; intros k a; simpl; [done|].
  rewrite IH. apply swap_Permutation.
Qed.

Lemma shuffle_Permutation rnd k a : shuffle rnd k a ≡ₚ a.
Proof. apply shuffleLoop_Permutation. Qed.
End shuffle.

(** The groups of [playersByPrice] are the lots of each price. *)
Lemma playersByPrice_lookup l price :
  foldl addToGroup ∅ l !! price =
    match group_of price l with [] => None | g => Some g end.
Proof.
  induction l as [|x l IH] using rev_ind; [done|].
  rewrite foldl_snoc. unfold addToGroup at 1. unfold group_of in *.
  rewrite filter_app.
  destruct (decide (basePrice x.2 = price)) as [Heq|Hne].
  - rewrite Heq, lookup_insert_eq, IH, filter_cons_True, filter_nil by done.
    by destruct (filter _ l).
  - rewrite lookup_insert_ne, IH, filter_cons_False, filter_nil by done.
    by rewrite app_nil_r.
Qed.

Lemma playersByPrice_default l price :
  default [] (foldl addToGroup ∅ l !! price) = group_of price l.
Proof. rewrite playersByPrice_lookup. by destruct (group_of price l). Qed.

Lemma playersByPrice_keys l x :
  x ∈ l → basePrice x.2 ∈ (map_to_list (foldl addToGroup ∅ l)).*1.
Proof.
  intros Hx.
  assert (Hin : x ∈ group_of (basePrice x.2) l)
    by (by apply list_elem_of_filter).
  destruct (group_of (basePrice x.2) l) as [|y g] eqn:Hg.
  { by apply elem_of_nil in Hin. }
  apply list_elem_of_fmap. exists (basePrice x.2, y :: g). split; [done|].
  apply elem_of_map_to_list. by rewrite playersByPrice_lookup, Hg.
Qed.

(** Concatenating the groups of a duplicate-free list of prices that
    covers every lot gives each lot once. *)
Lemma concat_groups_Permutation prices l :
  NoDup prices →
  (∀ x, x ∈ l → basePrice x.2 ∈ prices) →
  concat ((λ price, group_of price l) <$> prices) ≡ₚ l.
Proof.
  revert l. induction prices as [|price prices IH]; intros l Hnd Hcover.
  - destruct l as [|x l]; [done|].
    specialize (Hcover x (list_elem_of_here _ _)). by apply elem_of_nil in Hcover.
  - apply NoDup_cons in Hnd as [Hnotin Hnd]. csimpl.
    set (rest := filter (λ x, ¬ basePrice x.2 = price) l).
    assert (Hext : (λ price', group_of price' l) <$> prices
                   = (λ price', group_of price' rest) <$> prices).
    { apply list_fmap_ext. intros i price' Hi.
      apply list_elem_of_lookup_2 in Hi.
      unfold group_of, rest. rewrite list_filter_filter.
      apply list_filter_iff. intros x. split; [|tauto].
      intros Hx. split; [done|]. intros Heq. congruence. }
    rewrite Hext, (IH rest Hnd).
    + apply filter_app_complement.
    + intros x [Hne Hx]%list_elem_of_filter.
      specialize (Hcover x Hx). apply elem_of_cons in Hcover as [?|?]; done.
Qed.

Lemma pushGroup_foldl_Permutation rnd m prices acc k :
  (foldl (pushGroup rnd m) (acc, k) prices).1
    ≡ₚ acc ++ concat ((λ price, default [] (m !! price)) <$> prices).
Proof.
  revert acc k. induction prices as [|price prices IH]; intros acc k; csimpl.
  - by rewrite app_nil_r.
  - unfold pushGroup at 2. simpl. rewrite IH.
    by rewrite shuffle_Permutation, (assoc_L (++)).
Qed.

#[global] Instance price_desc_refl : Reflexive price_desc.
Proof. unfold price_desc. intros x. lia. Qed.

Lemma StronglySorted_same_price price (g : list (nat * Player)) :
  (∀ x, x ∈ g → basePrice x.2 = price) → StronglySorted price_desc g.
Proof.
  induction g as [|x g IH]; intros Hg; constructor.
  - apply IH. intros y Hy. apply Hg. by right.
  - apply Forall_forall. intros y Hy. unfold price_desc.
    rewrite (Hg x), (Hg y); [lia | by right | by left].
Qed.

Lemma StronglySorted_lookup_le {A} (R : relation A) `{!Reflexive R} l i j x y :
  StronglySorted R l → (i ≤ j)%nat →
  l !! i = Some x → l !! j = Some y → R x y.
Proof.
  intros Hsorted. revert i j.
  induction Hsorted as [|z l _ IH Hall]; intros i j Hij Hi Hj; [done|].
  destruct i as [|i], j as [|j]; simpl in *; simplify_eq.
  - done.
  - by eapply Forall_lookup_1 in Hall.
  - lia.
  - apply (IH i j); [lia|done..].
Qed.

(** Pushing the shuffled groups of a descending list of prices keeps the
    result in non-increasing price order. *)
Lemma pushGroup_foldl_sorted rnd m prices acc k :
  (∀ price x, x ∈ default [] (m !! price) → basePrice x.2 = price) →
  StronglySorted descending prices →
  StronglySorted price_desc acc →
  (∀ x price, x ∈ acc → price ∈ prices → price ≤ basePrice x.2) →
  StronglySorted price_desc (foldl (pushGroup rnd m) (acc, k) prices).1.
Proof.
  intros Hm. revert acc k.
  induction prices as [|price prices IH]; intros acc k Hprices Hacc Hge;
    simpl; [done|].
  apply StronglySorted_cons in Hprices as [Hhead Hprices].
  unfold pushGroup at 2. simpl. apply IH; [done| |].
  - apply StronglySorted_app_2.
    + intros x y Hx Hy. rewrite shuffle_Permutation in Hy.
      unfold price_desc. rewrite (Hm price y Hy). apply Hge; [done|by left].
    + done.
    + apply (StronglySorted_same_price price). intros x Hx.
      rewrite shuffle_Permutation in Hx. by apply Hm.
  - intros x price' [Hx|Hx]%elem_of_app Hp.
    + apply Hge; [done|by right].
    + rewrite shuffle_Permutation in Hx. rewrite (Hm price x Hx).
      rewrite Forall_forall in Hhead. by apply Hhead.
Qed.

(** The order in which [buildQueue] lines the lots up. *)
Lemma buildQueue_order rnd (lots : list (nat * Player)) :
  ∃ order, buildQueue rnd lots = order.*1 ∧ order ≡ₚ lots ∧
           StronglySorted price_desc order.
Proof.
  unfold buildQueue.
  set (m := foldl addToGroup ∅ lots).
  set (prices := merge_sort descending (map_to_list m).*1).
  eexists. split; [done|]. split.
  - rewrite pushGroup_foldl_Permutation. simpl.
    erewrite list_fmap_ext; [|intros i price _; apply playersByPrice_default].
    apply concat_groups_Permutation.
    + unfold prices. rewrite merge_sort_Permutation.
      apply NoDup_fst_map_to_list.
    + intros x Hx. unfold prices. rewrite merge_sort_Permutation.
      by apply playersByPrice_keys.
  - apply pushGroup_foldl_sorted.
    + intros price x. unfold m. rewrite playersByPrice_default.
      by intros [? _]%list_elem_of_filter.
    + apply StronglySorted_merge_sort; apply _.
    + constructor.
    + intros x price Hx. by apply elem_of_nil in Hx.
Qed.

Lemma findAvailablePlayers_spec s id p :
  (id, p) ∈ findAvailablePlayers s ↔ Players s !! id = Some p ∧ status p ≠ SOLD.
Proof.
  unfold findAvailablePlayers.
  rewrite list_elem_of_filter, elem_of_map_to_list. simpl. tauto.
Qed.

Lemma findAvailablePlayers_NoDup s : NoDup (findAvailablePlayers s).*1.
Proof.
  assert (Hsub : (findAvailablePlayers s).*1
                   `sublist_of` (map_to_list (Players s)).*1)
    by (unfold findAvailablePlayers; apply fmap_sublist, sublist_filter).
  eapply sublist_NoDup in Hsub; [done|]. apply NoDup_fst_map_to_list.
Qed.

(** C6: the queue built from the lots that are not SOLD is a permutation
    of their ids - same length, each id once, an id is in the queue iff
    its lot exists and is not SOLD - and base prices never increase along
    the queue: a lot at an earlier position has a base price at least
    that of any lot at a later position, whatever the random numbers
    drawn by the shuffle. *)
Theorem buildQueue_sorted_permutation (rnd : nat → nat) (s : State) :
  let lots := findAvailablePlayers s in
  let queue := buildQueue rnd lots in
  queue ≡ₚ lots.*1 ∧
  length queue = length lots ∧
  NoDup queue ∧
  (∀ id, id ∈ queue ↔ ∃ p, Players s !! id = Some p ∧ status p ≠ SOLD) ∧
  (∀ i j a b, (i ≤ j)%nat → queue !! i = Some a → queue !! j = Some b →
     ∃ pa pb, Players s !! a = Some pa ∧ Players s !! b = Some pb ∧
              basePrice pb ≤ basePrice pa).
Proof.
  intros lots queue.
  destruct (buildQueue_order rnd lots) as (order & Hq & Hperm & Hsorted).
  fold queue in Hq.
  assert (Hqperm : queue ≡ₚ lots.*1) by (by rewrite Hq, Hperm).
  split_and!.
  - done.
  - by rewrite Hqperm, length_fmap.
  - rewrite Hqperm. apply findAvailablePlayers_NoDup.
  - intros id. rewrite Hqperm, list_elem_of_fmap. split.
    + intros ([id' p] & -> & Hin). exists p.
      by apply findAvailablePlayers_spec.
    + intros (p & Hin). exists (id, p). split; [done|].
      by apply findAvailablePlayers_spec.
  - intros i j a b Hij Hi Hj. rewrite Hq in Hi, Hj.
    apply list_lookup_fmap_Some in Hi as ([a' pa] & -> & Hi).
    apply list_lookup_fmap_Some in Hj as ([b' pb] & -> & Hj).
    exists pa, pb. simpl.
    assert (Ha : (a', pa) ∈ lots)
      by (rewrite <- Hperm; by eapply list_elem_of_lookup_2).
    assert (Hb : (b', pb) ∈ lots)
      by (rewrite <- Hperm; by eapply list_elem_of_lookup_2).
    apply findAvailablePlayers_spec in Ha as [Ha _].
    apply findAvailablePlayers_spec in Hb as [Hb _].
    split_and!; [done..|].
    apply (StronglySorted_lookup_le price_desc order i j (a', pa) (b', pb));
      done.
Qed.

Lemma buildQueue_sorted_permutation_witness :
  buildQueue (λ k, k) (findAvailablePlayers lobby_state)
    = [3%nat; 1%nat; 2%nat] ∧
  ∃ pa pb, Players lobby_state !! 3%nat = Some pa ∧
           Players lobby_state !! 2%nat = Some pb ∧
           basePrice pb ≤ basePrice pa.
Proof.
  split; [vm_compute; reflexivity|].
  refine (proj2 (proj2 (proj2 (proj2
            (buildQueue_sorted_permutation (λ k, k) lobby_state))))
            0%nat 2%nat 3%nat 2%nat _ _ _);
    [lia | vm_compute; reflexivity..].
Defined.

(** * Budgets *)

Lemma wf_parts_insert_player P T a pid p p' :
  P !! pid = Some p → basePrice p' = basePrice p →
  0 ≤ default 0 (soldPrice p') →
  wf_parts P T a → wf_parts (<[pid := p']> P) T a.
Proof.
  intros Hp Hbase Hsold (HT & HP & Ha). split_and!; [done| |done].
  intros id q. rewrite lookup_insert. case_decide; [|by apply HP].
  intros [= <-]. rewrite Hbase. split; [|done]. by apply (HP pid p).
Qed.

Lemma wf_parts_insert_team P T a tid t t' :
  T !! tid = Some t → remainingPoints t ≤ remainingPoints t' →
  wf_parts P T a → wf_parts P (<[tid := t']> T) a.
Proof.
  intros Ht Hle (HT & HP & Ha). split_and!; [|done|].
  - intros id u. rewrite lookup_insert. case_decide; [|by apply HT].
    intros [= <-]. specialize (HT tid t Ht). lia.
  - intros st Hst. destruct (Ha st Hst) as [H0 Hcov]. split; [done|].
    intros id u Hid. rewrite lookup_insert. case_decide; [|by apply Hcov].
    intros [= <-]. subst id. specialize (Hcov tid t Hid Ht). lia.
Qed.

Lemma wf_parts_auction P T a st :
  0 ≤ amount (currentHighBid st) →
  (∀ tid t, team (currentHighBid st) = Some tid → T !! tid = Some t →
            amount (currentHighBid st) ≤ remainingPoints t) →
  wf_parts P T a → wf_parts P T (Some st).
Proof.
  intros H0 Hcov (HT & HP & _). split_and!; [done..|].
  intros ? [= <-]. done.
Qed.

Lemma wf_parts_same_bid P T st st' :
  currentHighBid st' = currentHighBid st →
  wf_parts P T (Some st) → wf_parts P T (Some st').
Proof.
  intros Heq Hwf. destruct (Hwf) as (_ & _ & Ha).
  destruct (Ha st eq_refl) as [H0 Hcov].
  apply (wf_parts_auction P T (Some st)); rewrite ?Heq; done.
Qed.

(** The winner pays the high bid and the high bid is reset. *)
Lemma wf_parts_debit P T st st' tid t t' :
  team (currentHighBid st) = Some tid → T !! tid = Some t →
  remainingPoints t' = remainingPoints t - amount (currentHighBid st) →
  currentHighBid st' = mkHighBid 5 None →
  wf_parts P T (Some st) → wf_parts P (<[tid := t']> T) (Some st').
Proof.
  intros Hteam Ht Hrp Hreset (HT & HP & Ha).
  destruct (Ha st eq_refl) as [H0 Hcov]. specialize (Hcov tid t Hteam Ht).
  split_and!; [|done|].
  - intros id u. rewrite lookup_insert. case_decide; [|by apply HT].
    intros [= <-]. lia.
  - intros ? [= <-]. rewrite Hreset. simpl. split; [lia|done].
Qed.

Lemma wf_parts_alter_team P T a f tid :
  (∀ t, remainingPoints (f t) = remainingPoints t) →
  wf_parts P T a → wf_parts P (alter f tid T) a.
Proof.
  intros Hf (HT & HP & Ha).
  assert (Hlook : ∀ id u, alter f tid T !! id = Some u →
            ∃ t, T !! id = Some t ∧ remainingPoints u = remainingPoints t).
  { intros id u. rewrite lookup_alter. case_decide; [|by eauto].
    subst id. destruct (T !! tid) as [t|]; simpl; [|done].
    intros [= <-]. eauto. }
  split_and!; [|done|].
  - intros id u (t & Ht & ->)%Hlook. by apply (HT id).
  - intros st Hst. destruct (Ha st Hst) as [H0 Hcov]. split; [done|].
    intros id u Hid (t & Ht & ->)%Hlook. by apply (Hcov id).
Qed.

(** Each handler keeps the data well formed. *)

Lemma wf_stopTimer s : well_formed s → well_formed (stopTimer s).
Proof. by rewrite stopTimer_eq. Qed.

Lemma wf_startAuctionForPlayer TD Anew now playerId s :
  well_formed s → well_formed (startAuctionForPlayer TD Anew now playerId s).
Proof.
  intros Hwf. unfold startAuctionForPlayer.
  destruct (Players s !! playerId) as [p|] eqn:Hp; [|done].
  case_decide; [done|].
  unfold startTimer. rewrite stopTimer_eq. unfold well_formed. simpl.
  destruct Hwf as (HT & HP & Ha).
  apply (wf_parts_auction _ _ (auction s)); simpl.
  - by apply (HP playerId p).
  - done.
  - apply (wf_parts_insert_player _ _ _ playerId p); [done|done| |done].
    by apply (HP playerId p).
Qed.

Lemma wf_advanceQueue TD Anew now queue s :
  well_formed s → well_formed (advanceQueue TD Anew now queue s).2.
Proof.
  revert s. induction queue as [|playerId rest IH]; intros s Hwf; simpl;
    [done|].
  destruct (Players s !! playerId) as [p|]; [|by apply IH].
  case_decide; [by apply IH|]. simpl.
  by apply wf_startAuctionForPlayer.
Qed.

Lemma wf_processNextPlayerInQueue TD Anew now s :
  well_formed s → well_formed (processNextPlayerInQueue TD Anew now s).
Proof.
  intros Hwf. unfold processNextPlayerInQueue.
  pose proof (wf_advanceQueue TD Anew now (playerQueue s) s Hwf) as H1.
  destruct (advanceQueue TD Anew now (playerQueue s) s) as [[] s1];
    simpl in H1; [done|].
  destruct (unsoldPlayers s1) as [|u us] eqn:Hu; [done|].
  match goal with
  | |- context [advanceQueue TD Anew now ?q ?s2] =>
      pose proof (wf_advanceQueue TD Anew now q s2 H1) as H2;
      destruct (advanceQueue TD Anew now q s2) as [[] s3]
  end; done.
Qed.

Lemma wf_handleAutoSold now s :
  well_formed s → well_formed (handleAutoSold now s).
Proof.
  intros Hwf.
  destruct (auction s) as [a|] eqn:Ha;
    [|rewrite handleAutoSold_skip by (intros; congruence);
      by apply wf_stopTimer].
  destruct (findPlayer s (currentPlayer a)) as [p|] eqn:Hp;
    [|rewrite handleAutoSold_skip by (intros; congruence);
      by apply wf_stopTimer].
  apply findPlayer_Some in Hp as (pid & Hcur & Hp).
  destruct (handleAutoSold_settles now s a pid p Ha Hcur Hp)
    as (_ & (a' & Ha' & _ & _ & Hhigh & _) & _).
  unfold well_formed in *. rewrite Ha in Hwf. rewrite Ha'.
  assert (H0 : 0 ≤ amount (currentHighBid a))
    by (destruct Hwf as (_ & _ & H); by destruct (H a eq_refl)).
  assert (HP : 0 ≤ basePrice p ∧ 0 ≤ default 0 (soldPrice p))
    by (destruct Hwf as (_ & H & _); by apply (H pid)).
  destruct (findTeam s (team (currentHighBid a))) as [tm|] eqn:Hteam.
  - apply findTeam_Some in Hteam as (tid & Htid & Htm).
    destruct (handleAutoSold_sold now s a pid p tid tm Ha Hcur Hp Htid Htm)
      as (-> & -> & _).
    apply (wf_parts_insert_player _ _ _ pid p); [done|done|done|].
    by apply (wf_parts_debit _ _ a a' tid tm).
  - destruct (handleAutoSold_unsold now s a pid p Ha Hcur Hp Hteam)
      as (-> & -> & _).
    apply (wf_parts_insert_player _ _ _ pid p); [done|done|tauto|].
    apply (wf_parts_auction _ _ (Some a)); rewrite ?Hhigh; simpl;
      [lia|done|done].
Qed.

Lemma wf_timerTick now s : well_formed s → well_formed (timerTick now s).
Proof.
  intros Hwf. unfold timerTick. destruct (auctionTimer s); [|done].
  case_decide; [|done]. by apply wf_handleAutoSold, wf_stopTimer.
Qed.

Lemma wf_advanceTimeout TD Anew now s :
  well_formed s → well_formed (advanceTimeout TD Anew now s).
Proof.
  intros Hwf. unfold advanceTimeout. destruct (pendingAdvance s); [done|].
  by apply wf_processNextPlayerInQueue.
Qed.

(** An accepted bid is within the budget of the bidder and not below the
    amount it replaces. *)
Lemma placeBid_checks_accept s sock amt :
  placeBid_checks s sock amt = None →
  ∃ teamId a tm,
    connectedTeams s !! sock = Some teamId ∧ auction s = Some a ∧
    Teams s !! teamId = Some tm ∧
    amt ≤ remainingPoints tm ∧ amount (currentHighBid a) ≤ amt.
Proof.
  unfold placeBid_checks.
  destruct (connectedTeams s !! sock) as [teamId|]; [|done].
  destruct (auction s) as [a|]; [|done].
  destruct (Teams s !! teamId) as [tm|] eqn:Htm;
    repeat case_decide; try done; intros _.
  exists teamId, a, tm. split_and!; try done; try lia.
  destruct (team (currentHighBid a)).
  - destruct (decide (amt ≤ amount (currentHighBid a))); [|lia].
    exfalso. naive_solver.
  - destruct (decide (amt < amount (currentHighBid a))); [|lia].
    exfalso. naive_solver.
Qed.

Lemma wf_bid_place now sock amt s :
  well_formed s → well_formed (bid_place now sock amt s).2.
Proof.
  intros Hwf.
  destruct (bid_place now sock amt s).1 as [e|] eqn:Hreply.
  - by rewrite (bid_place_rejected _ _ _ _ _ Hreply).
  - destruct (bid_place_accepted _ _ _ _ Hreply)
      as (teamId & playerId & a & Hc & Ha & _ & ->).
    rewrite bid_place_reply in Hreply.
    apply placeBid_checks_accept in Hreply
      as (teamId' & a' & tm & Hc' & Ha' & Htm & Hle & Hge).
    simplify_eq. unfold well_formed in *. simpl.
    apply (wf_parts_auction _ _ (auction s)); simpl; [|by intros; simplify_eq|done].
    destruct Hwf as (_ & _ & H). destruct (H a' Ha'). lia.
Qed.

Lemma wf_team_login now sock found ok s :
  well_formed s → well_formed (team_login now sock found ok s).
Proof.
  intros Hwf. unfold team_login.
  destruct found as [id|]; simpl; [|done].
  destruct (Teams s !! id) as [tm|] eqn:Htm; [|done].
  destruct ok; [|done]. unfold well_formed. simpl.
  by apply (wf_parts_insert_team _ _ _ id tm).
Qed.

Lemma wf_disconnect now sock s :
  well_formed s → well_formed (disconnect now sock s).
Proof.
  intros Hwf. unfold disconnect.
  destruct (connectedTeams s !! sock) as [teamId|]; [|done].
  unfold well_formed. simpl.
  by apply wf_parts_alter_team.
Qed.

Lemma wf_admin_startAuction TD Anew now sock playerId s :
  well_formed s → well_formed (admin_startAuction TD Anew now sock playerId s).
Proof.
  intros Hwf. unfold admin_startAuction.
  repeat case_match; try done. by apply wf_startAuctionForPlayer.
Qed.

Lemma wf_admin_pauseAuction sock s :
  well_formed s → well_formed (admin_pauseAuction sock s).
Proof.
  intros Hwf. unfold admin_pauseAuction. case_decide; [done|].
  destruct (auction s) as [a|] eqn:Ha; [|done].
  rewrite stopTimer_eq. unfold well_formed in *. simpl. rewrite Ha in Hwf.
  by apply (wf_parts_same_bid _ _ a).
Qed.

Lemma wf_admin_resumeAuction TD sock s :
  well_formed s → well_formed (admin_resumeAuction TD sock s).
Proof.
  intros Hwf. unfold admin_resumeAuction. case_decide; [done|].
  destruct (auction s) as [a|] eqn:Ha; [|done].
  destruct (isPaused a); [|done].
  unfold startTimer. rewrite stopTimer_eq.
  unfold well_formed in *. simpl. rewrite Ha in Hwf.
  by apply (wf_parts_same_bid _ _ a).
Qed.

(** [undoSale] credits: no budget goes down. *)
Lemma admin_undoSale_credits sock pid s :
  well_formed s →
  ∀ id t, Teams s !! id = Some t →
    ∃ t', Teams (admin_undoSale sock pid s) !! id = Some t' ∧
          remainingPoints t ≤ remainingPoints t'.
Proof.
  intros (_ & HP & _) id t Ht. unfold admin_undoSale.
  case_decide; [by eauto with lia|].
  destruct (Players s !! pid) as [p|] eqn:Hp; [|by eauto with lia].
  case_decide; [by eauto with lia|].
  destruct (HP pid p Hp) as [_ Hsold].
  destruct (soldTo p) as [tid|]; simpl; [|by eauto with lia].
  destruct (Teams s !! tid) as [tm|] eqn:Htm; simpl; [|by eauto with lia].
  rewrite lookup_insert. case_decide; [|by eauto with lia].
  subst id. simplify_eq. eexists. split; [done|]. simpl. lia.
Qed.

Lemma wf_admin_undoSale sock pid s :
  well_formed s → well_formed (admin_undoSale sock pid s).
Proof.
  intros Hwf. unfold admin_undoSale.
  case_decide; [done|].
  destruct (Players s !! pid) as [p|] eqn:Hp; [|done].
  case_decide; [done|].
  assert (Hsold : 0 ≤ default 0 (soldPrice p))
    by (destruct Hwf as (_ & HP & _); by apply (HP pid)).
  unfold well_formed. simpl.
  apply (wf_parts_insert_player _ _ _ pid p); [|done|done|].
  { by repeat case_match. }
  destruct (soldTo p) as [tid|]; simpl; [|done].
  destruct (Teams s !! tid) as [tm|] eqn:Htm; simpl; [|done].
  apply (wf_parts_insert_team _ _ _ tid tm); [done|simpl; lia|done].
Qed.

Lemma wf_admin_startAutoAuction TD Anew now rnd sock s :
  well_formed s →
  well_formed (admin_startAutoAuction TD Anew now rnd sock s).
Proof.
  intros Hwf. unfold admin_startAutoAuction. case_decide; [done|].
  destruct (findAvailablePlayers s); [done|].
  by apply wf_processNextPlayerInQueue.
Qed.

Lemma wf_step TD Anew now i s :
  well_formed s → well_formed (step TD Anew now i s).
Proof.
  intros Hwf. destruct i; simpl.
  - by apply wf_team_login.
  - unfold admin_login. by destruct passwordOk.
  - done.
  - done.
  - done.
  - by apply wf_bid_place.
  - by apply wf_admin_startAuction.
  - by apply wf_admin_pauseAuction.
  - by apply wf_admin_resumeAuction.
  - by apply wf_admin_undoSale.
  - by apply wf_admin_startAutoAuction.
  - unfold admin_stopAutoAuction. case_decide; [done|].
    by rewrite stopTimer_eq.
  - unfold admin_getAutoAuctionStatus. by case_decide.
  - by apply wf_disconnect.
  - by apply wf_timerTick.
  - by apply wf_advanceTimeout.
Qed.

Lemma wf_run TD Anew inputs s :
  well_formed s → well_formed (run TD Anew inputs s).
Proof.
  revert s. induction inputs as [|[now i] inputs IH]; intros s Hwf; [done|].
  simpl. apply IH. by apply wf_step.
Qed.

(** C8 (as the specification states it, refuted): a non-negative budget
    at the start is not enough.  Team 100 starts with 2 points.  It wins
    lot 1, whose base price is -5, with a bid of -5, and has 7 points; it
    wins lot 2 for 7 and has 0; the sale of lot 1 is undone, which adds
    the recorded price -5: the team has -5 points. *)
Lemma budget_negative_counterexample :
  Teams negative_price_state = {[ 100%nat := mkTeam 2 0 [] true None ]} ∧
  remainingPoints <$>
    Teams (run None blank_auction (take 12 negative_price_inputs)
             negative_price_state) !! 100%nat = Some 7 ∧
  remainingPoints <$>
    Teams (run None blank_auction (take 24 negative_price_inputs)
             negative_price_state) !! 100%nat = Some 0 ∧
  remainingPoints <$>
    Teams (run None blank_auction negative_price_inputs
             negative_price_state) !! 100%nat = Some (-5).
Proof. split_and!; vm_compute; reflexivity. Qed.

(** C8 (amended): from a state whose data is well formed - budgets, base
    prices and recorded sale prices not negative, the current high bid
    not negative and within its bidder's budget - every state the engine
    reaches is well formed again, so no team's remaining points are ever
    negative.
    On the way: a bid is accepted only for an amount within the bidder's
    current remaining points; a SOLD settlement debits the winner by
    exactly the high bid and no other team; [undoSale] lowers no
    budget. *)
Theorem budget_never_negative (TD : option Z) (Anew : AuctionState)
    (inputs : list (Z * Input)) (s0 : State) :
  well_formed s0 →
  (∀ id t, Teams (run TD Anew inputs s0) !! id = Some t →
           0 ≤ remainingPoints t) ∧
  well_formed (run TD Anew inputs s0) ∧
  (∀ now sock amt s,
     (bid_place now sock amt s).1 = None →
     ∃ teamId tm, connectedTeams s !! sock = Some teamId ∧
                  Teams s !! teamId = Some tm ∧ amt ≤ remainingPoints tm) ∧
  (∀ now s a pid p tid tm,
     auction s = Some a → currentPlayer a = Some pid →
     Players s !! pid = Some p →
     team (currentHighBid a) = Some tid → Teams s !! tid = Some tm →
     remainingPoints <$> Teams (handleAutoSold now s) !! tid
       = Some (remainingPoints tm - amount (currentHighBid a)) ∧
     ∀ id, id ≠ tid → Teams (handleAutoSold now s) !! id = Teams s !! id) ∧
  (∀ sock pid s, well_formed s →
     ∀ id t, Teams s !! id = Some t →
       ∃ t', Teams (admin_undoSale sock pid s) !! id = Some t' ∧
             remainingPoints t ≤ remainingPoints t').
Proof.
  intros Hwf.
  pose proof (wf_run TD Anew inputs s0 Hwf) as Hrun.
  split_and!.
  - by destruct Hrun as (HT & _).
  - done.
  - intros now sock amt s Hacc. rewrite bid_place_reply in Hacc.
    apply placeBid_checks_accept in Hacc
      as (teamId & a & tm & Hc & _ & Htm & Hle & _).
    eauto.
  - intros now s a pid p tid tm Ha Hcur Hp Hteam Htm.
    destruct (handleAutoSold_sold now s a pid p tid tm Ha Hcur Hp Hteam Htm)
      as (_ & -> & _).
    split; [by rewrite lookup_insert_eq|].
    intros id Hne. by apply lookup_insert_ne.
  - apply admin_undoSale_credits.
Qed.

Lemma lobby_well_formed : well_formed lobby_state.
Proof.
  split_and!.
  - intros id t Hin. apply elem_of_map_to_list in Hin. vm_compute in Hin.
    repeat (apply elem_of_cons in Hin as [Hin|Hin]; [by simplify_eq|]).
    by apply elem_of_nil in Hin.
  - intros id p Hin. apply elem_of_map_to_list in Hin. vm_compute in Hin.
    repeat (apply elem_of_cons in Hin as [Hin|Hin]; [by simplify_eq|]).
    by apply elem_of_nil in Hin.
  - intros st Hst. vm_compute in Hst. discriminate.
Defined.

Lemma budget_never_negative_witness :
  well_formed (run None blank_auction stop_then_timeout_inputs lobby_state).
Proof.
  exact (proj1 (proj2 (budget_never_negative None blank_auction
                         stop_then_timeout_inputs lobby_state
                         lobby_well_formed))).
Defined.

(** * The recursion of processNextPlayerInQueue *)

Lemma startAuctionForPlayer_unsoldPlayers TD Anew now playerId s :
  unsoldPlayers (startAuctionForPlayer TD Anew now playerId s)
    = unsoldPlayers s.
Proof.
  unfold startAuctionForPlayer. repeat case_match; try done.
  unfold startTimer. by rewrite stopTimer_eq.
Qed.

Lemma advanceQueue_unsoldPlayers TD Anew now queue s :
  unsoldPlayers (advanceQueue TD Anew now queue s).2 = unsoldPlayers s.
Proof.
  revert s. induction queue as [|playerId rest IH]; intros s; simpl; [done|].
  repeat case_match; simpl; rewrite ?IH, ?startAuctionForPlayer_unsoldPlayers;
    done.
Qed.

(** Once the unsold players were moved into the queue, only the first and
    the third branch remain. *)
Lemma processNextPlayerInQueue_last_round TD Anew now s :
  unsoldPlayers s = [] →
  processNextPlayerInQueue TD Anew now s =
    (let r := advanceQueue TD Anew now (playerQueue s) s in
     if r.1 then r.2 else autoAuctionCompleted r.2).
Proof.
  intros Hu. unfold processNextPlayerInQueue.
  pose proof (advanceQueue_unsoldPlayers TD Anew now (playerQueue s) s) as Hun.
  destruct (advanceQueue TD Anew now (playerQueue s) s) as [[] s'];
    simpl in *; [done|].
  by rewrite Hun, Hu.
Qed.

(** [processNextPlayerInQueue] satisfies the recursive equation that the
    source function is written as. *)
Lemma processNextPlayerInQueue_unfold TD Anew now s :
  processNextPlayerInQueue TD Anew now s =
    match playerQueue s with
    | playerId :: rest =>
      let s1 := emit ToAdmin
                  (autoAuction_queueUpdate (length rest)
                     (length (unsoldPlayers s)))
                  (set_playerQueue rest s) in
      match Players s !! playerId with
      | Some player =>
        if decide (status player = SOLD)
        then processNextPlayerInQueue TD Anew now s1
        else startAuctionForPlayer TD Anew now playerId s1
      | None => processNextPlayerInQueue TD Anew now s1
      end
    | [] =>
      match unsoldPlayers s with
      | _ :: _ =>
        processNextPlayerInQueue TD Anew now
          (emit ToAdmin (autoAuction_unsoldRound (length (unsoldPlayers s)))
             (set_unsoldPlayers [] (set_playerQueue (unsoldPlayers s) s)))
      | [] => autoAuctionCompleted s
      end
    end.
Proof.
  unfold processNextPlayerInQueue at 1.
  destruct (playerQueue s) as [|playerId rest] eqn:Hq.
  - cbn [advanceQueue]. destruct (unsoldPlayers s) as [|u us] eqn:Hu; [done|].
    rewrite processNextPlayerInQueue_last_round by done.
    match goal with |- _ = (let r := ?X in _) => set (r := X) end.
    match goal with
    | |- context [advanceQueue TD Anew now ?q ?s2] =>
        change (advanceQueue TD Anew now q s2) with r
    end.
    by destruct r as [[] s3].
  - cbn [advanceQueue]. cbn [Players emit set_playerQueue].
    destruct (Players s !! playerId) as [player|]; [case_decide|];
      try done; unfold processNextPlayerInQueue; reflexivity.
Qed.

(** * The example of the specification *)

Lemma example_replies :
  (bid_place 2 1 10
     (run None blank_auction (take 1 example_inputs) lobby_state)).1 = None ∧
  (bid_place 3 2 10
     (run None blank_auction (take 2 example_inputs) lobby_state)).1
    = Some (BidMustBeHigher 10) ∧
  (bid_place 4 2 15
     (run None blank_auction (take 3 example_inputs) lobby_state)).1 = None ∧
  (bid_place 5 1 15
     (run None blank_auction (take 4 example_inputs) lobby_state)).1
    = Some (BidMustBeHigher 15) ∧
  (bid_place 6 1 20
     (run None blank_auction (take 5 example_inputs) lobby_state)).1 = None.
Proof. split_and!; vm_compute; reflexivity. Qed.

Lemma example_sale_and_undo :
  let sold := run None blank_auction example_inputs lobby_state in
  let undone := admin_undoSale 9 1 sold in
  Players sold !! 1%nat
    = Some (mkPlayer 10 SOLD (Some 100%nat) (Some 20) (Some 7)) ∧
  Teams sold !! 100%nat = Some (mkTeam 30 1 [1%nat] true None) ∧
  length (Bids sold) = 3%nat ∧
  Players undone !! 1%nat = Some (mkPlayer 10 UNSOLD None None None) ∧
  Teams undone !! 100%nat = Some (mkTeam 50 0 [] true None) ∧
  Bids undone = [].
Proof. split_and!; vm_compute; reflexivity. Qed.

(** * The auction state along a run

    The handlers set and clear [isActive] and [currentPlayer] together, so
    on the states the engine reaches from a state where the two are in
    step, testing one is testing the other. *)

Lemma active_iff_lot_startAuctionForPlayer TD Anew now playerId s :
  active_iff_lot s → active_iff_lot (startAuctionForPlayer TD Anew now playerId s).
Proof.
  intros Hinv. unfold startAuctionForPlayer.
  repeat case_match; try done.
  unfold startTimer. rewrite stopTimer_eq.
  intros a [= <-]. simpl. split; intros [=].
Qed.

Lemma active_iff_lot_advanceQueue TD Anew now queue s :
  active_iff_lot s → active_iff_lot (advanceQueue TD Anew now queue s).2.
Proof.
  revert s. induction queue as [|playerId rest IH]; intros s Hinv; simpl;
    [done|].
  repeat case_match; simpl; try (by apply IH).
  by apply active_iff_lot_startAuctionForPlayer.
Qed.

Lemma active_iff_lot_processNextPlayerInQueue TD Anew now s :
  active_iff_lot s → active_iff_lot (processNextPlayerInQueue TD Anew now s).
Proof.
  intros Hinv. unfold processNextPlayerInQueue.
  pose proof (active_iff_lot_advanceQueue TD Anew now (playerQueue s) s Hinv)
    as H1.
  destruct (advanceQueue TD Anew now (playerQueue s) s) as [[] s1];
    simpl in H1; [done|].
  destruct (unsoldPlayers s1) as [|u us] eqn:Hu; [done|].
  match goal with
  | |- context [advanceQueue TD Anew now ?q ?s2] =>
      pose proof (active_iff_lot_advanceQueue TD Anew now q s2 H1) as H2;
      destruct (advanceQueue TD Anew now q s2) as [[] s3]
  end; done.
Qed.

Lemma active_iff_lot_handleAutoSold now s :
  active_iff_lot s → active_iff_lot (handleAutoSold now s).
Proof.
  intros Hinv.
  destruct (auction s) as [a|] eqn:Ha;
    [|rewrite handleAutoSold_skip, stopTimer_eq by (intros; congruence);
      done].
  destruct (findPlayer s (currentPlayer a)) as [p|] eqn:Hp;
    [|rewrite handleAutoSold_skip, stopTimer_eq by (intros; congruence);
      done].
  apply findPlayer_Some in Hp as (pid & Hcur & Hp).
  destruct (handleAutoSold_settles now s a pid p Ha Hcur Hp)
    as (_ & (a' & Ha' & Hc' & Hact' & _) & _).
  intros a0 Ha0. rewrite Ha' in Ha0. injection Ha0 as <-. done.
Qed.

Lemma active_iff_lot_step TD Anew now i s :
  active_iff_lot s → active_iff_lot (step TD Anew now i s).
Proof.
  intros Hinv. destruct i; simpl.
  - unfold team_login. by repeat case_match.
  - unfold admin_login. by case_match.
  - done.
  - done.
  - done.
  - destruct (bid_place now sock amt s).1 as [e|] eqn:Hreply.
    + by rewrite (bid_place_rejected _ _ _ _ _ Hreply).
    + destruct (bid_place_accepted _ _ _ _ Hreply)
        as (teamId & playerId & a & _ & Ha & _ & ->).
      intros a0 [= <-]. simpl. by apply Hinv.
  - unfold admin_startAuction. repeat case_match; try done.
    by apply active_iff_lot_startAuctionForPlayer.
  - unfold admin_pauseAuction. case_decide; [done|].
    destruct (auction s) as [a|] eqn:Ha; [|done].
    rewrite stopTimer_eq. intros a0 [= <-]. simpl. by apply Hinv.
  - unfold admin_resumeAuction. case_decide; [done|].
    destruct (auction s) as [a|] eqn:Ha; [|done].
    destruct (isPaused a); [|done].
    unfold startTimer. rewrite stopTimer_eq.
    intros a0 [= <-]. simpl. by apply Hinv.
  - unfold admin_undoSale. by repeat case_match.
  - unfold admin_startAutoAuction. repeat case_match; try done.
    by apply active_iff_lot_processNextPlayerInQueue.
  - unfold admin_stopAutoAuction. case_decide; [done|].
    by rewrite stopTimer_eq.
  - unfold admin_getAutoAuctionStatus. by case_decide.
  - unfold disconnect. by repeat case_match.
  - unfold timerTick. repeat case_match; try done.
    apply active_iff_lot_handleAutoSold. by rewrite stopTimer_eq.
  - unfold advanceTimeout. case_match; [done|].
    by apply active_iff_lot_processNextPlayerInQueue.
Qed.

Lemma active_iff_lot_run TD Anew inputs s :
  active_iff_lot s → active_iff_lot (run TD Anew inputs s).
Proof.
  revert s. induction inputs as [|[now i] inputs IH]; intros s Hinv; [done|].
  simpl. by apply IH, active_iff_lot_step.
Qed.

(** On such states an inactive auction state closes the gate of the
    settlement routine. *)
Lemma handleAutoSold_inactive now s a :
  active_iff_lot s → auction s = Some a → isActive a = false →
  handleAutoSold now s = stopTimer s.
Proof.
  intros Hinv Ha Hact. apply handleAutoSold_skip.
  intros a0 Ha0. rewrite Ha in Ha0. injection Ha0 as <-.
  apply (Hinv a Ha) in Hact. by rewrite Hact.
Qed.

(** C2: settlement is idempotent per activation cycle.  After one
    settlement of a lot has completed the auction state is inactive -
    [isActive] is false and [currentPlayer] null, saved together - and
    the timer is clear, and a second invocation of the settlement routine
    is a no-op: it changes nothing at all, so there is no second status
    transition, no second debit or credit and no second event.  The
    routine tests [currentPlayer]; on every state the engine reaches from
    one where [isActive] and [currentPlayer] are in step, an auction
    state observed with [isActive == false] makes the routine do nothing
    but clear the timer, so that observation is the gate. *)
Theorem settlement_idempotent (now now' : Z) (s : State) :
  let s1 := handleAutoSold now s in
  handleAutoSold now' s1 = s1 ∧
  (∀ a p, auction s = Some a → findPlayer s (currentPlayer a) = Some p →
          ∃ a', auction s1 = Some a' ∧
                isActive a' = false ∧ currentPlayer a' = None) ∧
  auctionTimer s1 = false ∧
  (∀ TD Anew inputs s0 a,
     active_iff_lot s0 → s = run TD Anew inputs s0 →
     auction s = Some a → isActive a = false →
     handleAutoSold now s = stopTimer s) ∧
  (∀ TD Anew inputs s0 a,
     active_iff_lot s0 → s = run TD Anew inputs s0 →
     auction s = Some a →
     (isActive a = false ↔ currentPlayer a = None)) ∧
  ((∀ a, auction s = Some a → findPlayer s (currentPlayer a) = None) →
   handleAutoSold now s = stopTimer s) ∧
  (∀ a, auction s1 = Some a → findPlayer s1 (currentPlayer a) = None).
Proof.
  intros s1. unfold s1. clear s1.
  assert (Hsettled : ∀ a p, auction s = Some a →
            findPlayer s (currentPlayer a) = Some p →
            ∃ a', auction (handleAutoSold now s) = Some a' ∧
                  isActive a' = false ∧ currentPlayer a' = None).
  { intros a p Ha Hp. apply findPlayer_Some in Hp as (pid & Hcur & Hp).
    destruct (handleAutoSold_settles now s a pid p Ha Hcur Hp)
      as (_ & (a' & Ha' & Hc' & Hact' & _) & _).
    eauto. }
  assert (Hclosed : (∀ a, auction (handleAutoSold now s) = Some a →
            findPlayer (handleAutoSold now s) (currentPlayer a) = None) ∧
          auctionTimer (handleAutoSold now s) = false).
  { destruct (auction s) as [a|] eqn:Ha.
    - destruct (findPlayer s (currentPlayer a)) as [p|] eqn:Hp.
      + apply findPlayer_Some in Hp as (pid & Hcur & Hp).
        destruct (handleAutoSold_settles now s a pid p Ha Hcur Hp)
          as (Htimer & (a' & Ha' & Hc' & _) & _).
        split; [|done]. intros a0 Ha0. rewrite Ha' in Ha0.
        injection Ha0 as <-. by rewrite Hc'.
      + rewrite handleAutoSold_skip, stopTimer_eq
          by (intros a0 Ha0; congruence).
        split; [|done]. simpl. intros a0 Ha0.
        rewrite Ha in Ha0. injection Ha0 as <-. exact Hp.
    - rewrite handleAutoSold_skip, stopTimer_eq by (intros a0 Ha0; congruence).
      split; [|done]. simpl. intros a0 Ha0. congruence. }
  destruct Hclosed as [Hgate Htimer].
  split_and!; [|done|done| | |apply handleAutoSold_skip|done].
  - rewrite handleAutoSold_skip by done. by apply stopTimer_off.
  - intros TD Anew inputs s0 a Hinv -> Ha Hact.
    eapply handleAutoSold_inactive; [|done..].
    by apply active_iff_lot_run.
  - intros TD Anew inputs s0 a Hinv -> Ha.
    by apply (active_iff_lot_run TD Anew inputs s0 Hinv).
Qed.

Lemma settlement_idempotent_witness :
  handleAutoSold 8 (handleAutoSold 7 high_bid_state)
    = handleAutoSold 7 high_bid_state ∧
  auctionTimer (handleAutoSold 7 high_bid_state) = false.
Proof.
  split.
  - exact (proj1 (settlement_idempotent 7 8 high_bid_state)).
  - exact (proj1 (proj2 (proj2 (settlement_idempotent 7 8 high_bid_state)))).
Defined.

(** * The database change of each handler *)

Lemma db_change_from Anew s1 s2 s' :
  Players s2 = Players s1 → Teams s2 = Teams s1 →
  auction s2 = auction s1 → Bids s2 = Bids s1 →
  db_change Anew s2 s' → db_change Anew s1 s'.
Proof.
  intros HP HT Ha HB Hch. unfold findTeam in *.
  destruct Hch;
    [ eapply dbc_none | eapply dbc_team_online | eapply dbc_start
    | eapply dbc_bid | eapply dbc_paused | eapply dbc_sold
    | eapply dbc_unsold | eapply dbc_undo ];
    unfold findTeam in *; rewrite <- ?HP, <- ?HT, <- ?Ha, <- ?HB; eauto.
Qed.

Lemma db_change_startAuctionForPlayer TD Anew now playerId s :
  db_change Anew s (startAuctionForPlayer TD Anew now playerId s).
Proof.
  unfold startAuctionForPlayer.
  destruct (Players s !! playerId) as [p|] eqn:Hp; [|by apply dbc_none].
  case_decide; [by apply dbc_none|].
  unfold startTimer. rewrite stopTimer_eq.
  by eapply (dbc_start _ _ _ now playerId p).
Qed.

Lemma db_change_advanceQueue TD Anew now queue s :
  db_change Anew s (advanceQueue TD Anew now queue s).2.
Proof.
  revert s. induction queue as [|playerId rest IH]; intros s; simpl;
    [by apply dbc_none|].
  match goal with
  | |- context [advanceQueue TD Anew now rest ?s1] =>
      specialize (IH s1);
      pose proof (db_change_startAuctionForPlayer TD Anew now playerId s1)
        as Hstart
  end.
  repeat case_match; simpl;
    (eapply db_change_from; [..|eassumption]); done.
Qed.

Lemma same_database_refl s : same_database s s.
Proof. done. Qed.

Lemma db_change_same Anew s s' : same_database s s' → db_change Anew s s'.
Proof. intros (? & ? & ? & ?). by apply dbc_none. Qed.

(** [advanceQueue] shifts the ids whose lot is gone or SOLD off the queue
    and starts the first lot that is neither; when there is none the
    queue ends empty and nothing but the queue and the event log has
    changed. *)
Lemma advanceQueue_spec TD Anew now queue s :
  let r := advanceQueue TD Anew now queue s in
  if r.1 then
    ∃ before playerId rest p s1,
      queue = before ++ playerId :: rest ∧ Forall (skipped s) before ∧
      Players s !! playerId = Some p ∧ status p ≠ SOLD ∧
      same_database s s1 ∧ playerQueue s1 = rest ∧
      unsoldPlayers s1 = unsoldPlayers s ∧
      isAutoAuction s1 = isAutoAuction s ∧
      pendingAdvance s1 = pendingAdvance s ∧
      isTeamSummaryShowing s1 = isTeamSummaryShowing s ∧
      r.2 = startAuctionForPlayer TD Anew now playerId s1
  else
    Forall (skipped s) queue ∧ same_database s r.2 ∧
    playerQueue r.2 = (match queue with [] => playerQueue s | _ => [] end) ∧
    unsoldPlayers r.2 = unsoldPlayers s ∧
    isAutoAuction r.2 = isAutoAuction s ∧
    auctionTimer r.2 = auctionTimer s ∧
    pendingAdvance r.2 = pendingAdvance s.
Proof.
  revert s. induction queue as [|playerId rest IH]; intros s; simpl.
  { split_and!; done. }
  match goal with
  | |- context [advanceQueue TD Anew now rest ?x] =>
      set (s1 := x) in *; specialize (IH s1)
  end.
  assert (Hskip : ∀ id, skipped s1 id → skipped s id) by done.
  assert (Hrec : (∀ p, Players s !! playerId = Some p → status p = SOLD) →
    if (advanceQueue TD Anew now rest s1).1
    then ∃ before playerId0 rest0 p s2,
      playerId :: rest = before ++ playerId0 :: rest0 ∧
      Forall (skipped s) before ∧
      Players s !! playerId0 = Some p ∧ status p ≠ SOLD ∧
      same_database s s2 ∧ playerQueue s2 = rest0 ∧
      unsoldPlayers s2 = unsoldPlayers s ∧
      isAutoAuction s2 = isAutoAuction s ∧
      pendingAdvance s2 = pendingAdvance s ∧
      isTeamSummaryShowing s2 = isTeamSummaryShowing s ∧
      (advanceQueue TD Anew now rest s1).2
        = startAuctionForPlayer TD Anew now playerId0 s2
    else
      Forall (skipped s) (playerId :: rest) ∧
      same_database s (advanceQueue TD Anew now rest s1).2 ∧
      playerQueue (advanceQueue TD Anew now rest s1).2 = [] ∧
      unsoldPlayers (advanceQueue TD Anew now rest s1).2 = unsoldPlayers s ∧
      isAutoAuction (advanceQueue TD Anew now rest s1).2 = isAutoAuction s ∧
      auctionTimer (advanceQueue TD Anew now rest s1).2 = auctionTimer s ∧
      pendingAdvance (advanceQueue TD Anew now rest s1).2 = pendingAdvance s).
  { intros Hsold.
    destruct (advanceQueue TD Anew now rest s1) as [[] s2]; simpl in *.
    - destruct IH as (before & pid & rest0 & p & s3 & -> & Hb & Hp & Hst
                      & Hdb & Hq & Hu & Hauto & Hpend & Hlock & ->).
      exists (playerId :: before), pid, rest0, p, s3.
      split_and!; try done. by constructor.
    - destruct IH as (Hall & Hdb & Hq & Hu & Hauto & Htimer & Hpend).
      split_and!; try done; [by constructor|].
      rewrite Hq. by destruct rest. }
  change (Players s1 !! playerId) with (Players s !! playerId).
  destruct (Players s !! playerId) as [p|] eqn:Hp.
  - case_decide as Hst.
    + apply Hrec. by intros ? [= <-].
    + simpl. exists [], playerId, rest, p, s1. split_and!; done.
  - apply Hrec. intros ? [=].
Qed.

Lemma startAuctionForPlayer_frame TD Anew now playerId s :
  let s' := startAuctionForPlayer TD Anew now playerId s in
  playerQueue s' = playerQueue s ∧ unsoldPlayers s' = unsoldPlayers s ∧
  isAutoAuction s' = isAutoAuction s ∧
  pendingAdvance s' = pendingAdvance s ∧
  isTeamSummaryShowing s' = isTeamSummaryShowing s ∧
  connectedTeams s' = connectedTeams s ∧ adminSockets s' = adminSockets s ∧
  Teams s' = Teams s ∧ Bids s' = Bids s.
Proof.
  unfold startAuctionForPlayer. repeat case_match; try done.
  unfold startTimer. by rewrite stopTimer_eq.
Qed.

(** What [processNextPlayerInQueue] does, in three cases: it starts the
    first lot of the queue that is neither gone nor SOLD; or, the queue
    holding no such lot, it moves the unsold players into the queue and
    starts the first such lot among them; or, there being none at all, it
    ends the auto-run. *)
Lemma processNextPlayerInQueue_cases TD Anew now s :
  let s' := processNextPlayerInQueue TD Anew now s in
  (∃ before playerId rest p s1,
     playerQueue s = before ++ playerId :: rest ∧
     Forall (skipped s) before ∧
     Players s !! playerId = Some p ∧ status p ≠ SOLD ∧
     same_database s s1 ∧
     s' = startAuctionForPlayer TD Anew now playerId s1 ∧
     playerQueue s' = rest ∧ unsoldPlayers s' = unsoldPlayers s ∧
     isAutoAuction s' = isAutoAuction s ∧
     pendingAdvance s' = pendingAdvance s) ∨
  (∃ before playerId rest p s1,
     Forall (skipped s) (playerQueue s) ∧
     unsoldPlayers s = before ++ playerId :: rest ∧
     Forall (skipped s) before ∧
     Players s !! playerId = Some p ∧ status p ≠ SOLD ∧
     same_database s s1 ∧
     s' = startAuctionForPlayer TD Anew now playerId s1 ∧
     playerQueue s' = rest ∧ unsoldPlayers s' = [] ∧
     isAutoAuction s' = isAutoAuction s ∧
     pendingAdvance s' = pendingAdvance s) ∨
  (Forall (skipped s) (playerQueue s) ∧
   Forall (skipped s) (unsoldPlayers s) ∧
   same_database s s' ∧ isAutoAuction s' = false ∧
   playerQueue s' = [] ∧ unsoldPlayers s' = [] ∧
   auctionTimer s' = auctionTimer s ∧
   pendingAdvance s' = pendingAdvance s).
Proof.
  intros s'. subst s'. unfold processNextPlayerInQueue.
  pose proof (advanceQueue_spec TD Anew now (playerQueue s) s) as H1.
  destruct (advanceQueue TD Anew now (playerQueue s) s) as [[] s1];
    simpl in H1.
  - left.
    destruct H1 as (before & pid & rest & p & s2 & Hq & Hb & Hp & Hst & Hdb
                    & Hq2 & Hu & Hauto & Hpend & _ & ->).
    destruct (startAuctionForPlayer_frame TD Anew now pid s2)
      as (-> & -> & -> & -> & _).
    exists before, pid, rest, p, s2. split_and!; done.
  - destruct H1 as (Hall & Hdb & Hq & Hu & Hauto & Htimer & Hpend).
    assert (Hq1 : playerQueue s1 = [])
      by (rewrite Hq; destruct (playerQueue s) eqn:?; done).
    rewrite Hu. destruct (unsoldPlayers s) as [|u us] eqn:Hunsold.
    { right. right. simpl. split_and!; done. }
    set (s2 := emit ToAdmin _
                 (set_unsoldPlayers [] (set_playerQueue (u :: us) s1))).
    pose proof (advanceQueue_spec TD Anew now (playerQueue s2) s2) as H2.
    assert (Hdb2 : same_database s s2)
      by (destruct Hdb as (? & ? & ? & ?); by split_and!).
    assert (Hplayers : Players s2 = Players s) by (by destruct Hdb2).
    assert (Hskip : ∀ l, Forall (skipped s2) l → Forall (skipped s) l).
    { intros l Hl. eapply Forall_impl; [exact Hl|].
      intros id Hid p Hp. apply Hid. by rewrite Hplayers. }
    destruct (advanceQueue TD Anew now (playerQueue s2) s2) as [[] s3];
      simpl in H2.
    + right. left.
      destruct H2 as (before & pid & rest & p & s4 & Hq4 & Hb & Hp & Hst
                      & Hdb4 & Hq5 & Hu4 & Hauto4 & Hpend4 & _ & ->).
      destruct (startAuctionForPlayer_frame TD Anew now pid s4)
        as (-> & -> & -> & -> & _).
      exists before, pid, rest, p, s4.
      assert (Hp' : Players s !! pid = Some p)
        by (rewrite <- Hplayers; exact Hp).
      split_and!; try done; [by apply Hskip| |by rewrite Hauto4|by rewrite Hpend4].
      destruct Hdb2 as (? & ? & ? & ?), Hdb4 as (? & ? & ? & ?).
      split_and!; congruence.
    + right. right.
      destruct H2 as (Hall2 & Hdb3 & Hq3 & Hu3 & Hauto3 & Htimer3 & Hpend3).
      split_and!; try done;
        [by apply Hskip| |unfold s2 in *; simpl in *; congruence..].
      destruct Hdb2 as (? & ? & ? & ?), Hdb3 as (? & ? & ? & ?).
      split_and!; simpl; congruence.
Qed.

Lemma db_change_processNextPlayerInQueue TD Anew now s :
  db_change Anew s (processNextPlayerInQueue TD Anew now s).
Proof.
  destruct (processNextPlayerInQueue_cases TD Anew now s)
    as [H|[H|H]].
  - destruct H as (? & pid & ? & ? & s1 & _ & _ & _ & _ & Hdb & -> & _).
    destruct Hdb as (? & ? & ? & ?).
    eapply db_change_from; [..|apply db_change_startAuctionForPlayer]; done.
  - destruct H as (? & pid & ? & ? & s1 & _ & _ & _ & _ & _ & Hdb & -> & _).
    destruct Hdb as (? & ? & ? & ?).
    eapply db_change_from; [..|apply db_change_startAuctionForPlayer]; done.
  - destruct H as (_ & _ & Hdb & _). by apply db_change_same.
Qed.

Lemma db_change_handleAutoSold Anew now s :
  db_change Anew s (handleAutoSold now s).
Proof.
  destruct (auction s) as [a|] eqn:Ha;
    [|rewrite handleAutoSold_skip, stopTimer_eq by (intros; congruence);
      by apply dbc_none].
  destruct (findPlayer s (currentPlayer a)) as [p|] eqn:Hp;
    [|rewrite handleAutoSold_skip, stopTimer_eq by (intros; congruence);
      by apply dbc_none].
  apply findPlayer_Some in Hp as (pid & Hcur & Hp).
  destruct (findTeam s (team (currentHighBid a))) as [tm|] eqn:Hteam.
  - apply findTeam_Some in Hteam as (tid & Htid & Htm).
    destruct (handleAutoSold_sold now s a pid p tid tm Ha Hcur Hp Htid Htm)
      as (HP & HT & _).
    destruct (handleAutoSold_settles now s a pid p Ha Hcur Hp)
      as (_ & _ & _ & _ & _ & _ & HB & _).
    eapply (dbc_sold _ _ _ now a pid p tid tm); try done.
    unfold handleAutoSold. rewrite stopTimer_eq. simpl.
    rewrite Ha, Hcur. simpl. rewrite Hp, Htid. simpl. rewrite Htm.
    by destruct (isAutoAuction s) eqn:Hauto; simpl; rewrite ?Hauto.
  - destruct (handleAutoSold_unsold now s a pid p Ha Hcur Hp Hteam)
      as (HP & HT & _).
    destruct (handleAutoSold_settles now s a pid p Ha Hcur Hp)
      as (_ & _ & _ & _ & _ & _ & HB & _).
    eapply (dbc_unsold _ _ _ a pid p); try done.
    unfold handleAutoSold. rewrite stopTimer_eq. simpl.
    rewrite Ha, Hcur. simpl. rewrite Hp.
    unfold findTeam in Hteam.
    destruct (team (currentHighBid a)) as [tid|]; simpl in *;
      rewrite ?Hteam;
      destruct (isAutoAuction s) eqn:Hauto; simpl;
      try case_bool_decide; simpl; rewrite ?Hauto; done.
Qed.

(** What an accepted bid was checked against. *)
Lemma placeBid_checks_accept_full s sock amt :
  placeBid_checks s sock amt = None →
  ∃ teamId a tm pid p,
    connectedTeams s !! sock = Some teamId ∧ auction s = Some a ∧
    isActive a = true ∧ isPaused a = false ∧
    currentPlayer a = Some pid ∧ Players s !! pid = Some p ∧
    status p = IN_AUCTION ∧
    Teams s !! teamId = Some tm ∧
    amt ≤ remainingPoints tm ∧ amount (currentHighBid a) ≤ amt ∧
    (team (currentHighBid a) ≠ None →
     amount (currentHighBid a) < amt ∧
     team (currentHighBid a) ≠ Some teamId).
Proof.
  unfold placeBid_checks.
  destruct (connectedTeams s !! sock) as [teamId|]; [|done].
  destruct (auction s) as [a|]; [|done].
  destruct (Teams s !! teamId) as [tm|] eqn:Htm;
    repeat case_decide; try done; intros _.
  destruct (findPlayer s (currentPlayer a)) as [p|] eqn:Hp; [|done].
  apply findPlayer_Some in Hp as (pid & Hcur & Hp).
  exists teamId, a, tm, pid, p.
  assert (isActive a = true ∧ isPaused a = false) as [-> ->]
    by (destruct (isActive a), (isPaused a); tauto).
  assert (Hst : status p = IN_AUCTION) by (simpl in *; congruence).
  split_and!; try done; try lia.
  - destruct (team (currentHighBid a)).
    + destruct (decide (amt ≤ amount (currentHighBid a))); [|lia].
      exfalso. naive_solver.
    + destruct (decide (amt < amount (currentHighBid a))); [|lia].
      exfalso. naive_solver.
  - intros Hteam. split; [|done].
    destruct (decide (amt ≤ amount (currentHighBid a))); [|lia].
    exfalso. naive_solver.
Qed.

Lemma db_change_bid_place Anew now sock amt s :
  db_change Anew s (bid_place now sock amt s).2.
Proof.
  destruct (bid_place now sock amt s).1 as [e|] eqn:Hreply.
  - rewrite (bid_place_rejected _ _ _ _ _ Hreply). by apply dbc_none.
  - destruct (bid_place_accepted _ _ _ _ Hreply)
      as (teamId & playerId & a & Hc & Ha & Hcur & ->).
    rewrite bid_place_reply in Hreply.
    apply placeBid_checks_accept_full in Hreply
      as (teamId' & a' & tm & pid & p & Hc' & Ha' & Hact & Hpau & Hcur'
          & _ & _ & Htm & Hle & Hge & Hprev).
    simplify_eq. by eapply dbc_bid.
Qed.

Lemma alter_lookup_Some {A} (f : A → A) (m : gmap nat A) i x :
  m !! i = Some x → alter f i m = <[i := f x]> m.
Proof.
  intros Hi. apply map_eq. intros j.
  rewrite lookup_alter, lookup_insert.
  case_decide; [subst j; by rewrite Hi|done].
Qed.

Lemma alter_lookup_None {A} (f : A → A) (m : gmap nat A) i :
  m !! i = None → alter f i m = m.
Proof.
  intros Hi. apply map_eq. intros j. rewrite lookup_alter.
  case_decide; [subst j; by rewrite Hi|done].
Qed.

(** Every socket message and callback makes one of the changes of
    [db_change]. *)
Lemma db_change_step TD Anew now i s :
  db_change Anew s (step TD Anew now i s).
Proof.
  destruct i; simpl.
  - unfold team_login. destruct found as [id|]; simpl; [|by apply dbc_none].
    destruct (Teams s !! id) as [tm|] eqn:Htm; [|by apply dbc_none].
    destruct isValidPin; [|by apply dbc_none].
    by eapply (dbc_team_online _ _ _ id tm true (Some now)).
  - unfold admin_login. destruct passwordOk; by apply dbc_none.
  - by apply dbc_none.
  - by apply dbc_none.
  - by apply dbc_none.
  - apply db_change_bid_place.
  - unfold admin_startAuction. repeat case_match; try (by apply dbc_none).
    apply db_change_startAuctionForPlayer.
  - unfold admin_pauseAuction. case_decide; [by apply dbc_none|].
    destruct (auction s) as [a|] eqn:Ha; [|by apply dbc_none].
    rewrite stopTimer_eq. by eapply (dbc_paused _ _ _ true a).
  - unfold admin_resumeAuction. case_decide; [by apply dbc_none|].
    destruct (auction s) as [a|] eqn:Ha; [|by apply dbc_none].
    destruct (isPaused a); [|by apply dbc_none].
    unfold startTimer. rewrite stopTimer_eq.
    by eapply (dbc_paused _ _ _ false a).
  - unfold admin_undoSale. case_decide; [by apply dbc_none|].
    destruct (Players s !! playerId) as [p|] eqn:Hp; [|by apply dbc_none].
    case_decide as Hst; [by apply dbc_none|].
    eapply (dbc_undo _ _ _ playerId p); try done.
    + simpl. by repeat case_match.
    + simpl. unfold findTeam. by repeat case_match.
    + simpl. by repeat case_match.
    + simpl. by repeat case_match.
  - unfold admin_startAutoAuction. case_decide; [by apply dbc_none|].
    destruct (findAvailablePlayers s); [by apply dbc_none|].
    eapply db_change_from; [..|apply db_change_processNextPlayerInQueue];
      done.
  - unfold admin_stopAutoAuction. case_decide; [by apply dbc_none|].
    rewrite stopTimer_eq. by apply dbc_none.
  - unfold admin_getAutoAuctionStatus. case_decide; by apply dbc_none.
  - unfold disconnect.
    destruct (connectedTeams s !! sock) as [teamId|]; [|by apply dbc_none].
    destruct (Teams s !! teamId) as [tm|] eqn:Htm.
    + eapply (dbc_team_online _ _ _ teamId tm false (Some now)); try done.
      simpl. by rewrite (alter_lookup_Some _ _ _ tm).
    + apply dbc_none; try done. simpl. by rewrite alter_lookup_None.
  - unfold timerTick. destruct (auctionTimer s); [|by apply dbc_none].
    case_decide; [|by apply dbc_none].
    rewrite stopTimer_eq.
    eapply db_change_from; [..|apply db_change_handleAutoSold]; done.
  - unfold advanceTimeout. destruct (pendingAdvance s); [by apply dbc_none|].
    eapply db_change_from; [..|apply db_change_processNextPlayerInQueue];
      done.
Qed.

(** * Consistency along a run *)

Lemma length_filter_remove (l : list nat) (x : nat) :
  NoDup l → x ∈ l →
  length l = S (length (filter (λ y, y ≠ x) l)).
Proof.
  induction 1 as [|y l Hy Hnd IH]; intros Hx.
  { by apply elem_of_nil in Hx. }
  apply elem_of_cons in Hx as [->|Hx].
  - rewrite filter_cons_False by (intros H; by apply H).
    rewrite filter_Forall_id; [done|].
    apply Forall_forall. intros z Hz ->. done.
  - rewrite filter_cons_True by (intros ->; done).
    simpl. by rewrite <- IH.
Qed.

(** After a case analysis on [db_change s s'], state the collections of
    [s'] in terms of those of [s]. *)
Ltac db_rewrite s' :=
  repeat match goal with
  | H : Players s' = _ |- _ => try rewrite !H; clear H
  | H : Teams s' = _ |- _ => try rewrite !H; clear H
  | H : auction s' = _ |- _ => try rewrite !H; clear H
  | H : Bids s' = _ |- _ => try rewrite !H; clear H
  end.

Lemma active_iff_lot_db_change Anew s s' :
  db_change Anew s s' → active_iff_lot s → active_iff_lot s'.
Proof.
  intros Hch Hinv a'.
  destruct Hch; db_rewrite s'; intros Ha'; simplify_eq; simpl;
    try (by apply Hinv); split; done.
Qed.

Lemma lots_sale_fields_db_change Anew s s' :
  db_change Anew s s' → current_lot_in_auction s →
  lots_sale_fields s → lots_sale_fields s'.
Proof.
  intros Hch Hcur Hinv id q.
  destruct Hch as [| |now pid p Hp Hst| | |now a pid p tid tm Ha Hc Hp
                  |a pid p Ha Hc Hp|pid p Hp Hst];
    db_rewrite s'; intros Hq; try (by apply (Hinv id));
    (rewrite lookup_insert in Hq; case_decide as Hid;
     [subst id; injection Hq as <-|by apply (Hinv id)]); simpl.
  - destruct (Hinv _ _ Hp) as [_ Hnone].
    split; [done|]. intros _. by apply Hnone.
  - split; [by eauto|done].
  - destruct (Hcur a pid Ha Hc) as (p' & Hp' & Hst' & _).
    rewrite Hp in Hp'. injection Hp' as <-.
    destruct (Hinv _ _ Hp) as [_ Hnone].
    split; [done|]. intros _. apply Hnone. by rewrite Hst'.
  - done.
Qed.

Lemma current_lot_db_change Anew s s' :
  db_change Anew s s' → current_lot_in_auction s → current_lot_in_auction s'.
Proof.
  intros Hch Hcur a' pid'.
  destruct Hch as [| |now pid p Hp Hst|now teamId tm pid a amt Hs|b a Hs
                  | | |pid p Hp Hst];
    db_rewrite s'; intros Ha' Hc'.
  - by apply Hcur.
  - by apply Hcur.
  - injection Ha' as <-. simpl in Hc'. injection Hc' as <-.
    exists (player_with_status IN_AUCTION p).
    rewrite lookup_insert_eq. split_and!; simpl; [done|done|lia].
  - injection Ha' as <-. simpl in *.
    destruct (Hcur a pid' Hs Hc') as (p & Hp & Hst & Hle).
    exists p. split_and!; [done|done|lia].
  - injection Ha' as <-. simpl in *. by apply (Hcur a).
  - injection Ha' as <-. done.
  - injection Ha' as <-. done.
  - destruct (Hcur a' pid' Ha' Hc') as (p0 & Hp0 & Hst0 & Hle).
    exists p0. split_and!; [|done|done].
    rewrite lookup_insert_ne; [done|]. intros ->. congruence.
Qed.

(* [naive_solver] clears hypotheses that its own substitutions already
   removed. *)
#[local] Set Warnings "-clear-no-such-hyp".

Lemma sold_to_insert (P : gmap nat Player) pid q pid' tid :
  (∃ p, <[pid := q]> P !! pid' = Some p ∧ status p = SOLD ∧
        soldTo p = Some tid) ↔
  (pid' = pid ∧ status q = SOLD ∧ soldTo q = Some tid) ∨
  (pid' ≠ pid ∧ ∃ p, P !! pid' = Some p ∧ status p = SOLD ∧
                     soldTo p = Some tid).
Proof.
  destruct (decide (pid' = pid)) as [->|Hne].
  - rewrite lookup_insert_eq. naive_solver.
  - rewrite lookup_insert_ne by done. naive_solver.
Qed.

Lemma rosters_db_change Anew s s' :
  db_change Anew s s' → current_lot_in_auction s →
  rosters_consistent s → rosters_consistent s'.
Proof.
  intros Hch Hcur Hinv tid t.
  destruct Hch as [|tid0 t0 online seen Ht0|now pid p Hp Hst| |
                  |now a pid p tid0 tm0 Ha Hc Hp Hteam Htm0
                  |a pid p Ha Hc Hp Hteam|pid p Hp Hst];
    db_rewrite s'; intros Ht; try (by apply Hinv).
  - (* a team goes online or offline *)
    rewrite lookup_insert in Ht. case_decide; [|by apply Hinv].
    subst tid0. injection Ht as <-. simpl. by apply Hinv.
  - (* a lot is started *)
    destruct (Hinv tid t Ht) as (Hnd & Hlen & Hmem).
    split_and!; [done..|]. intros pid'.
    rewrite sold_to_insert, Hmem. simpl. naive_solver.
  - (* a lot is sold *)
    destruct (Hcur a pid Ha Hc) as (p' & Hp' & Hst' & _).
    rewrite Hp in Hp'. injection Hp' as <-.
    rewrite lookup_insert in Ht. case_decide as Htid.
    + subst tid0. injection Ht as <-. simpl.
      destruct (Hinv tid tm0 Htm0) as (Hnd & Hlen & Hmem).
      assert (Hnotin : pid ∉ players tm0).
      { intros (p0 & Hp0 & Hst0 & _)%Hmem. congruence. }
      split_and!.
      * apply NoDup_app. split_and!; [done| |apply NoDup_singleton].
        intros x Hx ->%list_elem_of_singleton. done.
      * rewrite length_app. simpl. lia.
      * intros pid'. rewrite sold_to_insert, elem_of_app, Hmem,
          list_elem_of_singleton. simpl.
        destruct (decide (pid' = pid)) as [->|Hne]; [|naive_solver].
        split; [naive_solver|]. intros _. by right.
    + destruct (Hinv tid t Ht) as (Hnd & Hlen & Hmem).
      split_and!; [done..|]. intros pid'.
      rewrite sold_to_insert, Hmem. simpl.
      destruct (decide (pid' = pid)) as [->|Hne]; [|naive_solver].
      split; [|naive_solver]. intros (p0 & Hp0 & Hst0 & _). congruence.
  - (* a lot goes unsold *)
    destruct (Hcur a pid Ha Hc) as (p' & Hp' & Hst' & _).
    rewrite Hp in Hp'. injection Hp' as <-.
    destruct (Hinv tid t Ht) as (Hnd & Hlen & Hmem).
    split_and!; [done..|]. intros pid'.
    rewrite sold_to_insert, Hmem. simpl.
    destruct (decide (pid' = pid)) as [->|Hne]; [|naive_solver].
    split; [|naive_solver]. intros (p0 & Hp0 & Hst0 & _). congruence.
  - (* a sale is undone *)
    assert (Hother : ∀ t1, Teams s !! tid = Some t1 →
              soldTo p ≠ Some tid →
              NoDup (players t1) ∧
              rosterSlotsFilled t1 = Z.of_nat (length (players t1)) ∧
              ∀ pid', pid' ∈ players t1 ↔
                ∃ p0, <[pid := player_reset p]> (Players s) !! pid' = Some p0 ∧
                      status p0 = SOLD ∧ soldTo p0 = Some tid).
    { intros t1 Ht1 Hto.
      destruct (Hinv tid t1 Ht1) as (Hnd & Hlen & Hmem).
      split_and!; [done..|]. intros pid'.
      rewrite sold_to_insert, Hmem. simpl.
      destruct (decide (pid' = pid)) as [->|Hne]; [|naive_solver].
      split; [|naive_solver]. intros (p0 & Hp0 & Hst0 & Hto0). congruence. }
    unfold findTeam in Ht.
    destruct (soldTo p) as [tid0|] eqn:Hto; simpl in Ht;
      [|by apply Hother].
    destruct (Teams s !! tid0) as [tm0|] eqn:Htm0; simpl in Ht;
      [|apply Hother; [done|]; intros [= ->]; congruence].
    rewrite lookup_insert in Ht. case_decide as Htid;
      [|apply Hother; [done|]; intros [= ->]; done].
    subst tid0. injection Ht as <-. simpl.
    destruct (Hinv tid tm0 Htm0) as (Hnd & Hlen & Hmem).
    assert (Hin : pid ∈ players tm0) by (apply Hmem; eauto).
    split_and!.
    + by apply NoDup_filter.
    + pose proof (length_filter_remove _ _ Hnd Hin). lia.
    + intros pid'. rewrite sold_to_insert, list_elem_of_filter, Hmem.
      simpl. split; [by right|].
      intros [(_ & Hcontra & _)|H]; [discriminate|done].
Qed.

Lemma consistent_db_change Anew s s' :
  db_change Anew s s' → consistent s → consistent s'.
Proof.
  intros Hch (Hact & Hsale & Hcur & Hros). split_and!.
  - by eapply active_iff_lot_db_change.
  - by eapply lots_sale_fields_db_change.
  - by eapply current_lot_db_change.
  - by eapply rosters_db_change.
Qed.

Lemma consistent_step TD Anew now i s :
  consistent s → consistent (step TD Anew now i s).
Proof. apply consistent_db_change with Anew, db_change_step. Qed.

Lemma consistent_run TD Anew inputs s :
  consistent s → consistent (run TD Anew inputs s).
Proof.
  revert s. induction inputs as [|[now i] inputs IH]; intros s Hinv; [done|].
  simpl. by apply IH, consistent_step.
Qed.

(** * Properties of the reachable states *)

Lemma lobby_consistent : consistent lobby_state.
Proof.
  assert (HP : ∀ id p, Players lobby_state !! id = Some p →
            status p = AVAILABLE ∧ soldTo p = None ∧ soldPrice p = None ∧
            soldAt p = None).
  { intros id p Hin. apply elem_of_map_to_list in Hin. vm_compute in Hin.
    repeat (apply elem_of_cons in Hin as [Hin|Hin]; [by simplify_eq|]).
    by apply elem_of_nil in Hin. }
  assert (HT : ∀ id t, Teams lobby_state !! id = Some t →
            players t = [] ∧ rosterSlotsFilled t = 0).
  { intros id t Hin. apply elem_of_map_to_list in Hin. vm_compute in Hin.
    repeat (apply elem_of_cons in Hin as [Hin|Hin]; [by simplify_eq|]).
    by apply elem_of_nil in Hin. }
  split_and!.
  - intros a [=].
  - intros id p (Hst & -> & -> & ->)%HP. rewrite Hst. done.
  - intros a pid [=].
  - intros tid t (Hpl & Hrs)%HT. rewrite Hpl, Hrs. split_and!.
    + constructor.
    + done.
    + intros pid. split; [by intros ?%elem_of_nil|].
      intros (p & (Hst & _)%HP & Hsold & _). congruence.
Qed.

(** X1: along every run of the engine from a consistent state, a lot is
    SOLD exactly when [soldTo], [soldPrice] and [soldAt] are all set, and
    a lot that is not SOLD has all three null. *)
Theorem run_keeps_sale_fields (TD : option Z) (Anew : AuctionState)
    (inputs : list (Z * Input)) (s0 : State) :
  consistent s0 →
  ∀ id p, Players (run TD Anew inputs s0) !! id = Some p →
    (status p = SOLD ↔
     is_Some (soldTo p) ∧ is_Some (soldPrice p) ∧ is_Some (soldAt p)) ∧
    (status p ≠ SOLD ↔
     soldTo p = None ∧ soldPrice p = None ∧ soldAt p = None).
Proof.
  intros Hc id p Hp.
  destruct (consistent_run TD Anew inputs s0 Hc) as (_ & Hsale & _).
  destruct (Hsale id p Hp) as [Hsold Hnot].
  destruct (decide (status p = SOLD)) as [Hst|Hst].
  - destruct (Hsold Hst) as ([? Hto] & [? Hpr] & [? Hat]).
    split; [by eauto|]. split; [done|]. rewrite Hto. by intros [[=] _].
  - destruct (Hnot Hst) as (Hto & Hpr & Hat).
    split; [|done]. split; [done|]. rewrite Hto. by intros [[? [=]] _].
Qed.

Lemma run_keeps_sale_fields_witness :
  let p := mkPlayer 10 SOLD (Some 100%nat) (Some 20) (Some 7) in
  status p = SOLD ↔
  is_Some (soldTo p) ∧ is_Some (soldPrice p) ∧ is_Some (soldAt p).
Proof.
  refine (proj1 (run_keeps_sale_fields None blank_auction example_inputs
                   lobby_state lobby_consistent 1%nat _ _)).
  vm_compute. reflexivity.
Defined.

(** X2: when handlers run one at a time, each to completion, then at
    every state reached from a consistent one an active auction state
    names a lot that exists and is IN_AUCTION, its high bid is at least
    the base price of that lot, and an inactive one names no lot.  Inside
    a settlement this does not hold: the lot is saved before the auction
    state, so in between the auction state is still active while its lot
    is no longer IN_AUCTION, and a bid handled then is answered 'Player
    not in auction'. *)
Theorem run_keeps_current_lot (TD : option Z) (Anew : AuctionState)
    (inputs : list (Z * Input)) (s0 : State) :
  consistent s0 →
  let s := run TD Anew inputs s0 in
  (∀ a, auction s = Some a → isActive a = true →
     ∃ pid p, currentPlayer a = Some pid ∧ Players s !! pid = Some p ∧
              status p = IN_AUCTION ∧
              basePrice p ≤ amount (currentHighBid a)) ∧
  (∀ a, auction s = Some a → isActive a = false → currentPlayer a = None) ∧
  (∀ now now' a sock teamId amt,
     auction s = Some a → isActive a = true → isPaused a = false →
     connectedTeams s !! sock = Some teamId →
     let mid := handleAutoSold_lot_saved now s in
     auction mid = Some a ∧ Teams mid = Teams s ∧
     Players (handleAutoSold now s) = Players mid ∧
     (∃ pid p, currentPlayer a = Some pid ∧ Players mid !! pid = Some p ∧
               status p ≠ IN_AUCTION) ∧
     (bid_place now' sock amt mid).1 = Some PlayerNotInAuction).
Proof.
  intros Hc s.
  destruct (consistent_run TD Anew inputs s0 Hc) as (Hact & _ & Hcur & _).
  fold s in Hact, Hcur.
  assert (Hlot : ∀ a, auction s = Some a → isActive a = true →
     ∃ pid p, currentPlayer a = Some pid ∧ Players s !! pid = Some p ∧
              status p = IN_AUCTION ∧
              basePrice p ≤ amount (currentHighBid a)).
  { intros a Ha Hactive.
    destruct (currentPlayer a) as [pid|] eqn:Hpid.
    - destruct (Hcur a pid Ha Hpid) as (p & Hp & Hst & Hle). eauto 10.
    - apply (Hact a Ha) in Hpid. congruence. }
  split_and!; [done| |].
  - intros a Ha Hinactive. by apply (Hact a Ha).
  - intros now now' a sock teamId amt Ha Hactive Hpaused Hconn mid.
    destruct (Hlot a Ha Hactive) as (pid & p & Hpid & Hp & Hst & _).
    assert (Hmid : ∃ q, status q ≠ IN_AUCTION ∧
              mid = set_Players (<[pid := q]> (Players s))
                      (set_auctionTimer false s) ∧
              Players (handleAutoSold now s) = <[pid := q]> (Players s)).
    { unfold mid, handleAutoSold_lot_saved. rewrite stopTimer_eq. simpl.
      rewrite Ha, Hpid. simpl. rewrite Hp.
      destruct (team (currentHighBid a)) as [tid|] eqn:Hteam; simpl.
      - destruct (Teams s !! tid) as [tm|] eqn:Htm.
        + eexists. split; [|split; [done|]]; [done|].
          by destruct (handleAutoSold_sold now s a pid p tid tm Ha Hpid Hp
                         Hteam Htm) as (-> & _).
        + eexists. split; [|split; [done|]]; [done|].
          assert (Hgone : findTeam s (team (currentHighBid a)) = None)
            by (by rewrite Hteam).
          by destruct (handleAutoSold_unsold now s a pid p Ha Hpid Hp Hgone)
            as (-> & _).
      - eexists. split; [|split; [done|]]; [done|].
        assert (Hgone : findTeam s (team (currentHighBid a)) = None)
          by (by rewrite Hteam).
        by destruct (handleAutoSold_unsold now s a pid p Ha Hpid Hp Hgone)
          as (-> & _). }
    destruct Hmid as (q & Hq & Hmid & Hfull).
    assert (Hpq : Players mid !! pid = Some q)
      by (rewrite Hmid; simpl; apply lookup_insert_eq).
    split_and!.
    + by rewrite Hmid.
    + by rewrite Hmid.
    + by rewrite Hfull, Hmid.
    + exists pid, q. done.
    + rewrite bid_place_reply. unfold placeBid_checks.
      assert (Hcm : connectedTeams mid !! sock = Some teamId)
        by (by rewrite Hmid).
      assert (Ham : auction mid = Some a) by (by rewrite Hmid).
      rewrite Hcm, Ham.
      rewrite decide_False by (rewrite Hactive, Hpaused; intros [|]; done).
      unfold findPlayer. rewrite Hpid. simpl. rewrite Hpq. simpl.
      rewrite decide_True by congruence. done.
Qed.

Lemma run_keeps_current_lot_witness :
  let s := run None blank_auction (take 3 example_inputs) lobby_state in
  (bid_place 9 1 40 (handleAutoSold_lot_saved 8 s)).1
    = Some PlayerNotInAuction.
Proof.
  cbv zeta.
  refine (proj2 (proj2 (proj2 (proj2
            (proj2 (proj2 (run_keeps_current_lot None blank_auction
                             (take 3 example_inputs) lobby_state
                             lobby_consistent))
               8 9 _ 1%nat 100%nat 40 eq_refl eq_refl eq_refl eq_refl))))).
Defined.

(** X3: when handlers run one at a time, each to completion, then at
    every state reached from a consistent one the roster of every team
    has no duplicate, [rosterSlotsFilled] is its length, and a lot is on
    the roster exactly when it is SOLD to that team; so a lot is on at
    most one roster.  Inside a SOLD settlement this does not hold: the
    lot is saved before the team, so in between the lot is SOLD to the
    winner and not on the winner's roster. *)
Theorem run_keeps_rosters (TD : option Z) (Anew : AuctionState)
    (inputs : list (Z * Input)) (s0 : State) :
  consistent s0 →
  let s := run TD Anew inputs s0 in
  (∀ tid t, Teams s !! tid = Some t →
     NoDup (players t) ∧
     rosterSlotsFilled t = Z.of_nat (length (players t)) ∧
     ∀ pid, pid ∈ players t ↔
            ∃ p, Players s !! pid = Some p ∧ status p = SOLD ∧
                 soldTo p = Some tid) ∧
  (∀ tid1 t1 tid2 t2 pid,
     Teams s !! tid1 = Some t1 → Teams s !! tid2 = Some t2 →
     pid ∈ players t1 → pid ∈ players t2 → tid1 = tid2) ∧
  (∀ now a pid tid tm,
     auction s = Some a → currentPlayer a = Some pid →
     team (currentHighBid a) = Some tid → Teams s !! tid = Some tm →
     let mid := handleAutoSold_lot_saved now s in
     (∃ p, Players mid !! pid = Some p ∧ status p = SOLD ∧
           soldTo p = Some tid) ∧
     Teams mid !! tid = Some tm ∧ pid ∉ players tm).
Proof.
  intros Hc s.
  destruct (consistent_run TD Anew inputs s0 Hc) as (_ & _ & Hcur & Hros).
  fold s in Hros, Hcur. split_and!; [exact Hros| |].
  - intros tid1 t1 tid2 t2 pid Ht1 Ht2 Hin1 Hin2.
    destruct (Hros tid1 t1 Ht1) as (_ & _ & Hmem1).
    destruct (Hros tid2 t2 Ht2) as (_ & _ & Hmem2).
    apply Hmem1 in Hin1 as (p1 & Hp1 & _ & Hto1).
    apply Hmem2 in Hin2 as (p2 & Hp2 & _ & Hto2).
    congruence.
  - intros now a pid tid tm Ha Hpid Hteam Htm mid.
    destruct (Hcur a pid Ha Hpid) as (p & Hp & Hst & _).
    assert (Hmid : mid = set_Players
                           (<[pid := player_sold_to tid
                                       (amount (currentHighBid a)) now p]>
                              (Players s))
                           (set_auctionTimer false s)).
    { unfold mid, handleAutoSold_lot_saved. rewrite stopTimer_eq. simpl.
      rewrite Ha, Hpid. simpl. rewrite Hp, Hteam. simpl. by rewrite Htm. }
    split_and!.
    + eexists. rewrite Hmid. simpl. rewrite lookup_insert_eq. done.
    + by rewrite Hmid.
    + destruct (Hros tid tm Htm) as (_ & _ & Hmem).
      intros (p' & Hp' & Hst' & _)%Hmem. congruence.
Qed.

Lemma run_keeps_rosters_witness :
  let t := mkTeam 30 1 [1%nat] true None in
  NoDup (players t) ∧ rosterSlotsFilled t = Z.of_nat (length (players t)).
Proof.
  destruct (proj1 (run_keeps_rosters None blank_auction example_inputs
                     lobby_state lobby_consistent)
              100%nat (mkTeam 30 1 [1%nat] true None))
    as (Hnd & Hlen & _); [vm_compute; reflexivity|].
  split; [exact Hnd | exact Hlen].
Defined.

(** * Funds *)

Lemma spent_app P l1 l2 : spent P (l1 ++ l2) = spent P l1 + spent P l2.
Proof. induction l1 as [|x l1 IH]; simpl; [done|]. rewrite IH. lia. Qed.

Lemma spent_insert_notin P pid q l :
  pid ∉ l → spent (<[pid := q]> P) l = spent P l.
Proof.
  induction l as [|x l IH]; intros Hnotin; simpl; [done|].
  apply not_elem_of_cons in Hnotin as [Hne Hnotin].
  by rewrite IH, lookup_insert_ne.
Qed.

Lemma spent_insert_same_price P pid p q l :
  P !! pid = Some p → soldPrice q = soldPrice p →
  spent (<[pid := q]> P) l = spent P l.
Proof.
  intros Hp Hprice. induction l as [|x l IH]; simpl; [done|].
  rewrite IH. destruct (decide (x = pid)) as [->|Hne].
  - by rewrite lookup_insert_eq, Hp; simpl; rewrite Hprice.
  - by rewrite lookup_insert_ne.
Qed.

Lemma spent_remove P pid l :
  NoDup l → pid ∈ l →
  spent P l = default 0 (P !! pid ≫= soldPrice)
              + spent P (filter (λ q, q ≠ pid) l).
Proof.
  induction 1 as [|x l Hx Hnd IH]; intros Hin.
  { by apply elem_of_nil in Hin. }
  apply elem_of_cons in Hin as [->|Hin].
  - rewrite filter_cons_False by (intros H; by apply H).
    rewrite filter_Forall_id; [done|].
    apply Forall_forall. intros z Hz ->. done.
  - rewrite filter_cons_True by (intros ->; done).
    simpl. rewrite IH by done. lia.
Qed.

Lemma funds_db_change Anew s s' tid t :
  db_change Anew s s' → consistent s → Teams s !! tid = Some t →
  ∃ t', Teams s' !! tid = Some t' ∧ funds s' t' = funds s t.
Proof.
  intros Hch (_ & _ & Hcur & Hros) Ht. unfold funds.
  destruct (Hros tid t Ht) as (Hnd & _ & Hmem).
  destruct Hch as [|tid0 t0 online seen Ht0|now pid p Hp Hst| |
                  |now a pid p tid0 tm0 Ha Hc Hp Hteam Htm0
                  |a pid p Ha Hc Hp Hteam|pid p Hp Hst];
    db_rewrite s'; try (by eauto).
  - rewrite lookup_insert. case_decide; [|by eauto].
    subst tid0. rewrite Ht in Ht0. injection Ht0 as <-. by eauto.
  - exists t. split; [done|]. f_equal.
    by apply (spent_insert_same_price _ _ p).
  - destruct (Hcur a pid Ha Hc) as (p' & Hp' & Hst' & _).
    rewrite Hp in Hp'. injection Hp' as <-.
    assert (Hnotin : pid ∉ players t).
    { intros (p0 & Hp0 & Hst0 & _)%Hmem. congruence. }
    rewrite lookup_insert. case_decide as Htid.
    + subst tid0. rewrite Ht in Htm0. injection Htm0 as <-.
      eexists. split; [done|]. simpl.
      rewrite spent_app, spent_insert_notin by done. simpl.
      rewrite lookup_insert_eq. simpl. lia.
    + exists t. split; [done|]. by rewrite spent_insert_notin.
  - exists t. split; [done|]. f_equal.
    by apply (spent_insert_same_price _ _ p).
  - assert (Hother : soldTo p ≠ Some tid →
              remainingPoints t + spent (<[pid := player_reset p]> (Players s))
                                    (players t)
              = remainingPoints t + spent (Players s) (players t)).
    { intros Hto. rewrite spent_insert_notin; [done|].
      intros (p0 & Hp0 & _ & Hto0)%Hmem. congruence. }
    unfold findTeam.
    destruct (soldTo p) as [tid0|] eqn:Hto; simpl;
      [|exists t; split; [done|by apply Hother]].
    destruct (Teams s !! tid0) as [tm0|] eqn:Htm0; simpl;
      [|exists t; split; [done|apply Hother; intros [= ->]; congruence]].
    rewrite lookup_insert. case_decide as Htid;
      [|exists t; split; [done|apply Hother; intros [= ->]; done]].
    subst tid0. rewrite Ht in Htm0. injection Htm0 as <-.
    eexists. split; [done|]. simpl.
    assert (Hin : pid ∈ players t) by (apply Hmem; eauto).
    rewrite spent_insert_notin
      by (intros [Hne _]%list_elem_of_filter; done).
    rewrite (spent_remove (Players s) pid (players t)) by done.
    rewrite Hp. simpl. lia.
Qed.

Lemma spent_nonneg P roster :
  (∀ id p, P !! id = Some p → 0 ≤ default 0 (soldPrice p)) →
  0 ≤ spent P roster.
Proof.
  intros HP. induction roster as [|pid roster IH]; simpl; [done|].
  destruct (P !! pid) as [p|] eqn:Hp; simpl; [|lia].
  specialize (HP pid p Hp). destruct (soldPrice p); simpl in *; lia.
Qed.

(** X4: when handlers run one at a time, each to completion, and the
    amounts are integers, the funds of every team - its remaining points
    plus the sale prices of the lots on its roster - stay what they were
    along every run from a consistent, well-formed state, and no team is
    created or deleted.  The points and the total paid both stay between
    0 and the funds, so when the funds are a safe integer every value the
    handlers compute is one and the arithmetic of the doubles is exact. *)
Theorem run_conserves_funds (TD : option Z) (Anew : AuctionState)
    (inputs : list (Z * Input)) (s0 : State) (tid : nat) (t : Team) :
  consistent s0 → well_formed s0 → Teams s0 !! tid = Some t →
  safe_integer (funds s0 t) →
  let s := run TD Anew inputs s0 in
  ∃ t', Teams s !! tid = Some t' ∧
        funds s t' = funds s0 t ∧
        0 ≤ remainingPoints t' ≤ funds s0 t ∧
        0 ≤ spent (Players s) (players t') ≤ funds s0 t ∧
        safe_integer (remainingPoints t') ∧
        safe_integer (spent (Players s) (players t')).
Proof.
  intros Hc Hwf Ht Hsafe s.
  assert (Hfunds : ∃ t', Teams s !! tid = Some t' ∧ funds s t' = funds s0 t).
  { unfold s. clear s Hwf Hsafe. revert s0 t Hc Ht.
    induction inputs as [|[now i] inputs IH]; intros s0 t Hc Ht.
    { by eauto. }
    simpl.
    destruct (funds_db_change Anew s0 (step TD Anew now i s0) tid t
                (db_change_step TD Anew now i s0) Hc Ht) as (t1 & Ht1 & Hf1).
    destruct (IH _ t1 (consistent_step TD Anew now i s0 Hc) Ht1)
      as (t' & Ht' & Hf').
    exists t'. split; [done|]. by rewrite Hf'. }
  destruct Hfunds as (t' & Ht' & Hf').
  destruct (wf_run TD Anew inputs s0 Hwf) as (HT & HP & _). fold s in HT, HP.
  pose proof (HT tid t' Ht') as Hrp.
  assert (Hsp : 0 ≤ spent (Players s) (players t')).
  { apply spent_nonneg. intros id p Hp. by destruct (HP id p Hp). }
  exists t'. unfold funds, safe_integer in *. split_and!; try done; lia.
Qed.

Lemma run_conserves_funds_witness :
  ∃ t', Teams (run None blank_auction example_inputs lobby_state) !! 100%nat
          = Some t' ∧
        funds (run None blank_auction example_inputs lobby_state) t' = 50.
Proof.
  destruct (run_conserves_funds None blank_auction example_inputs lobby_state
              100%nat (mkTeam 50 0 [] true None) lobby_consistent
              lobby_well_formed eq_refl)
    as (t' & Ht' & Hf' & _); [by split|].
  exists t'. split; [exact Ht' | exact Hf'].
Defined.

(** * Recent sales *)

Lemma sold_records_take now pid tid price old :
  sold_records now pid tid price old
    = take 10 (mkSoldRecord pid tid price now :: old).
Proof.
  unfold sold_records. case_decide; [done|].
  symmetry. apply take_ge. lia.
Qed.

Lemma recent_bounded_db_change Anew s s' :
  (length (recentlySold Anew) ≤ 10)%nat →
  db_change Anew s s' → recent_bounded (auction s) →
  recent_bounded (auction s').
Proof.
  intros Hnew Hch Hinv st.
  destruct Hch as [| |now pid p Hp Hst|now teamId tm pid a amt Ha|b a Ha
                  |now a pid p tid tm Ha|a pid p Ha|];
    db_rewrite s'; try (by apply Hinv); intros [= <-]; simpl;
    try (by apply Hinv).
  - destruct (auction s) as [a|] eqn:Ha; simpl; [by apply Hinv|done].
  - rewrite sold_records_take, length_take. lia.
Qed.

Lemma handleAutoSold_sold_auction now s a pid p tid tm :
  auction s = Some a → currentPlayer a = Some pid →
  Players s !! pid = Some p →
  team (currentHighBid a) = Some tid → Teams s !! tid = Some tm →
  auction (handleAutoSold now s) =
    Some (mkAuctionState None (mkHighBid 5 None) false (isPaused a)
            (lastBidAt a) (auctionStartedAt a)
            (sold_records now pid tid (amount (currentHighBid a))
               (recentlySold a))).
Proof.
  intros Ha Hcur Hp Htid Htm.
  unfold handleAutoSold. rewrite stopTimer_eq. simpl.
  rewrite Ha, Hcur. simpl. rewrite Hp, Htid. simpl. rewrite Htm.
  by destruct (isAutoAuction s) eqn:Hauto; simpl; rewrite ?Hauto.
Qed.

(** X5: along every run of the engine the list of recent sales never
    holds more than ten records, and a SOLD settlement puts its record -
    lot, winner, price, time - at the head of the list and keeps the nine
    most recent of the older ones. *)
Theorem recentlySold_bounded (TD : option Z) (Anew : AuctionState)
    (inputs : list (Z * Input)) (s0 : State) :
  (length (recentlySold Anew) ≤ 10)%nat →
  recent_bounded (auction s0) →
  recent_bounded (auction (run TD Anew inputs s0)) ∧
  (∀ now s a pid p tid tm,
     auction s = Some a → currentPlayer a = Some pid →
     Players s !! pid = Some p →
     team (currentHighBid a) = Some tid → Teams s !! tid = Some tm →
     recentlySold <$> auction (handleAutoSold now s)
       = Some (mkSoldRecord pid tid (amount (currentHighBid a)) now
                 :: take 9 (recentlySold a))).
Proof.
  intros Hnew Hb. split.
  - revert s0 Hb. induction inputs as [|[now i] inputs IH]; intros s0 Hb;
      [done|].
    simpl. apply IH.
    eapply recent_bounded_db_change; [done|apply db_change_step|done].
  - intros now s a pid p tid tm Ha Hcur Hp Hteam Htm.
    rewrite (handleAutoSold_sold_auction now s a pid p tid tm) by done.
    simpl. by rewrite sold_records_take.
Qed.

Lemma recentlySold_bounded_witness :
  recent_bounded (auction (run None blank_auction example_inputs lobby_state)).
Proof.
  apply (recentlySold_bounded None blank_auction example_inputs lobby_state).
  - simpl. lia.
  - intros st Hst. vm_compute in Hst. discriminate.
Defined.

(** * An accepted bid *)

(** X6: an accepted bid is within the bidder's remaining points and not
    below the amount it replaces - strictly above it, and by another team,
    when a bid was accepted before.  It appends one bid record for the
    current lot, makes the bidder the high bidder at that amount, stamps
    [lastBidAt], sets the countdown to 10 without starting or stopping
    the interval, and sends [timer:reset] and [bid:new] to all and
    [bid:success] to the bidder; no lot and no team changes, so nothing
    is debited at bid time. *)
Theorem placeBid_accepted_effect (now : Z) (sock : nat) (amt : Z)
    (s : State) :
  (bid_place now sock amt s).1 = None →
  let s' := (bid_place now sock amt s).2 in
  ∃ teamId tm a pid,
    connectedTeams s !! sock = Some teamId ∧ Teams s !! teamId = Some tm ∧
    auction s = Some a ∧ currentPlayer a = Some pid ∧
    amt ≤ remainingPoints tm ∧
    amount (currentHighBid a) ≤ amt ∧
    (team (currentHighBid a) ≠ None →
     amount (currentHighBid a) < amt ∧
     team (currentHighBid a) ≠ Some teamId) ∧
    Bids s' = Bids s ++ [mkBid pid teamId amt false] ∧
    auction s' =
      Some (mkAuctionState (Some pid) (mkHighBid amt (Some teamId)) true
              false (Some now) (auctionStartedAt a) (recentlySold a)) ∧
    Players s' = Players s ∧ Teams s' = Teams s ∧
    timerValue s' = 10 ∧ auctionTimer s' = auctionTimer s ∧
    emitted s' = emitted s ++ [(ToAll, timer_reset 10);
                               (ToAll, bid_new amt teamId);
                               (ToSocket sock, bid_success)].
Proof.
  intros Hacc s'. subst s'.
  destruct (bid_place_accepted _ _ _ _ Hacc)
    as (teamId & playerId & a & Hc & Ha & Hcur & ->).
  rewrite bid_place_reply in Hacc.
  apply placeBid_checks_accept_full in Hacc
    as (teamId' & a' & tm & pid & p & Hc' & Ha' & Hact & Hpau & Hcur'
        & _ & _ & Htm & Hle & Hge & Hprev).
  rewrite Hc in Hc'. injection Hc' as <-.
  rewrite Ha in Ha'. injection Ha' as <-.
  rewrite Hcur in Hcur'. injection Hcur' as <-.
  exists teamId, tm, a, playerId. unfold bid_accepted, auction_with_bid.
  simpl. rewrite Hact, Hpau, Hcur, <- !(assoc_L (++)). simpl.
  split_and!; done.
Qed.

Lemma placeBid_accepted_effect_witness :
  ∃ teamId tm a pid,
    connectedTeams (startAuctionForPlayer None blank_auction 1 1 lobby_state)
      !! 1%nat = Some teamId ∧
    Teams (startAuctionForPlayer None blank_auction 1 1 lobby_state)
      !! teamId = Some tm ∧
    auction (startAuctionForPlayer None blank_auction 1 1 lobby_state)
      = Some a ∧
    currentPlayer a = Some pid ∧ 10 ≤ remainingPoints tm.
Proof.
  destruct (placeBid_accepted_effect 2 1 10
              (startAuctionForPlayer None blank_auction 1 1 lobby_state)
              eq_refl)
    as (teamId & tm & a & pid & H1 & H2 & H3 & H4 & H5 & _).
  exists teamId, tm, a, pid. split_and!; assumption.
Defined.

(** * The countdown *)

Lemma ticks_S n now s : ticks (S n) now s = timerTick now (ticks n now s).
Proof. done. Qed.

Lemma timerTick_off now s : auctionTimer s = false → timerTick now s = s.
Proof. unfold timerTick. by intros ->. Qed.

Lemma ticks_off n now s : auctionTimer s = false → ticks n now s = s.
Proof.
  intros Hoff. induction n as [|n IH]; [done|].
  by rewrite ticks_S, IH, timerTick_off.
Qed.

Lemma ticks_add n m now s :
  ticks (n + m) now s = ticks m now (ticks n now s).
Proof.
  induction m as [|m IH]; [by rewrite Nat.add_0_r|].
  by rewrite Nat.add_succ_r, !ticks_S, IH.
Qed.

Lemma handleAutoSold_stopTimer now s :
  handleAutoSold now (stopTimer s) = handleAutoSold now s.
Proof. unfold handleAutoSold. by rewrite stopTimer_idemp. Qed.

Lemma handleAutoSold_timer_off now s :
  auctionTimer (handleAutoSold now s) = false.
Proof.
  destruct (auction s) as [a|] eqn:Ha;
    [|by rewrite handleAutoSold_skip, stopTimer_eq by (intros; congruence)].
  destruct (findPlayer s (currentPlayer a)) as [p|] eqn:Hp;
    [|by rewrite handleAutoSold_skip, stopTimer_eq by (intros; congruence)].
  apply findPlayer_Some in Hp as (pid & Hcur & Hp).
  by destruct (handleAutoSold_settles now s a pid p Ha Hcur Hp) as (? & _).
Qed.

(** While the value stays above zero a tick only counts down. *)
Lemma ticks_counting n now s :
  auctionTimer s = true → (n = 0%nat ∨ Z.of_nat n < timerValue s) →
  let s' := ticks n now s in
  same_database s s' ∧ auctionTimer s' = true ∧
  timerValue s' = timerValue s - Z.of_nat n ∧
  playerQueue s' = playerQueue s ∧ unsoldPlayers s' = unsoldPlayers s ∧
  isAutoAuction s' = isAutoAuction s ∧
  pendingAdvance s' = pendingAdvance s ∧
  connectedTeams s' = connectedTeams s.
Proof.
  intros Hon. induction n as [|n IH]; intros Hlt.
  { simpl. split_and!; try done. lia. }
  destruct Hlt as [|Hlt]; [done|].
  destruct IH as (Hdb & Htimer & Hval & Hq & Hu & Hauto & Hpend & Hconn);
    [lia|].
  cbv zeta. rewrite ticks_S. unfold timerTick. rewrite Htimer. simpl.
  rewrite decide_False by lia.
  destruct Hdb as (? & ? & ? & ?).
  split_and!; try done. simpl. lia.
Qed.

(** X7: a running countdown at value [v] settles the lot on tick number
    max(1, v) and at no earlier tick: until then every tick only lowers
    the value by one and tells every client, the collections untouched;
    that tick runs the settlement on the collections as they were; after
    it the interval is cleared, so further ticks do nothing. *)
Theorem countdown_settles_at_zero (now : Z) (s : State) :
  auctionTimer s = true →
  let n := Z.to_nat (Z.max 1 (timerValue s)) in
  (∀ k, (k < n)%nat →
     same_database s (ticks k now s) ∧
     auctionTimer (ticks k now s) = true ∧
     timerValue (ticks k now s) = timerValue s - Z.of_nat k) ∧
  (∃ pre, same_database s pre ∧
          unsoldPlayers pre = unsoldPlayers s ∧
          isAutoAuction pre = isAutoAuction s ∧
          pendingAdvance pre = pendingAdvance s ∧
          playerQueue pre = playerQueue s ∧
          timerValue pre = Z.min 0 (timerValue s - 1) ∧
          ticks n now s = handleAutoSold now pre) ∧
  auctionTimer (ticks n now s) = false ∧
  (∀ m, ticks (n + m) now s = ticks n now s).
Proof.
  intros Hon n.
  assert (Hbefore : ∀ k, (k < n)%nat →
            k = 0%nat ∨ Z.of_nat k < timerValue s) by (intros k; lia).
  assert (Hn : n = S (n - 1)) by lia.
  assert (Hlast : (n - 1 < n)%nat) by lia.
  destruct (ticks_counting (n - 1) now s Hon (Hbefore _ Hlast))
    as (Hdb & Htimer & Hval & Hq & Hu & Hauto & Hpend & _).
  set (pre := emit ToAll (timer_update (timerValue (ticks (n - 1) now s) - 1))
                (set_timerValue (timerValue (ticks (n - 1) now s) - 1)
                   (ticks (n - 1) now s))).
  assert (Hfire : ticks n now s = handleAutoSold now pre).
  { rewrite Hn, ticks_S. unfold timerTick. rewrite Htimer. simpl.
    rewrite decide_True by lia. apply handleAutoSold_stopTimer. }
  assert (Hoff : auctionTimer (ticks n now s) = false).
  { rewrite Hfire. apply handleAutoSold_timer_off. }
  split_and!.
  - intros k Hk.
    destruct (ticks_counting k now s Hon (Hbefore k Hk))
      as (? & ? & ? & _). done.
  - exists pre. destruct Hdb as (? & ? & ? & ?).
    split_and!; try done. simpl. lia.
  - done.
  - intros m. by rewrite ticks_add, ticks_off.
Qed.

Lemma countdown_settles_at_zero_witness :
  auctionTimer
    (ticks 20 5 (startAuctionForPlayer None blank_auction 1 1 lobby_state))
    = false.
Proof.
  exact (proj1 (proj2 (proj2
           (countdown_settles_at_zero 5
              (startAuctionForPlayer None blank_auction 1 1 lobby_state)
              eq_refl)))).
Defined.

(** * Pause and resume *)

(** X8: for an admin socket and an existing auction state, pausing sets
    [isPaused], clears the interval and keeps the countdown value; while
    paused every bid is refused ('Not authenticated' or 'Auction not
    active') and a tick does nothing.  Resuming clears [isPaused] and
    starts the countdown again at the full duration, not at the value it
    was paused at.  Neither touches the high bid, the current lot, a lot,
    a team or a bid record. *)
Theorem pause_then_resume (TD : option Z) (sock : nat) (s : State)
    (a : AuctionState) :
  sock ∈ adminSockets s → auction s = Some a →
  let paused := admin_pauseAuction sock s in
  let resumed := admin_resumeAuction TD sock paused in
  (auction paused = Some (auction_with_paused true a) ∧
   auctionTimer paused = false ∧ timerValue paused = timerValue s ∧
   Players paused = Players s ∧ Teams paused = Teams s ∧
   Bids paused = Bids s) ∧
  (∀ now sk amt,
     (bid_place now sk amt paused).1 = Some NotAuthenticated ∨
     (bid_place now sk amt paused).1 = Some AuctionNotActive) ∧
  (∀ now, timerTick now paused = paused) ∧
  (auction resumed = Some (auction_with_paused false a) ∧
   auctionTimer resumed = true ∧ timerValue resumed = timerDuration TD ∧
   Players resumed = Players s ∧ Teams resumed = Teams s ∧
   Bids resumed = Bids s).
Proof.
  intros Hadm Ha paused resumed.
  assert (Hpaused : paused = emit ToAll auction_paused
            (set_auctionTimer false
               (set_auction (Some (auction_with_paused true a)) s))).
  { unfold paused, admin_pauseAuction.
    rewrite decide_False by (intros H; by apply H).
    by rewrite Ha, stopTimer_eq. }
  split; [|split; [|split]].
  - by rewrite Hpaused.
  - intros now sk amt. rewrite bid_place_reply. unfold placeBid_checks.
    rewrite Hpaused. simpl.
    destruct (connectedTeams s !! sk); [|by left].
    right. by rewrite decide_True by (by right).
  - intros now. apply timerTick_off. by rewrite Hpaused.
  - unfold resumed, admin_resumeAuction. rewrite Hpaused. simpl.
    rewrite decide_False by (intros H; by apply H).
    unfold startTimer. rewrite stopTimer_eq. simpl. done.
Qed.

Lemma pause_then_resume_witness :
  timerValue
    (admin_resumeAuction None 9
       (admin_pauseAuction 9
          (ticks 5 3 (startAuctionForPlayer None blank_auction 1 1
                        lobby_state))))
    = 20.
Proof.
  refine (proj1 (proj2 (proj2 (proj2 (proj2 (proj2
            (pause_then_resume None 9
               (ticks 5 3 (startAuctionForPlayer None blank_auction 1 1
                             lobby_state))
               _ _ _)))))));
    vm_compute; reflexivity.
Defined.

(** * Connections *)

(** X9: when a team's socket disconnects, the team is marked offline and
    the socket forgotten - a later bid from it is answered 'Not
    authenticated' - but no budget, roster, lot, bid record or auction
    state changes; a team that disconnects while holding the high bid
    still wins the lot at the next settlement and pays for it. *)
Theorem disconnect_keeps_high_bid (now : Z) (sock teamId : nat) (s : State) :
  connectedTeams s !! sock = Some teamId →
  let s' := disconnect now sock s in
  (Players s' = Players s ∧ auction s' = auction s ∧ Bids s' = Bids s ∧
   ∀ tid t, Teams s !! tid = Some t →
     ∃ t', Teams s' !! tid = Some t' ∧
           remainingPoints t' = remainingPoints t ∧
           rosterSlotsFilled t' = rosterSlotsFilled t ∧
           players t' = players t ∧
           isOnline t' = (if decide (tid = teamId) then false
                          else isOnline t)) ∧
  (∀ now' amt, (bid_place now' sock amt s').1 = Some NotAuthenticated) ∧
  (∀ now' a pid p tm,
     auction s = Some a → currentPlayer a = Some pid →
     Players s !! pid = Some p →
     team (currentHighBid a) = Some teamId → Teams s !! teamId = Some tm →
     Players (handleAutoSold now' s') !! pid
       = Some (player_sold_to teamId (amount (currentHighBid a)) now' p) ∧
     remainingPoints <$> Teams (handleAutoSold now' s') !! teamId
       = Some (remainingPoints tm - amount (currentHighBid a))).
Proof.
  intros Hc s'.
  assert (Hs' : s' = set_bigScreenSockets (bigScreenSockets s ∖ {[sock]})
            (set_adminSockets (adminSockets s ∖ {[sock]})
               (emit ToAll teams_status
                  (set_connectedTeams (delete sock (connectedTeams s))
                     (set_Teams (alter (team_with_online false now) teamId
                                   (Teams s)) s))))).
  { unfold s', disconnect. by rewrite Hc. }
  assert (Hteams : ∀ tid t, Teams s !! tid = Some t →
     ∃ t', Teams s' !! tid = Some t' ∧
           remainingPoints t' = remainingPoints t ∧
           rosterSlotsFilled t' = rosterSlotsFilled t ∧
           players t' = players t ∧
           isOnline t' = (if decide (tid = teamId) then false
                          else isOnline t)).
  { intros tid t Ht. rewrite Hs'. simpl. rewrite lookup_alter.
    destruct (decide (teamId = tid)) as [->|Hne].
    - rewrite Ht. simpl. eexists. split; [done|].
      by rewrite decide_True.
    - exists t. split; [done|]. by rewrite decide_False. }
  split; [|split].
  - split_and!; [by rewrite Hs'..|done].
  - intros now' amt. rewrite bid_place_reply. unfold placeBid_checks.
    rewrite Hs'. simpl. by rewrite lookup_delete_eq.
  - intros now' a pid p tm Ha Hcur Hp Hteam Htm.
    destruct (Hteams teamId tm Htm) as (tm' & Htm' & Hrp & _).
    assert (Ha' : auction s' = Some a) by (by rewrite Hs').
    assert (Hp' : Players s' !! pid = Some p) by (by rewrite Hs').
    destruct (handleAutoSold_sold now' s' a pid p teamId tm'
                Ha' Hcur Hp' Hteam Htm') as (-> & -> & _).
    rewrite !lookup_insert_eq. simpl. by rewrite Hrp.
Qed.

Lemma disconnect_keeps_high_bid_witness :
  remainingPoints <$>
    Teams (handleAutoSold 5 (disconnect 4 1 high_bid_state)) !! 100%nat
    = Some 30.
Proof.
  refine (proj2 (proj2 (proj2 (disconnect_keeps_high_bid 4 1 100
                                 high_bid_state eq_refl))
            5 _ 1%nat (mkPlayer 10 IN_AUCTION None None None)
            (mkTeam 50 1 [7%nat] true None) eq_refl eq_refl eq_refl
            eq_refl eq_refl)).
Defined.

(** X10: a socket that has not logged in as admin cannot change anything
    with an admin command: [admin:startAuction] and
    [admin:startAutoAuction] answer 'Unauthorized' to that socket, the
    other five commands are ignored without an answer. *)
Theorem unauthorized_admin_command (TD : option Z) (Anew : AuctionState)
    (now : Z) (sock : nat) (i : Input) (s : State) :
  sock ∉ adminSockets s → admin_command sock i →
  step TD Anew now i s =
    match i with
    | admin_startAuction_msg _ _ | admin_startAutoAuction_msg _ _ =>
        emit (ToSocket sock) (error Unauthorized) s
    | _ => s
    end.
Proof.
  intros Hnot Hcmd.
  destruct i; simpl in Hcmd; try done; subst; simpl.
  - unfold admin_startAuction. by rewrite decide_True.
  - unfold admin_pauseAuction. by rewrite decide_True.
  - unfold admin_resumeAuction. by rewrite decide_True.
  - unfold admin_undoSale. by rewrite decide_True.
  - unfold admin_startAutoAuction. by rewrite decide_True.
  - unfold admin_stopAutoAuction. by rewrite decide_True.
  - unfold admin_getAutoAuctionStatus. by rewrite decide_True.
Qed.

Lemma unauthorized_admin_command_witness :
  step None blank_auction 3 (admin_undoSale_msg 1 7) high_bid_state
    = high_bid_state.
Proof.
  refine (unauthorized_admin_command None blank_auction 3 1
            (admin_undoSale_msg 1 7) high_bid_state _ eq_refl).
  vm_compute. discriminate.
Defined.

(** X11: [team:login] succeeds exactly when a team document is found and
    its PIN matches.  It then binds the socket to that team, replacing an
    earlier binding of the socket, marks the team online and stamps
    [lastActive], leaving its points and roster alone; a failed login
    only sends the error to the socket. *)
Theorem team_login_outcome (now : Z) (sock : nat) (found : option nat)
    (isValidPin : bool) (s : State) :
  let s' := team_login now sock found isValidPin s in
  match found, findTeam s found with
  | Some id, Some tm =>
    if isValidPin then
      connectedTeams s' = <[sock := id]> (connectedTeams s) ∧
      Teams s' = <[id := mkTeam (remainingPoints tm) (rosterSlotsFilled tm)
                           (players tm) true (Some now)]> (Teams s) ∧
      Players s' = Players s ∧ auction s' = auction s ∧ Bids s' = Bids s ∧
      emitted s' = emitted s ++ [(ToSocket sock, auth_success_team id);
                                 (ToAll, teams_status)] ∧
      (∀ now' amt, (bid_place now' sock amt s').1 ≠ Some NotAuthenticated)
    else s' = emit (ToSocket sock) (auth_error InvalidPin) s
  | _, _ => s' = emit (ToSocket sock) (auth_error InvalidTeamId) s
  end.
Proof.
  unfold team_login.
  destruct found as [id|]; simpl; [|done].
  destruct (Teams s !! id) as [tm|]; [|done].
  destruct isValidPin; [|done]. simpl.
  rewrite <- (assoc_L (++)). split_and!; try done.
  intros now' amt. rewrite bid_place_reply. unfold placeBid_checks. simpl.
  rewrite lookup_insert_eq. repeat case_match; done.
Qed.

(** * The auto-run queue *)

Lemma startable_not_skipped s pid p :
  Players s !! pid = Some p → status p ≠ SOLD → ¬ skipped s pid.
Proof. intros Hp Hst Hsk. by apply Hst, Hsk. Qed.

(** The first lot of a list that is not skipped is unique. *)
Lemma first_startable_unique s (b1 b2 : list nat) x y r1 r2 :
  b1 ++ x :: r1 = b2 ++ y :: r2 →
  Forall (skipped s) b1 → Forall (skipped s) b2 →
  ¬ skipped s x → ¬ skipped s y →
  b1 = b2 ∧ x = y ∧ r1 = r2.
Proof.
  revert b2. induction b1 as [|z b1 IH]; intros [|z' b2] Heq H1 H2 Hx Hy;
    simpl in Heq.
  - by injection Heq as -> ->.
  - injection Heq as -> _. by apply Forall_cons_1 in H2 as [? _].
  - injection Heq as -> _. by apply Forall_cons_1 in H1 as [? _].
  - injection Heq as -> Heq.
    apply Forall_cons_1 in H1 as [_ H1]. apply Forall_cons_1 in H2 as [_ H2].
    destruct (IH b2 Heq H1 H2 Hx Hy) as (-> & -> & ->). done.
Qed.

Lemma startAuctionForPlayer_timerValue TD Anew now playerId s p :
  Players s !! playerId = Some p → status p ≠ SOLD →
  timerValue (startAuctionForPlayer TD Anew now playerId s) = timerDuration TD.
Proof.
  intros Hp Hst. unfold startAuctionForPlayer. rewrite Hp.
  rewrite decide_False by done. unfold startTimer. by rewrite stopTimer_eq.
Qed.

(** X12: the lots waiting in an auto-run are the queue followed by the
    unsold list.  [processNextPlayerInQueue] puts up the first waiting lot
    whose document exists and is not SOLD - the lot becomes IN_AUCTION,
    the auction active at its base price with no bidder, the countdown
    running at the full duration - and what came after that lot is left
    waiting; it never looks at the auto-run flag.  When no waiting lot can
    be put up it ends the auto-run: flag cleared, both lists empty, the
    collections and the timer untouched. *)
Theorem queue_advance_outcome (TD : option Z) (Anew : AuctionState)
    (now : Z) (s : State) :
  let s' := processNextPlayerInQueue TD Anew now s in
  let waiting := playerQueue s ++ unsoldPlayers s in
  (Forall (skipped s) waiting →
   same_database s s' ∧ isAutoAuction s' = false ∧
   playerQueue s' = [] ∧ unsoldPlayers s' = [] ∧
   auctionTimer s' = auctionTimer s) ∧
  (∀ before pid rest p,
     waiting = before ++ pid :: rest → Forall (skipped s) before →
     Players s !! pid = Some p → status p ≠ SOLD →
     Players s' = <[pid := player_with_status IN_AUCTION p]> (Players s) ∧
     Teams s' = Teams s ∧ Bids s' = Bids s ∧
     (∃ a, auction s' = Some a ∧ currentPlayer a = Some pid ∧
           currentHighBid a = mkHighBid (basePrice p) None ∧
           isActive a = true ∧ isPaused a = false) ∧
     auctionTimer s' = true ∧ timerValue s' = timerDuration TD ∧
     playerQueue s' ++ unsoldPlayers s' = rest ∧
     isAutoAuction s' = isAutoAuction s).
Proof.
  intros s' waiting.
  assert (Hstart : ∀ before pid rest p b x r q s1,
    waiting = before ++ pid :: rest → Forall (skipped s) before →
    Players s !! pid = Some p → status p ≠ SOLD →
    waiting = b ++ x :: r → Forall (skipped s) b →
    Players s !! x = Some q → status q ≠ SOLD →
    same_database s s1 → s' = startAuctionForPlayer TD Anew now x s1 →
    playerQueue s' ++ unsoldPlayers s' = r →
    isAutoAuction s' = isAutoAuction s →
    Players s' = <[pid := player_with_status IN_AUCTION p]> (Players s) ∧
    Teams s' = Teams s ∧ Bids s' = Bids s ∧
    (∃ a, auction s' = Some a ∧ currentPlayer a = Some pid ∧
          currentHighBid a = mkHighBid (basePrice p) None ∧
          isActive a = true ∧ isPaused a = false) ∧
    auctionTimer s' = true ∧ timerValue s' = timerDuration TD ∧
    playerQueue s' ++ unsoldPlayers s' = rest ∧
    isAutoAuction s' = isAutoAuction s).
  { intros before pid rest p b x r q s1 Hw Hb Hp Hst Hw' Hb' Hq Hstq
      (HP & HT & _ & HB) Hs' Hrest Hauto.
    rewrite Hw in Hw'.
    destruct (first_startable_unique s before b pid x rest r Hw' Hb Hb')
      as (-> & -> & ->); [by eapply startable_not_skipped..|].
    assert (q = p) as -> by congruence.
    assert (Hp1 : Players s1 !! x = Some p) by (by rewrite HP).
    pose proof (startAuctionForPlayer_auction TD Anew now x s1 p Hp1 Hst)
      as (HP' & HT' & _ & Htimer & Ha).
    pose proof (startAuctionForPlayer_frame TD Anew now x s1)
      as (_ & _ & _ & _ & _ & _ & _ & _ & HB').
    pose proof (startAuctionForPlayer_timerValue TD Anew now x s1 p Hp1 Hst)
      as Htv.
    rewrite <- Hs' in HP', HT', Htimer, Ha, HB', Htv.
    rewrite HP', HT', HB', HP, HT, HB. split_and!; done. }
  destruct (processNextPlayerInQueue_cases TD Anew now s)
    as [(b & x & r & q & s1 & Hq & Hb & Hx & Hst & Hdb & Hs' & Hq' & Hu'
         & Hauto & _)
       |[(b & x & r & q & s1 & Hall & Hu & Hb & Hx & Hst & Hdb & Hs' & Hq'
          & Hu' & Hauto & _)
        |(Hall & Hallu & Hdb & Hauto & Hq' & Hu' & Htimer & _)]];
    fold s' in Hs' || fold s' in Hdb; fold s' in Hauto, Hq', Hu'.
  - split.
    + intros Hsk. exfalso.
      eapply (startable_not_skipped s x q); [done..|].
      eapply Forall_forall; [exact Hsk|].
      unfold waiting. rewrite Hq, !elem_of_app, elem_of_cons.
      left; right; by left.
    + intros before pid rest p Hw Hbefore Hp Hstp.
      eapply (Hstart before pid rest p b x (r ++ unsoldPlayers s));
        try done.
      * unfold waiting. by rewrite Hq, <- (assoc_L (++)).
      * by rewrite Hq', Hu'.
  - split.
    + intros Hsk. exfalso.
      eapply (startable_not_skipped s x q); [done..|].
      eapply Forall_forall; [exact Hsk|].
      unfold waiting. rewrite Hu, !elem_of_app, elem_of_cons.
      right; right; by left.
    + intros before pid rest p Hw Hbefore Hp Hstp.
      eapply (Hstart before pid rest p (playerQueue s ++ b) x r);
        try done.
      * unfold waiting. by rewrite Hu, <- (assoc_L (++)).
      * by apply Forall_app.
      * by rewrite Hq', Hu', (right_id_L [] (++)).
  - split.
    + intros _. fold s' in Htimer. done.
    + intros before pid rest p Hw Hbefore Hp Hstp. exfalso.
      eapply (startable_not_skipped s pid p); [done..|].
      assert (Hsk : Forall (skipped s) waiting) by (by apply Forall_app).
      eapply Forall_forall; [exact Hsk|].
      rewrite Hw, elem_of_app, elem_of_cons. right; by left.
Qed.

Lemma queue_advance_outcome_witness :
  let s := set_unsoldPlayers [7; 1]%nat lobby_state in
  let s' := processNextPlayerInQueue None blank_auction 3 s in
  status <$> Players s' !! 1%nat = Some IN_AUCTION ∧
  playerQueue s' ++ unsoldPlayers s' = [].
Proof.
  cbv zeta.
  pose proof (proj2 (queue_advance_outcome None blank_auction 3
                       (set_unsoldPlayers [7; 1]%nat lobby_state))
                [7%nat] 1%nat [] (mkPlayer 10 AVAILABLE None None None)
                eq_refl) as H.
  destruct H as (HP & _ & _ & _ & _ & _ & Hrest & _).
  - apply Forall_singleton. intros p Hp. vm_compute in Hp.
    discriminate Hp.
  - reflexivity.
  - discriminate.
  - split; [|exact Hrest]. rewrite HP. by rewrite lookup_insert_eq.
Defined.

(** X13: sent by an admin, [admin:startAutoAuction] answers 'No players
    available for auction' and changes nothing when every lot is SOLD.
    Otherwise it turns the auto-run on with an empty unsold list and at
    once puts up a lot of the highest base price among the lots that are
    not SOLD, whatever the shuffle drew; that lot together with the queue
    left is a permutation of the lots that are not SOLD. *)
Theorem startAutoAuction_opens_dearest_lot (TD : option Z)
    (Anew : AuctionState) (now : Z) (rnd : nat → nat) (sock : nat)
    (s : State) :
  sock ∈ adminSockets s →
  let s' := admin_startAutoAuction TD Anew now rnd sock s in
  ((∀ id p, Players s !! id = Some p → status p = SOLD) →
   s' = emit (ToSocket sock) (error NoPlayersAvailable) s) ∧
  ((∃ id p, Players s !! id = Some p ∧ status p ≠ SOLD) →
   ∃ pid p,
     Players s !! pid = Some p ∧ status p ≠ SOLD ∧
     (∀ id' p', Players s !! id' = Some p' → status p' ≠ SOLD →
                basePrice p' ≤ basePrice p) ∧
     Players s' = <[pid := player_with_status IN_AUCTION p]> (Players s) ∧
     Teams s' = Teams s ∧ Bids s' = Bids s ∧
     (∃ a, auction s' = Some a ∧ currentPlayer a = Some pid ∧
           currentHighBid a = mkHighBid (basePrice p) None ∧
           isActive a = true ∧ isPaused a = false) ∧
     auctionTimer s' = true ∧ timerValue s' = timerDuration TD ∧
     isAutoAuction s' = true ∧ unsoldPlayers s' = [] ∧
     pid :: playerQueue s' ≡ₚ (findAvailablePlayers s).*1).
Proof.
  intros Hadmin s'. unfold s', admin_startAutoAuction.
  rewrite decide_False by (intros Hn; by apply Hn).
  destruct (findAvailablePlayers s) as [|x l] eqn:Eav.
  { split; [done|]. intros (id & p & Hp & Hst). exfalso.
    assert (Hin : (id, p) ∈ findAvailablePlayers s)
      by (by apply findAvailablePlayers_spec).
    rewrite Eav in Hin. by apply elem_of_nil in Hin. }
  split.
  { intros Hall. exfalso.
    assert (Hin : x ∈ findAvailablePlayers s) by (rewrite Eav; set_solver).
    destruct x as [id p]. apply findAvailablePlayers_spec in Hin as [Hp Hst].
    by apply Hst, (Hall id). }
  intros _.
  destruct (buildQueue_order rnd (x :: l)) as (order & Hq & Hperm & Hsorted).
  destruct order as [|[pid p] rest].
  { by apply Permutation_nil_cons in Hperm. }
  assert (Hin : (pid, p) ∈ findAvailablePlayers s)
    by (rewrite Eav, <- Hperm; set_solver).
  apply findAvailablePlayers_spec in Hin as [Hp Hst].
  rewrite Hq. csimpl. unfold processNextPlayerInQueue. simpl.
  rewrite Hp. rewrite decide_False by done.
  set (s1 := emit _ _ (set_playerQueue _ _)).
  assert (Hp1 : Players s1 !! pid = Some p) by done.
  pose proof (startAuctionForPlayer_auction TD Anew now pid s1 p Hp1 Hst)
    as (HP' & HT' & _ & Htimer & Ha).
  pose proof (startAuctionForPlayer_frame TD Anew now pid s1)
    as (Hq' & Hu' & Hauto' & _ & _ & _ & _ & _ & HB').
  pose proof (startAuctionForPlayer_timerValue TD Anew now pid s1 p Hp1 Hst)
    as Htv.
  exists pid, p. split_and!; try done.
  - intros id' p' Hp' Hst'.
    assert (Hin : (id', p') ∈ (pid, p) :: rest).
    { rewrite Hperm, <- Eav. by apply findAvailablePlayers_spec. }
    apply StronglySorted_inv in Hsorted as [_ Hhead].
    apply elem_of_cons in Hin as [Heq|Hin].
    + injection Heq as -> ->. done.
    + rewrite Forall_forall in Hhead. apply (Hhead _ Hin).
  - rewrite Hq'. simpl. by apply (fmap_Permutation fst) in Hperm.
Qed.

Lemma startAutoAuction_opens_dearest_lot_witness :
  let s' := admin_startAutoAuction None blank_auction 1 (λ _, O) 9
              lobby_state in
  ∃ pid p, Players lobby_state !! pid = Some p ∧ basePrice p = 30 ∧
           isAutoAuction s' = true.
Proof.
  cbv zeta.
  destruct (proj2 (startAutoAuction_opens_dearest_lot None blank_auction 1
                     (λ _, O) 9 lobby_state ltac:(vm_compute; reflexivity)))
    as (pid & p & Hp & _ & Hmax & _ & _ & _ & _ & _ & _ & Hauto & _).
  - exists 3%nat, (mkPlayer 30 AVAILABLE None None None). by split.
  - exists pid, p. split_and!; [done| |done].
    pose proof (Hmax 3%nat (mkPlayer 30 AVAILABLE None None None)
                  eq_refl ltac:(discriminate)) as Hge. simpl in Hge.
    assert (Hle : basePrice p ≤ 30); [|lia].
    assert (Hin : (pid, p) ∈ map_to_list (Players lobby_state))
      by (by apply elem_of_map_to_list).
    vm_compute in Hin.
    repeat (apply elem_of_cons in Hin as [Heq|Hin];
            [injection Heq as -> ->; simpl; lia|]).
    by apply elem_of_nil in Hin.
Defined.

(** * The HTTP admin routes *)

Lemma http_reset_Players IB s :
  Players (http_reset IB s) = player_reset <$> Players s.
Proof. done. Qed.

Lemma http_reset_Teams IB s :
  Teams (http_reset IB s) = team_reset (initialBudget IB) <$> Teams s.
Proof. done. Qed.

Lemma http_reset_consistent IB s : consistent (http_reset IB s).
Proof.
  unfold consistent. split_and!.
  - intros a Ha. done.
  - intros id p. rewrite http_reset_Players, lookup_fmap.
    intros (q & _ & ->)%fmap_Some. simpl. split; [done|]. done.
  - intros a pid Ha. done.
  - intros tid t. rewrite http_reset_Teams, lookup_fmap.
    intros (u & _ & ->)%fmap_Some. cbn [team_reset players rosterSlotsFilled].
    split_and!; [constructor|done|].
    intros pid. split; [by intros ?%elem_of_nil|].
    intros (p & Hp & Hst & _).
    rewrite http_reset_Players, lookup_fmap in Hp.
    apply fmap_Some in Hp as (q & _ & ->). done.
Qed.

(** X14: POST /reset brings any state of the collections, consistent or
    not, to a consistent one: every lot is UNSOLD with its sale fields
    cleared and its base price kept, every team has the initial budget,
    an empty roster and is offline, no bid and no auction state is left.
    Resetting twice is the same as once.  The socket module is not told:
    its timer, queue, unsold list, auto-run flag, pending timeout and
    connections are as before, and a countdown that expires after the
    reset settles nothing. *)
Theorem reset_restores_consistency (INITIAL_BUDGET : option Z) (s : State) :
  let s' := http_reset INITIAL_BUDGET s in
  consistent s' ∧
  (∀ id, Players s' !! id =
         (λ p, mkPlayer (basePrice p) UNSOLD None None None)
           <$> Players s !! id) ∧
  (∀ tid, is_Some (Teams s' !! tid) ↔ is_Some (Teams s !! tid)) ∧
  (∀ tid t, Teams s' !! tid = Some t →
     remainingPoints t = initialBudget INITIAL_BUDGET ∧
     funds s' t = initialBudget INITIAL_BUDGET ∧
     players t = [] ∧ rosterSlotsFilled t = 0 ∧ isOnline t = false) ∧
  Bids s' = [] ∧ auction s' = None ∧
  http_reset INITIAL_BUDGET s' = s' ∧
  (auctionTimer s' = auctionTimer s ∧ timerValue s' = timerValue s ∧
   playerQueue s' = playerQueue s ∧ unsoldPlayers s' = unsoldPlayers s ∧
   isAutoAuction s' = isAutoAuction s ∧
   pendingAdvance s' = pendingAdvance s ∧
   connectedTeams s' = connectedTeams s) ∧
  (∀ now, handleAutoSold now s' = set_auctionTimer false s').
Proof.
  intros s'. split; [apply http_reset_consistent|].
  split_and!; try done.
  - intros id. unfold s'. by rewrite http_reset_Players, lookup_fmap.
  - intros tid. unfold s'. rewrite http_reset_Teams, lookup_fmap.
    by rewrite fmap_is_Some.
  - intros tid t. unfold s', funds. rewrite http_reset_Teams, lookup_fmap.
    intros (u & _ & ->)%fmap_Some. simpl. split_and!; try done. lia.
  - unfold s', http_reset, reset_AuctionState_deleteMany,
      reset_Bid_deleteMany, reset_Team_updateMany, reset_Player_updateMany.
    destruct s. simpl. unfold set_auction. simpl. f_equal.
    + rewrite <- map_fmap_compose. by apply map_fmap_ext.
    + rewrite <- map_fmap_compose. by apply map_fmap_ext.
  - intros now. unfold handleAutoSold. by rewrite stopTimer_eq.
Qed.

Lemma http_delete_team_cases id s :
  (Teams s !! id = None ∧ http_delete_team id s = (http_not_found, s)) ∨
  (∃ tm, Teams s !! id = Some tm ∧ rosterSlotsFilled tm > 0 ∧
         http_delete_team id s = (http_bad_request, s)) ∨
  (∃ tm, Teams s !! id = Some tm ∧ rosterSlotsFilled tm ≤ 0 ∧
         http_delete_team id s
           = (http_ok, set_Teams (delete id (Teams s)) s)).
Proof.
  unfold http_delete_team. destruct (Teams s !! id) as [tm|]; [|by left].
  right. case_decide; [left|right]; exists tm; split_and!; try done; lia.
Qed.

Lemma consistent_delete_team id s :
  consistent s → consistent (http_delete_team id s).2.
Proof.
  intros Hc.
  destruct (http_delete_team_cases id s)
    as [[_ ->]|[(tm & _ & _ & ->)|(tm & _ & _ & ->)]]; [done..|].
  destruct Hc as (H1 & H2 & H3 & H4). split_and!; [done..|].
  intros tid t. simpl. intros [_ Ht]%lookup_delete_Some. by apply H4.
Qed.


(** X15: DELETE /:id of the team routes answers 404 when the team does
    not exist and 400 when its roster holds a lot, changing nothing;
    otherwise it removes the team document and nothing else.  On
    consistent collections a team that can be deleted owns no lot, so no
    lot is left that names a deleted team as its buyer, and the
    collections stay consistent. *)
Theorem delete_team_outcome (id : nat) (s : State) :
  consistent s →
  let reply := (http_delete_team id s).1 in
  let s' := (http_delete_team id s).2 in
  (reply = http_not_found ↔ Teams s !! id = None) ∧
  (reply = http_bad_request ↔
   ∃ tm, Teams s !! id = Some tm ∧ players tm ≠ []) ∧
  (reply ≠ http_ok → s' = s) ∧
  (reply = http_ok →
   s' = set_Teams (delete id (Teams s)) s ∧
   ∀ pid p, Players s' !! pid = Some p → soldTo p ≠ Some id) ∧
  consistent s'.
Proof.
  intros Hc reply s'. unfold reply, s'.
  pose proof (consistent_delete_team id s Hc) as Hc'.
  destruct Hc as (_ & Hsale & _ & Hroster).
  destruct (http_delete_team_cases id s)
    as [[Hnone Heq]|[(tm & Htm & Hpos & Heq)|(tm & Htm & Hpos & Heq)]];
    rewrite Heq in *; simpl;
    try (destruct (Hroster id tm Htm) as (_ & Hlen & Hon)).
  - split_and!; try done.
    split; [done|]. intros (tm' & Htm' & _). congruence.
  - split_and!; try done.
    + split; [done|congruence].
    + split; [intros _|done]. exists tm. split; [done|].
      intros Hnil. rewrite Hnil in Hlen. simpl in Hlen. lia.
  - assert (Hnil : players tm = []).
    { destruct (players tm); [done|]. simpl in Hlen. lia. }
    split_and!; try done.
    + split; [done|congruence].
    + split; [done|]. intros (tm' & Htm' & Hne). congruence.
    + intros _. split; [done|]. intros pid p Hp Hto.
      destruct (Hsale pid p Hp) as [_ Hnot].
      destruct (decide (status p = SOLD)) as [Hst|Hst].
      * assert (Hin : pid ∈ players tm) by (apply Hon; eauto).
        rewrite Hnil in Hin. by apply elem_of_nil in Hin.
      * destruct (Hnot Hst) as (Hto' & _). congruence.
Qed.

Lemma delete_team_outcome_witness :
  (http_delete_team 101 lobby_state).2
    = set_Teams (delete 101%nat (Teams lobby_state)) lobby_state.
Proof.
  apply (proj1 (proj2 (proj2 (proj2
           (delete_team_outcome 101 lobby_state lobby_consistent))))
           eq_refl).
Defined.

(** X16: a team that holds the high bid but owns no lot yet can be
    deleted over HTTP while the lot is up.  The auction state then names
    a bidder that is gone: every further bid of that team's sockets is
    refused, and the settlement finds no winner, so the lot goes UNSOLD
    at no one's expense although a bid was accepted for it. *)
Theorem deleted_high_bidder_lot_unsold (now : Z) (id : nat) (s : State)
    (a : AuctionState) (pid : nat) (p : Player) (tm : Team) :
  auction s = Some a → currentPlayer a = Some pid →
  Players s !! pid = Some p →
  team (currentHighBid a) = Some id → Teams s !! id = Some tm →
  rosterSlotsFilled tm ≤ 0 →
  let s1 := (http_delete_team id s).2 in
  let s2 := handleAutoSold now s1 in
  (http_delete_team id s).1 = http_ok ∧
  (∀ now' sock amt, connectedTeams s !! sock = Some id →
                    (bid_place now' sock amt s1).1 ≠ None) ∧
  Players s2 = <[pid := player_with_status UNSOLD p]> (Players s) ∧
  Teams s2 = delete id (Teams s) ∧
  (∃ a', auction s2 = Some a' ∧ currentPlayer a' = None ∧
         isActive a' = false ∧ recentlySold a' = recentlySold a).
Proof.
  intros Ha Hcur Hp Hteam Htm Hroster s1 s2.
  assert (Hs1 : http_delete_team id s
                = (http_ok, set_Teams (delete id (Teams s)) s)).
  { unfold http_delete_team. rewrite Htm. by rewrite decide_False by lia. }
  unfold s2, s1. rewrite Hs1. simpl. clear s1 s2.
  set (s1 := set_Teams (delete id (Teams s)) s).
  assert (Hgone : findTeam s1 (team (currentHighBid a)) = None).
  { unfold findTeam. rewrite Hteam. simpl. apply lookup_delete_eq. }
  split_and!.
  - done.
  - intros now' sock amt Hc. rewrite bid_place_reply. unfold placeBid_checks.
    simpl. rewrite Hc, Ha. rewrite lookup_delete_eq.
    repeat case_decide; done.
  - by destruct (handleAutoSold_unsold now s1 a pid p Ha Hcur Hp Hgone)
      as (-> & _).
  - by destruct (handleAutoSold_unsold now s1 a pid p Ha Hcur Hp Hgone)
      as (_ & -> & _).
  - unfold handleAutoSold. rewrite stopTimer_eq. simpl.
    rewrite Ha, Hcur. simpl. rewrite Hp, Hteam. simpl.
    rewrite lookup_delete_eq.
    repeat case_match; simpl; eexists; split_and!; done.
Qed.

Lemma deleted_high_bidder_lot_unsold_witness :
  let s := (bid_place 2 2 15 (startAuctionForPlayer None blank_auction 1 1
                                lobby_state)).2 in
  status <$> Players (handleAutoSold 3 (http_delete_team 101 s).2) !! 1%nat
    = Some UNSOLD.
Proof.
  cbv zeta.
  rewrite (proj1 (proj2 (proj2
             (deleted_high_bidder_lot_unsold 3 101
                (bid_place 2 2 15 (startAuctionForPlayer None blank_auction
                                     1 1 lobby_state)).2
                (mkAuctionState (Some 1%nat) (mkHighBid 15 (Some 101%nat))
                   true false (Some 2) (Some 1) [])
                1 (mkPlayer 10 IN_AUCTION None None None)
                (mkTeam 30 0 [] true None)
                eq_refl eq_refl eq_refl eq_refl eq_refl ltac:(simpl; lia))))).
  by rewrite lookup_insert_eq.
Defined.

(** * Socket messages and HTTP requests in one sequence *)

Ltac empty_collections :=
  intros; simpl in *; rewrite ?lookup_empty in *; simplify_eq; simpl;
  done.

Lemma consistent_handle TD IB Anew now r s :
  consistent s → consistent (handle TD IB Anew now r s).
Proof.
  intros Hc. destruct r; simpl.
  - by apply consistent_step.
  - apply http_reset_consistent.
  - split_and!; unfold active_iff_lot, lots_sale_fields,
      current_lot_in_auction, rosters_consistent; empty_collections.
  - split_and!; unfold active_iff_lot, lots_sale_fields,
      current_lot_in_auction, rosters_consistent; empty_collections.
  - by apply consistent_delete_team.
Qed.


(** X17: socket messages, timer callbacks and the HTTP routes POST
    /reset, DELETE /clear-all, POST /clear-all-data and DELETE /:id of a
    team, handled one at a time and each to completion, in any order,
    keep the collections consistent.  POST /reset is not one write but
    four in turn, and a settlement that runs between its first write and
    its second breaks consistency: the lot is left SOLD to a team whose
    roster the route has emptied. *)
Theorem serve_keeps_consistent (TD INITIAL_BUDGET : option Z)
    (Anew : AuctionState) (requests : list (Z * Request)) (s : State) :
  consistent s →
  consistent (serve TD INITIAL_BUDGET Anew requests s) ∧
  (∀ now a pid p tid tm,
     auction s = Some a → currentPlayer a = Some pid →
     Players s !! pid = Some p →
     team (currentHighBid a) = Some tid → Teams s !! tid = Some tm →
     let s1 := reset_Player_updateMany s in
     let s2 := handleAutoSold now s1 in
     let s3 := reset_AuctionState_deleteMany
                 (reset_Bid_deleteMany
                    (reset_Team_updateMany INITIAL_BUDGET s2)) in
     Players s3 !! pid
       = Some (mkPlayer (basePrice p) SOLD (Some tid)
                 (Some (amount (currentHighBid a))) (Some now)) ∧
     players <$> Teams s3 !! tid = Some [] ∧
     ¬ consistent s3).
Proof.
  intros Hc. split.
  { revert s Hc. induction requests as [|[now r] requests IH]; intros s Hc;
      [done|].
    simpl. apply IH. by apply consistent_handle. }
  intros now a pid p tid tm Ha Hpid Hp Hteam Htm s1 s2 s3.
  assert (Ha1 : auction s1 = Some a) by done.
  assert (Hp1 : Players s1 !! pid = Some (player_reset p)).
  { unfold s1, reset_Player_updateMany. simpl.
    by rewrite lookup_fmap, Hp. }
  assert (Htm1 : Teams s1 !! tid = Some tm) by done.
  destruct (handleAutoSold_sold now s1 a pid _ tid tm Ha1 Hpid Hp1 Hteam Htm1)
    as (HP2 & HT2 & _).
  fold s2 in HP2, HT2.
  assert (HP3 : Players s3 !! pid
                = Some (mkPlayer (basePrice p) SOLD (Some tid)
                          (Some (amount (currentHighBid a))) (Some now))).
  { unfold s3, reset_AuctionState_deleteMany, reset_Bid_deleteMany,
      reset_Team_updateMany. simpl. rewrite HP2.
    by rewrite lookup_insert_eq. }
  assert (HT3 : players <$> Teams s3 !! tid = Some []).
  { unfold s3, reset_AuctionState_deleteMany, reset_Bid_deleteMany,
      reset_Team_updateMany. simpl. rewrite lookup_fmap, HT2.
    by rewrite lookup_insert_eq. }
  split_and!; [done..|].
  intros (_ & _ & _ & Hros).
  destruct (Teams s3 !! tid) as [t3|] eqn:Ht3; [|done].
  injection HT3 as Hnil.
  destruct (Hros tid t3 Ht3) as (_ & _ & Hmem).
  assert (Hin : pid ∈ players t3).
  { apply Hmem. eexists. split; [exact HP3|]. done. }
  rewrite Hnil in Hin. by apply elem_of_nil in Hin.
Qed.

Lemma serve_keeps_consistent_witness :
  consistent
    (serve None None blank_auction
       [(1, socket_input (admin_startAuction_msg 9 1));
        (2, socket_input (bid_place_msg 2 15));
        (3, delete_team_request 101);
        (4, socket_input interval_fires);
        (5, reset_request)] lobby_state).
Proof.
  apply (serve_keeps_consistent None None blank_auction _ lobby_state
           lobby_consistent).
Defined.



(** * The presentation lock, stopping, and what clients can do *)

(** X19: [bigscreen:summaryStarting] makes every manual start fail with
    'Please wait for team summary to complete' without touching the
    collections; after [bigscreen:summaryComplete] the same command
    starts the lot.  The two messages change nothing but the lock. *)
Theorem summary_lock_round_trip (TD : option Z) (Anew : AuctionState)
    (now : Z) (sock playerId : nat) (s : State) (p : Player) :
  sock ∈ adminSockets s →
  Players s !! playerId = Some p → status p ≠ SOLD →
  let locked := bigscreen_summaryStarting s in
  let released := bigscreen_summaryComplete locked in
  admin_startAuction TD Anew now sock playerId locked
    = emit (ToSocket sock) (error WaitForTeamSummary) locked ∧
  same_database s locked ∧ same_database s released ∧
  auctionTimer released = auctionTimer s ∧
  timerValue released = timerValue s ∧
  isTeamSummaryShowing released = false ∧
  admin_startAuction TD Anew now sock playerId released
    = startAuctionForPlayer TD Anew now playerId released ∧
  status <$> Players (admin_startAuction TD Anew now sock playerId released)
               !! playerId = Some IN_AUCTION.
Proof.
  intros Hadm Hp Hst locked released.
  assert (Hstart : admin_startAuction TD Anew now sock playerId released
                   = startAuctionForPlayer TD Anew now playerId released).
  { unfold admin_startAuction.
    rewrite decide_False by (intros H; by apply H). simpl.
    rewrite Hp. by rewrite decide_False. }
  split_and!; try done.
  - by apply admin_startAuction_locked.
  - rewrite Hstart.
    assert (Hp' : Players released !! playerId = Some p) by done.
    destruct (startAuctionForPlayer_auction TD Anew now playerId released p
                Hp' Hst) as (-> & _).
    by rewrite lookup_insert_eq.
Qed.

Lemma summary_lock_round_trip_witness :
  status <$> Players (admin_startAuction None blank_auction 1 9 3
                        (bigscreen_summaryComplete
                           (bigscreen_summaryStarting lobby_state)))
               !! 3%nat = Some IN_AUCTION.
Proof.
  refine (proj2 (proj2 (proj2 (proj2 (proj2 (proj2 (proj2
            (summary_lock_round_trip None blank_auction 1 9 3 lobby_state
               (mkPlayer 30 AVAILABLE None None None) _ eq_refl _)))))))).
  - vm_compute. reflexivity.
  - discriminate.
Defined.

Lemma bids_and_ticks_frozen TD Anew inputs s :
  bids_and_ticks inputs → auctionTimer s = false →
  let s' := run TD Anew inputs s in
  auctionTimer s' = false ∧ Players s' = Players s ∧ Teams s' = Teams s ∧
  currentPlayer <$> auction s' = currentPlayer <$> auction s ∧
  isActive <$> auction s' = isActive <$> auction s.
Proof.
  revert s. induction inputs as [|[now i] inputs IH]; intros s Hin Hoff;
    [done|].
  apply Forall_cons_1 in Hin as [Hi Hin]. simpl in Hi.
  assert (Hstep : auctionTimer (step TD Anew now i s) = false ∧
                  Players (step TD Anew now i s) = Players s ∧
                  Teams (step TD Anew now i s) = Teams s ∧
                  currentPlayer <$> auction (step TD Anew now i s)
                    = currentPlayer <$> auction s ∧
                  isActive <$> auction (step TD Anew now i s)
                    = isActive <$> auction s).
  { destruct i; try done; simpl.
    - destruct (bid_place now sock amt s).1 as [e|] eqn:Hreply.
      + by rewrite (bid_place_rejected now sock amt s e Hreply).
      + destruct (bid_place_accepted now sock amt s Hreply)
          as (teamId & playerId & a & _ & Ha & _ & ->).
        simpl. by rewrite Ha.
    - by rewrite timerTick_off. }
  destruct Hstep as (Hoff' & HP & HT & Hcur & Hact).
  simpl. destruct (IH _ Hin Hoff') as (-> & -> & -> & -> & ->). done.
Qed.

(** X20: sent by an admin, [admin:stopAutoAuction] clears the auto-run
    flag and the countdown but leaves the collections, the queue and the
    unsold list alone, so the lot that was up stays up and bids are judged
    exactly as before.  No bid restarts the countdown: whatever bids and
    timer callbacks follow, the timer stays off, the same lot stays the
    current one and no lot or team changes. *)
Theorem stopAutoAuction_freezes_lot (TD : option Z) (Anew : AuctionState)
    (sock : nat) (s : State) (inputs : list (Z * Input)) :
  sock ∈ adminSockets s → bids_and_ticks inputs →
  let stopped := admin_stopAutoAuction sock s in
  let s' := run TD Anew inputs stopped in
  (same_database s stopped ∧ isAutoAuction stopped = false ∧
   auctionTimer stopped = false ∧ timerValue stopped = timerValue s ∧
   playerQueue stopped = playerQueue s ∧
   unsoldPlayers stopped = unsoldPlayers s) ∧
  (∀ sock' amt, placeBid_checks stopped sock' amt
                = placeBid_checks s sock' amt) ∧
  auctionTimer s' = false ∧ Players s' = Players s ∧ Teams s' = Teams s ∧
  currentPlayer <$> auction s' = currentPlayer <$> auction s ∧
  isActive <$> auction s' = isActive <$> auction s.
Proof.
  intros Hadm Hin stopped s'.
  assert (Hstopped : stopped
            = emit ToAdmin (autoAuction_stopped (length (playerQueue s))
                              (length (unsoldPlayers s)))
                (set_auctionTimer false (set_isAutoAuction false s))).
  { unfold stopped, admin_stopAutoAuction.
    rewrite decide_False by (intros H; by apply H).
    by rewrite stopTimer_eq. }
  assert (Hoff : auctionTimer stopped = false) by (by rewrite Hstopped).
  destruct (bids_and_ticks_frozen TD Anew inputs stopped Hin Hoff)
    as (H1 & H2 & H3 & H4 & H5).
  fold s' in H1, H2, H3, H4, H5.
  rewrite H1, H2, H3, H4, H5, Hstopped. done.
Qed.

Lemma stopAutoAuction_freezes_lot_witness :
  auctionTimer
    (run None blank_auction
       [(4, bid_place_msg 1 25); (5, interval_fires); (6, interval_fires)]
       (admin_stopAutoAuction 9 high_bid_state)) = false.
Proof.
  refine (proj1 (proj2 (proj2
            (stopAutoAuction_freezes_lot None blank_auction 9 high_bid_state
               [(4, bid_place_msg 1 25); (5, interval_fires);
                (6, interval_fires)] _ _)))).
  - vm_compute. reflexivity.
  - repeat constructor.
Defined.

(** X21: no message of a team, a big screen or a login attempt
    ([team:login], [admin:login], [bigscreen:*], [bid:place],
    [disconnect]) changes a lot, a team's points or roster, the queue,
    the unsold list, the auto-run flag, the pending timeouts, whether the
    countdown runs, or which lot is up. *)
Theorem client_messages_move_nothing (TD : option Z) (Anew : AuctionState)
    (now : Z) (i : Input) (s : State) :
  client_message i →
  let s' := step TD Anew now i s in
  Players s' = Players s ∧
  (∀ tid, remainingPoints <$> Teams s' !! tid
            = remainingPoints <$> Teams s !! tid ∧
          players <$> Teams s' !! tid = players <$> Teams s !! tid ∧
          rosterSlotsFilled <$> Teams s' !! tid
            = rosterSlotsFilled <$> Teams s !! tid) ∧
  playerQueue s' = playerQueue s ∧ unsoldPlayers s' = unsoldPlayers s ∧
  isAutoAuction s' = isAutoAuction s ∧
  pendingAdvance s' = pendingAdvance s ∧
  auctionTimer s' = auctionTimer s ∧
  currentPlayer <$> auction s' = currentPlayer <$> auction s.
Proof.
  intros Hi s'. unfold s'. destruct i; try done; simpl.
  - unfold team_login. destruct found as [id|]; simpl; [|done].
    destruct (Teams s !! id) as [tm|] eqn:Htm; [|done].
    destruct isValidPin; [|done]. simpl. split_and!; try done.
    intros tid. rewrite lookup_insert. case_decide; [|done].
    subst tid. by rewrite Htm.
  - unfold admin_login. by destruct passwordOk.
  - destruct (bid_place now sock amt s).1 as [e|] eqn:Hreply.
    + by rewrite (bid_place_rejected now sock amt s e Hreply).
    + destruct (bid_place_accepted now sock amt s Hreply)
        as (teamId & playerId & a & _ & Ha & _ & ->).
      simpl. by rewrite Ha.
  - unfold disconnect.
    destruct (connectedTeams s !! sock) as [teamId|]; [|done]. simpl.
    split_and!; try done.
    intros tid. rewrite lookup_alter. case_decide; [|done].
    subst tid. by destruct (Teams s !! teamId).
Qed.

Lemma client_messages_move_nothing_witness :
  Players (step None blank_auction 4 (bid_place_msg 2 25) high_bid_state)
    = Players high_bid_state.
Proof.
  refine (proj1 (client_messages_move_nothing None blank_auction 4
                   (bid_place_msg 2 25) high_bid_state _)).
  exact I.
Defined.

(** * Manual starts and undone sales *)

(** X22: [admin:startAuction] does not ask whether a lot is already up.
    Started while another lot is the current one, it replaces that lot in
    the auction state: the earlier lot's document is left as it was, its
    high bid is dropped without any team being debited, and the
    settlement that follows concerns the new lot only. *)
Theorem startAuction_replaces_live_lot (TD : option Z) (Anew : AuctionState)
    (now : Z) (sock : nat) (s : State) (a : AuctionState)
    (earlier playerId : nat) (p : Player) :
  sock ∈ adminSockets s → isTeamSummaryShowing s = false →
  auction s = Some a → currentPlayer a = Some earlier →
  earlier ≠ playerId →
  Players s !! playerId = Some p → status p ≠ SOLD →
  let s' := admin_startAuction TD Anew now sock playerId s in
  Players s' !! earlier = Players s !! earlier ∧
  Teams s' = Teams s ∧ Bids s' = Bids s ∧
  auction s' = Some (mkAuctionState (Some playerId)
                       (mkHighBid (basePrice p) None) true false
                       (lastBidAt a) (Some now) (recentlySold a)) ∧
  ∀ now',
    let s'' := handleAutoSold now' s' in
    Players s'' !! earlier = Players s !! earlier ∧
    status <$> Players s'' !! playerId = Some UNSOLD ∧
    Teams s'' = Teams s.
Proof.
  intros Hadm Hlock Ha Hcur Hne Hp Hst s'.
  assert (Hs' : s' = startAuctionForPlayer TD Anew now playerId s).
  { unfold s', admin_startAuction.
    rewrite decide_False by (intros H; by apply H).
    rewrite Hlock, Hp. by rewrite decide_False. }
  assert (HP' : Players s'
                = <[playerId := player_with_status IN_AUCTION p]> (Players s))
    by (rewrite Hs'; unfold startAuctionForPlayer;
        rewrite Hp; rewrite decide_False by done;
        unfold startTimer; by rewrite stopTimer_eq).
  assert (HT' : Teams s' = Teams s)
    by (rewrite Hs'; apply startAuctionForPlayer_frame).
  assert (Ha' : auction s'
                = Some (mkAuctionState (Some playerId)
                          (mkHighBid (basePrice p) None) true false
                          (lastBidAt a) (Some now) (recentlySold a)))
    by (rewrite Hs'; unfold startAuctionForPlayer;
        rewrite Hp; rewrite decide_False by done;
        unfold startTimer; rewrite stopTimer_eq; simpl; by rewrite Ha).
  split_and!.
  - rewrite HP'. by apply lookup_insert_ne.
  - done.
  - rewrite Hs'. apply startAuctionForPlayer_frame.
  - done.
  - intros now' s''.
    assert (Hp' : Players s' !! playerId
                  = Some (player_with_status IN_AUCTION p))
      by (rewrite HP'; apply lookup_insert_eq).
    destruct (handleAutoSold_unsold now' s' _ playerId _ Ha' eq_refl Hp'
                eq_refl) as (HP'' & HT'' & _).
    fold s'' in HP'', HT''. rewrite HP'', HT'', HP', HT'.
    split_and!; [|by rewrite lookup_insert_eq|done].
    by rewrite !lookup_insert_ne.
Qed.

Lemma startAuction_replaces_live_lot_witness :
  let s' := admin_startAuction None blank_auction 4 9 2
              (bid_place 2 2 15
                 (startAuctionForPlayer None blank_auction 1 1
                    lobby_state)).2 in
  status <$> Players (handleAutoSold 5 s') !! 1%nat = Some IN_AUCTION ∧
  Teams (handleAutoSold 5 s') = Teams lobby_state.
Proof.
  cbv zeta.
  destruct (startAuction_replaces_live_lot None blank_auction 4 9
              (bid_place 2 2 15
                 (startAuctionForPlayer None blank_auction 1 1
                    lobby_state)).2
              (mkAuctionState (Some 1%nat) (mkHighBid 15 (Some 101%nat))
                 true false (Some 2) (Some 1) [])
              1 2 (mkPlayer 10 AVAILABLE None None None)
              ltac:(vm_compute; reflexivity) eq_refl eq_refl eq_refl
              ltac:(lia) eq_refl ltac:(discriminate))
    as (_ & _ & _ & _ & Hsettle).
  destruct (Hsettle 5) as (-> & _ & ->). split; reflexivity.
Defined.

(** X23: undoing a sale touches only the lot, its buyer and the bids: the
    auction state - the lot that is up, its high bid, and the list of
    recent sales, which keeps the undone sale - the countdown, the queue,
    the unsold list and the auto-run flag are as before, so an undone lot
    is not queued again by itself.  The undone lot can be started again
    by hand and then stands at its base price with no bidder. *)
Theorem undoSale_then_restart (TD : option Z) (Anew : AuctionState)
    (now : Z) (sock playerId : nat) (s : State) (p : Player) :
  sock ∈ adminSockets s → isTeamSummaryShowing s = false →
  Players s !! playerId = Some p → status p = SOLD →
  let s1 := admin_undoSale sock playerId s in
  let s2 := admin_startAuction TD Anew now sock playerId s1 in
  (auction s1 = auction s ∧ auctionTimer s1 = auctionTimer s ∧
   timerValue s1 = timerValue s ∧ playerQueue s1 = playerQueue s ∧
   unsoldPlayers s1 = unsoldPlayers s ∧
   isAutoAuction s1 = isAutoAuction s ∧
   pendingAdvance s1 = pendingAdvance s) ∧
  Players s2 !! playerId
    = Some (mkPlayer (basePrice p) IN_AUCTION None None None) ∧
  (∀ b, b ∈ Bids s2 → bid_player b ≠ playerId) ∧
  auction s2 =
    Some (mkAuctionState (Some playerId) (mkHighBid (basePrice p) None)
            true false (lastBidAt (default Anew (auction s))) (Some now)
            (recentlySold (default Anew (auction s)))) ∧
  auctionTimer s2 = true ∧ timerValue s2 = timerDuration TD.
Proof.
  intros Hadm Hlock Hp Hst s1 s2.
  assert (Hframe : auction s1 = auction s ∧ auctionTimer s1 = auctionTimer s ∧
            timerValue s1 = timerValue s ∧ playerQueue s1 = playerQueue s ∧
            unsoldPlayers s1 = unsoldPlayers s ∧
            isAutoAuction s1 = isAutoAuction s ∧
            pendingAdvance s1 = pendingAdvance s ∧
            isTeamSummaryShowing s1 = isTeamSummaryShowing s ∧
            adminSockets s1 = adminSockets s ∧
            Players s1 = <[playerId := player_reset p]> (Players s) ∧
            Bids s1 = filter (λ b, bid_player b ≠ playerId) (Bids s)).
  { unfold s1, admin_undoSale.
    rewrite decide_False by (intros H; by apply H).
    rewrite Hp. rewrite decide_False by (intros H; by apply H).
    unfold findTeam. destruct (soldTo p) as [tid|]; simpl; [|done].
    by destruct (Teams s !! tid). }
  destruct Hframe as (Ha1 & Ht1 & Hv1 & Hq1 & Hu1 & Hauto1 & Hpend1 & Hlock1
                      & Hadm1 & HP1 & HB1).
  assert (Hp1 : Players s1 !! playerId = Some (player_reset p))
    by (rewrite HP1; apply lookup_insert_eq).
  assert (Hs2 : s2 = startAuctionForPlayer TD Anew now playerId s1).
  { unfold s2, admin_startAuction.
    rewrite decide_False by (rewrite Hadm1; intros H; by apply H).
    rewrite Hlock1, Hlock, Hp1. by rewrite decide_False. }
  split; [by split_and!|].
  split_and!.
  - rewrite Hs2. unfold startAuctionForPlayer. rewrite Hp1.
    rewrite decide_False by done. unfold startTimer. rewrite stopTimer_eq.
    simpl. by rewrite lookup_insert_eq.
  - intros b. rewrite Hs2.
    destruct (startAuctionForPlayer_frame TD Anew now playerId s1)
      as (_ & _ & _ & _ & _ & _ & _ & _ & ->).
    rewrite HB1. by intros [? _]%list_elem_of_filter.
  - rewrite Hs2. unfold startAuctionForPlayer. rewrite Hp1.
    rewrite decide_False by done. unfold startTimer. rewrite stopTimer_eq.
    simpl. by rewrite Ha1.
  - rewrite Hs2.
    by destruct (startAuctionForPlayer_auction TD Anew now playerId s1 _
                   Hp1 ltac:(done)) as (_ & _ & _ & -> & _).
  - rewrite Hs2.
    by apply (startAuctionForPlayer_timerValue TD Anew now playerId s1 _ Hp1).
Qed.

Lemma undoSale_then_restart_witness :
  Players (admin_startAuction None blank_auction 4 9 7
             (admin_undoSale 9 7 (admin_pauseAuction 9 high_bid_state)))
    !! 7%nat
  = Some (mkPlayer 5 IN_AUCTION None None None).
Proof.
  refine (proj1 (proj2
            (undoSale_then_restart None blank_auction 4 9 7
               (admin_pauseAuction 9 high_bid_state)
               (mkPlayer 5 SOLD (Some 100%nat) (Some 5) (Some 0))
               _ eq_refl eq_refl eq_refl))).
  vm_compute. reflexivity.
Defined.

(** * Documents the engine does not create *)

Lemma db_change_documents Anew s s' :
  db_change Anew s s' →
  (∀ id, basePrice <$> Players s' !! id = basePrice <$> Players s !! id) ∧
  (∀ tid, is_Some (Teams s' !! tid) ↔ is_Some (Teams s !! tid)).
Proof.
  assert (Hins : ∀ (P : gmap nat Player) pid p q id,
            P !! pid = Some p → basePrice q = basePrice p →
            basePrice <$> <[pid := q]> P !! id = basePrice <$> P !! id).
  { intros P pid p q id Hp Hq. rewrite lookup_insert. case_decide; [|done].
    subst id. rewrite Hp. simpl. by rewrite Hq. }
  assert (Hteam : ∀ (T : gmap nat Team) tid t u id,
            T !! tid = Some t →
            is_Some (<[tid := u]> T !! id) ↔ is_Some (T !! id)).
  { intros T tid t u id Ht. rewrite lookup_insert. case_decide; [|done].
    subst id. rewrite Ht. split; eauto. }
  destruct 1; db_rewrite s'; split; intros; try done;
    try (by eapply Hins); try (by eapply Hteam).
  unfold findTeam. destruct (soldTo p) as [t|]; simpl; [|done].
  destruct (Teams s !! t) as [tm|] eqn:Htm; [|done]. by eapply Hteam.
Qed.

(** X24: the socket engine creates and deletes no lot and no team, and
    never changes a base price: along every run the lots and the teams
    are those of the start, each lot at its base price. *)
Theorem engine_keeps_documents (TD : option Z) (Anew : AuctionState)
    (inputs : list (Z * Input)) (s : State) :
  let s' := run TD Anew inputs s in
  (∀ id, basePrice <$> Players s' !! id = basePrice <$> Players s !! id) ∧
  (∀ id, is_Some (Players s' !! id) ↔ is_Some (Players s !! id)) ∧
  (∀ tid, is_Some (Teams s' !! tid) ↔ is_Some (Teams s !! tid)).
Proof.
  intros s'.
  assert (H : (∀ id, basePrice <$> Players s' !! id
                     = basePrice <$> Players s !! id) ∧
              (∀ tid, is_Some (Teams s' !! tid) ↔ is_Some (Teams s !! tid))).
  { unfold s'. clear s'. revert s.
    induction inputs as [|[now i] inputs IH]; intros s; [done|].
    simpl. destruct (IH (step TD Anew now i s)) as [HP HT].
    destruct (db_change_documents Anew s _ (db_change_step TD Anew now i s))
      as [HP' HT'].
    split.
    - intros id. by rewrite HP, HP'.
    - intros tid. by rewrite HT, HT'. }
  destruct H as [HP HT]. split_and!; [done| |done].
  intros id. rewrite <- !(fmap_is_Some basePrice). by rewrite HP.
Qed.

(** The collections are empty and the auction state names no lot. *)
Lemma cleared_db_change Anew s s' :
  db_change Anew s s' →
  Players s = ∅ → Teams s = ∅ → Bids s = [] →
  (∀ a, auction s = Some a → currentPlayer a = None ∧ isActive a = false) →
  Players s' = ∅ ∧ Teams s' = ∅ ∧ Bids s' = [] ∧
  (∀ a, auction s' = Some a → currentPlayer a = None ∧ isActive a = false).
Proof.
  intros Hch HP HT HB Ha.
  destruct Hch;
    try match goal with
        | H : Players s !! _ = Some _ |- _ =>
            by rewrite HP, lookup_empty in H
        | H : Teams s !! _ = Some _ |- _ =>
            by rewrite HT, lookup_empty in H
        end.
  - db_rewrite s'. done.
  - db_rewrite s'. split_and!; try done.
    intros a' [= <-]. simpl. by apply Ha.
Qed.

(** X25: after POST /clear-all-data or DELETE /clear-all the engine is
    inert, whatever its timer, queue and connection tables still hold:
    along every run the collections of lots, teams and bids stay empty,
    the auction state names no lot and is inactive, and every bid is
    refused. *)
Theorem cleared_database_stays_empty (TD : option Z) (Anew : AuctionState)
    (inputs : list (Z * Input)) (s : State) :
  ∀ s0, s0 = http_clear_all_data Anew s ∨ s0 = http_clear_all s →
  let s' := run TD Anew inputs s0 in
  Players s' = ∅ ∧ Teams s' = ∅ ∧ Bids s' = [] ∧
  (∀ a, auction s' = Some a → currentPlayer a = None ∧ isActive a = false) ∧
  (∀ now sock amt, (bid_place now sock amt s').1 = Some NotAuthenticated ∨
                   (bid_place now sock amt s').1 = Some AuctionNotActive).
Proof.
  intros s0 Hs0 s'.
  assert (H0 : Players s0 = ∅ ∧ Teams s0 = ∅ ∧ Bids s0 = [] ∧
               (∀ a, auction s0 = Some a →
                     currentPlayer a = None ∧ isActive a = false)).
  { destruct Hs0 as [-> | ->]; split_and!; try done.
    intros a. simpl. by intros [= <-]. }
  assert (H : Players s' = ∅ ∧ Teams s' = ∅ ∧ Bids s' = [] ∧
              (∀ a, auction s' = Some a →
                    currentPlayer a = None ∧ isActive a = false)).
  { unfold s'. clear s' Hs0. revert s0 H0.
    induction inputs as [|[now i] inputs IH]; intros s0 H0; [done|].
    simpl. apply IH. destruct H0 as (HP & HT & HB & Ha).
    by apply (cleared_db_change Anew s0 _ (db_change_step TD Anew now i s0)). }
  destruct H as (HP & HT & HB & Ha). split_and!; try done.
  intros now sock amt. rewrite bid_place_reply. unfold placeBid_checks.
  destruct (connectedTeams s' !! sock); [right|by left].
  destruct (auction s') as [a|] eqn:Hau; [|done].
  destruct (Ha a eq_refl) as [_ Hact]. rewrite decide_True by (by left).
  done.
Qed.

Lemma cleared_database_stays_empty_witness :
  Players (run None blank_auction
             [(1, timeout_fires); (2, interval_fires);
              (3, admin_startAutoAuction_msg (λ k, k) 9)]
             (http_clear_all_data blank_auction high_bid_state)) = ∅.
Proof.
  refine (proj1 (cleared_database_stays_empty None blank_auction _
                   high_bid_state _ (or_introl eq_refl))).
Defined.

(** * An auto-run with a lot nobody bids on *)

Lemma unsold_round_again TD Anew now pid s p :
  last_lot_without_bid pid s → Players s !! pid = Some p →
  let s' := unsold_round TD Anew now s in
  last_lot_without_bid pid s' ∧ Teams s' = Teams s ∧ Bids s' = Bids s ∧
  (∀ id, id ≠ pid → Players s' !! id = Players s !! id) ∧
  Players s' !! pid = Some (player_with_status IN_AUCTION p) ∧
  auctionTimer s' = true ∧
  (∃ a', auction s' = Some a' ∧ isActive a' = true ∧
         currentHighBid a' = mkHighBid (basePrice p) None).
Proof.
  intros (Hauto & Hq & Hu & Hpend & a & p0 & Ha & Hcur & Hteam & Hp0) Hp s'.
  assert (p0 = p) as -> by congruence.
  set (s1 := handleAutoSold now s).
  assert (Hgone : findTeam s (team (currentHighBid a)) = None)
    by (by rewrite Hteam).
  destruct (handleAutoSold_unsold now s a pid p Ha Hcur Hp Hgone)
    as (HP1 & HT1 & Hu1).
  destruct (handleAutoSold_settles now s a pid p Ha Hcur Hp)
    as (_ & _ & Hauto1 & Hq1 & _ & _ & HB1 & Hpend1).
  fold s1 in HP1, HT1, Hu1, Hauto1, Hq1, HB1, Hpend1.
  rewrite Hauto, Hu in Hu1. rewrite decide_False in Hu1
    by (by intros ?%elem_of_nil). simpl in Hu1.
  rewrite Hauto, Hpend in Hpend1.
  assert (Hs' : s' = processNextPlayerInQueue TD Anew now
                       (set_pendingAdvance 0 s1)).
  { unfold s', unsold_round, advanceTimeout. fold s1.
    by rewrite Hpend1. }
  set (s2 := set_pendingAdvance 0 s1) in Hs'.
  assert (Hp2 : Players s2 !! pid = Some (player_with_status UNSOLD p))
    by (unfold s2; simpl; rewrite HP1; apply lookup_insert_eq).
  assert (Hnsk : ¬ skipped s2 pid)
    by (by eapply startable_not_skipped).
  destruct (processNextPlayerInQueue_cases TD Anew now s2)
    as [(b & x & r & q & s3 & Hq2 & _)
       |[(b & x & r & q & s3 & _ & Hu2 & Hb & Hx & Hst & Hdb & Hs3 & Hq3
          & Hu3 & Hauto3 & Hpend3)
        |(_ & Hallu & _)]].
  - exfalso. simpl in Hq2. rewrite Hq1, Hq in Hq2. by destruct b.
  - rewrite <- Hs' in Hs3, Hq3, Hu3, Hauto3, Hpend3.
    simpl in Hu2. rewrite Hu1 in Hu2.
    assert (b = [] ∧ x = pid ∧ r = []) as (-> & -> & ->).
    { destruct b as [|y b]; simpl in Hu2;
        [by injection Hu2 as <- <-|].
      injection Hu2 as _ Hu2. by destruct b. }
    assert (q = player_with_status UNSOLD p) as -> by congruence.
    destruct Hdb as (HP3 & HT3 & Ha3 & HB3).
    assert (Hp3 : Players s3 !! pid = Some (player_with_status UNSOLD p))
      by (by rewrite HP3).
    pose proof (startAuctionForPlayer_auction TD Anew now pid s3 _ Hp3 Hst)
      as (HP' & HT' & _ & Htimer & a' & Ha' & Hcur' & Hhigh' & Hact' & _).
    pose proof (startAuctionForPlayer_frame TD Anew now pid s3)
      as (_ & _ & _ & _ & _ & _ & _ & _ & HB').
    rewrite <- Hs3 in HP', HT', Htimer, Ha', HB'.
    assert (Hpid : Players s' !! pid = Some (player_with_status IN_AUCTION p)).
    { rewrite HP'. by rewrite lookup_insert_eq. }
    assert (Hauto' : isAutoAuction s' = true)
      by (rewrite Hauto3; simpl; by rewrite Hauto1).
    assert (Hpend' : pendingAdvance s' = 0%nat) by (by rewrite Hpend3).
    split; [|split_and!].
    + unfold last_lot_without_bid. do 4 (split; [done|]).
      exists a', (player_with_status IN_AUCTION p).
      rewrite Hhigh'. by split_and!.
    + rewrite HT', HT3. simpl. done.
    + rewrite HB', HB3. simpl. done.
    + intros id Hne. rewrite HP', lookup_insert_ne by done.
      rewrite HP3. simpl. rewrite HP1. by rewrite lookup_insert_ne.
    + done.
    + done.
    + exists a'. by split_and!.
  - exfalso. apply Hnsk. simpl in Hallu. rewrite Hu1 in Hallu.
    by apply Forall_cons_1 in Hallu as [? _].
Qed.

(** X26: an auto-run does not end while a lot draws no bid.  When the
    lot that is up has no bidder and nothing else is waiting, the
    settlement marks it UNSOLD and puts it on the unsold list, and the
    timeout that follows takes it from there and puts it up again at its
    base price: after any number of such rounds the auto-run is still on,
    the same lot is up and no team has changed. *)
Theorem autoRun_reoffers_unsold_lot (TD : option Z) (Anew : AuctionState)
    (now : Z) (n : nat) (playerId : nat) (s : State) (p : Player) :
  last_lot_without_bid playerId s → Players s !! playerId = Some p →
  let s' := Nat.iter (S n) (unsold_round TD Anew now) s in
  last_lot_without_bid playerId s' ∧
  isAutoAuction s' = true ∧ auctionTimer s' = true ∧
  Teams s' = Teams s ∧ Bids s' = Bids s ∧
  (∀ id, id ≠ playerId → Players s' !! id = Players s !! id) ∧
  Players s' !! playerId = Some (player_with_status IN_AUCTION p) ∧
  (∃ a', auction s' = Some a' ∧ currentPlayer a' = Some playerId ∧
         isActive a' = true ∧
         currentHighBid a' = mkHighBid (basePrice p) None).
Proof.
  intros Hlast Hp. cbv zeta.
  assert (H : ∀ n, let s' := Nat.iter (S n) (unsold_round TD Anew now) s in
            last_lot_without_bid playerId s' ∧ Teams s' = Teams s ∧
            Bids s' = Bids s ∧
            (∀ id, id ≠ playerId → Players s' !! id = Players s !! id) ∧
            Players s' !! playerId = Some (player_with_status IN_AUCTION p) ∧
            auctionTimer s' = true ∧
            (∃ a', auction s' = Some a' ∧ isActive a' = true ∧
                   currentHighBid a' = mkHighBid (basePrice p) None)).
  { clear n. induction n as [|n IH].
    - by apply unsold_round_again.
    - destruct IH as (Hlast' & HT & HB & HP & Hpid & _).
      set (sn := Nat.iter (S n) (unsold_round TD Anew now) s) in *.
      change (Nat.iter (S (S n)) (unsold_round TD Anew now) s)
        with (unsold_round TD Anew now sn).
      destruct (unsold_round_again TD Anew now playerId sn _ Hlast' Hpid)
        as (Hlast'' & HT' & HB' & HP' & Hpid' & Htimer' & Ha').
      cbv zeta. split_and!; try done.
      + by rewrite HT'.
      + by rewrite HB'.
      + intros id Hne. by rewrite HP', HP.
  }
  destruct (H n) as (Hlast' & HT & HB & HP & Hpid & Htimer & a' & Ha' & Hact
                     & Hhigh).
  split_and!; try done.
  - by destruct Hlast' as (? & _).
  - destruct (Hlast') as (_ & _ & _ & _ & a'' & _ & Ha'' & Hcur'' & _).
    exists a'. split_and!; try done. congruence.
Qed.

Lemma autoRun_reoffers_unsold_lot_witness :
  let s := set_isAutoAuction true
             (startAuctionForPlayer None blank_auction 1 3 lobby_state) in
  auctionTimer (Nat.iter 4 (unsold_round None blank_auction 2) s) = true.
Proof.
  cbv zeta.
  refine (proj1 (proj2 (proj2
            (autoRun_reoffers_unsold_lot None blank_auction 2 3 3
               (set_isAutoAuction true
                  (startAuctionForPlayer None blank_auction 1 3 lobby_state))
               (mkPlayer 30 IN_AUCTION None None None) _ eq_refl)))).
  split_and!; try reflexivity.
  exists (mkAuctionState (Some 3%nat) (mkHighBid 30 None) true false None
            (Some 1) []), (mkPlayer 30 IN_AUCTION None None None).
  split_and!; reflexivity.
Defined.

(** * Who is admin, who is a team *)

Lemma sockets_advanceQueue TD Anew now queue s :
  adminSockets (advanceQueue TD Anew now queue s).2 = adminSockets s ∧
  connectedTeams (advanceQueue TD Anew now queue s).2 = connectedTeams s.
Proof.
  revert s. induction queue as [|pid queue IH]; intros s; [done|].
  simpl. destruct (Players s !! pid) as [p|]; [case_decide|].
  - by destruct (IH (emit ToAdmin
                       (autoAuction_queueUpdate (length queue)
                          (length (unsoldPlayers s)))
                       (set_playerQueue queue s))) as [-> ->].
  - simpl.
    by destruct (startAuctionForPlayer_frame TD Anew now pid
                   (emit ToAdmin
                      (autoAuction_queueUpdate (length queue)
                         (length (unsoldPlayers s)))
                      (set_playerQueue queue s)))
      as (_ & _ & _ & _ & _ & -> & -> & _).
  - by destruct (IH (emit ToAdmin
                       (autoAuction_queueUpdate (length queue)
                          (length (unsoldPlayers s)))
                       (set_playerQueue queue s))) as [-> ->].
Qed.

Lemma sockets_processNextPlayerInQueue TD Anew now s :
  adminSockets (processNextPlayerInQueue TD Anew now s) = adminSockets s ∧
  connectedTeams (processNextPlayerInQueue TD Anew now s) = connectedTeams s.
Proof.
  unfold processNextPlayerInQueue.
  pose proof (sockets_advanceQueue TD Anew now (playerQueue s) s) as H1.
  destruct (advanceQueue TD Anew now (playerQueue s) s) as [[] s1];
    simpl in H1; [done|].
  destruct (unsoldPlayers s1) as [|u us] eqn:Hu; [done|].
  set (s2 := emit _ _ (set_unsoldPlayers _ _)).
  pose proof (sockets_advanceQueue TD Anew now (playerQueue s2) s2) as H2.
  destruct (advanceQueue TD Anew now (playerQueue s2) s2) as [[] s3];
    simpl in H2; destruct H1 as [E1 E2], H2 as [E3 E4];
    unfold s2 in *; simpl in *; by rewrite E3, E4, E1, E2.
Qed.

Lemma sockets_handleAutoSold now s :
  adminSockets (handleAutoSold now s) = adminSockets s ∧
  connectedTeams (handleAutoSold now s) = connectedTeams s.
Proof.
  unfold handleAutoSold. rewrite stopTimer_eq. simpl.
  repeat (case_match; simpl in *; simplify_eq); done.
Qed.

Lemma sockets_step TD Anew now i s :
  (∀ sock, sock ∈ adminSockets (step TD Anew now i s) →
           sock ∈ adminSockets s ∨ i = admin_login_msg sock true) ∧
  (∀ sock tid, connectedTeams (step TD Anew now i s) !! sock = Some tid →
               connectedTeams s !! sock = Some tid ∨
               i = team_login_msg sock (Some tid) true ∧
               is_Some (Teams s !! tid)).
Proof.
  assert (Hsame : ∀ s', adminSockets s' = adminSockets s →
                        connectedTeams s' = connectedTeams s →
            (∀ sock, sock ∈ adminSockets s' →
                     sock ∈ adminSockets s ∨ i = admin_login_msg sock true) ∧
            (∀ sock tid, connectedTeams s' !! sock = Some tid →
                         connectedTeams s !! sock = Some tid ∨
                         i = team_login_msg sock (Some tid) true ∧
                         is_Some (Teams s !! tid))).
  { intros s' -> ->. split; intros; by left. }
  destruct i; simpl.
  - unfold team_login. destruct found as [id|]; simpl; [|by apply Hsame].
    destruct (Teams s !! id) as [tm|] eqn:Htm; [|by apply Hsame].
    destruct isValidPin; [|by apply Hsame]. simpl. split; [by left|].
    intros sk tid. rewrite lookup_insert. case_decide; [|by left].
    intros [= <-]. subst sk. right. split; [done|]. by rewrite Htm.
  - unfold admin_login. destruct passwordOk; [|by apply Hsame]. simpl.
    split; [|by left].
    intros sk [->%elem_of_singleton|Hin]%elem_of_union; [by right|by left].
  - by apply Hsame.
  - by apply Hsame.
  - by apply Hsame.
  - destruct (bid_place now sock amt s).1 as [e|] eqn:Hreply.
    + rewrite (bid_place_rejected now sock amt s e Hreply). by apply Hsame.
    + destruct (bid_place_accepted now sock amt s Hreply)
        as (teamId & playerId & a & _ & _ & _ & ->).
      by apply Hsame.
  - unfold admin_startAuction. repeat case_match; try (by apply Hsame).
    apply Hsame; apply startAuctionForPlayer_frame.
  - unfold admin_pauseAuction. repeat case_match; try (by apply Hsame).
    rewrite stopTimer_eq. by apply Hsame.
  - unfold admin_resumeAuction. repeat case_match; try (by apply Hsame).
    unfold startTimer. rewrite stopTimer_eq. by apply Hsame.
  - unfold admin_undoSale. repeat case_match; by apply Hsame.
  - unfold admin_startAutoAuction. repeat case_match; try (by apply Hsame).
    match goal with
    | |- context [processNextPlayerInQueue _ _ _ ?x] =>
        destruct (sockets_processNextPlayerInQueue TD Anew now x)
    end.
    by apply Hsame.
  - unfold admin_stopAutoAuction. case_decide; [by apply Hsame|].
    rewrite stopTimer_eq. by apply Hsame.
  - unfold admin_getAutoAuctionStatus. case_decide; by apply Hsame.
  - unfold disconnect.
    destruct (connectedTeams s !! sock) as [teamId|] eqn:Hc; simpl.
    + split.
      * intros sk [Hin _]%elem_of_difference. by left.
      * intros sk tid. rewrite lookup_delete. case_decide; [done|by left].
    + split.
      * intros sk [Hin _]%elem_of_difference. by left.
      * intros sk tid ?. by left.
  - unfold timerTick. repeat case_match; try (by apply Hsame).
    rewrite stopTimer_eq.
    match goal with
    | |- context [handleAutoSold now ?x] =>
        destruct (sockets_handleAutoSold now x)
    end.
    by apply Hsame.
  - unfold advanceTimeout. destruct (pendingAdvance s) as [|n];
      [by apply Hsame|].
    destruct (sockets_processNextPlayerInQueue TD Anew now
                (set_pendingAdvance n s)).
    by apply Hsame.
Qed.

(** X27: a socket is an admin only through [admin:login] with the right
    password, and is bound to a team only through a [team:login] that
    found the team and matched its PIN: whoever is admin, or bound to a
    team, at the end of a run either was so at its start or sent such a
    login during it.  A disconnect takes both away. *)
Theorem rights_only_by_login (TD : option Z) (Anew : AuctionState)
    (inputs : list (Z * Input)) (s : State) :
  let s' := run TD Anew inputs s in
  (∀ sock, sock ∈ adminSockets s' →
     sock ∈ adminSockets s ∨
     ∃ now, (now, admin_login_msg sock true) ∈ inputs) ∧
  (∀ sock tid, connectedTeams s' !! sock = Some tid →
     connectedTeams s !! sock = Some tid ∨
     ∃ now, (now, team_login_msg sock (Some tid) true) ∈ inputs) ∧
  (∀ now sock,
     let gone := disconnect now sock s in
     (sock ∉ adminSockets gone) ∧ connectedTeams gone !! sock = None).
Proof.
  intros s'. split_and!.
  - unfold s'. clear s'. revert s.
    induction inputs as [|[now i] inputs IH]; intros s sock Hin;
      [by left|].
    simpl in Hin. destruct (IH _ sock Hin) as [Hin'|[now' Hin']].
    + destruct (sockets_step TD Anew now i s) as [Hadm _].
      destruct (Hadm sock Hin') as [?| ->]; [by left|].
      right. exists now. set_solver.
    + right. exists now'. set_solver.
  - unfold s'. clear s'. revert s.
    induction inputs as [|[now i] inputs IH]; intros s sock tid Hin;
      [by left|].
    simpl in Hin. destruct (IH _ sock tid Hin) as [Hin'|[now' Hin']].
    + destruct (sockets_step TD Anew now i s) as [_ Hteam].
      destruct (Hteam sock tid Hin') as [?|[-> _]]; [by left|].
      right. exists now. set_solver.
    + right. exists now'. set_solver.
  - intros now sock gone. unfold gone, disconnect.
    destruct (connectedTeams s !! sock) as [teamId|] eqn:Hc; simpl.
    + split; [set_solver|]. apply lookup_delete_eq.
    + split; [set_solver|done].
Qed.

(** X28: a team can be bound to several sockets at once, and the
    disconnect handler does not count them: when one of two sockets of a
    team disconnects, the team is marked offline although the other
    socket is still bound, and bids from that other socket are judged
    exactly as before. *)
Theorem login_twice_disconnect_once (now : Z) (sock1 sock2 id : nat)
    (s : State) :
  is_Some (Teams s !! id) → sock1 ≠ sock2 →
  let s1 := team_login now sock1 (Some id) true s in
  let s2 := team_login now sock2 (Some id) true s1 in
  let s3 := disconnect now sock1 s2 in
  (connectedTeams s2 !! sock1 = Some id ∧
   connectedTeams s2 !! sock2 = Some id ∧
   isOnline <$> Teams s2 !! id = Some true) ∧
  connectedTeams s3 !! sock1 = None ∧
  connectedTeams s3 !! sock2 = Some id ∧
  isOnline <$> Teams s3 !! id = Some false ∧
  ∀ amt, placeBid_checks s3 sock2 amt = placeBid_checks s2 sock2 amt.
Proof.
  intros [tm Htm] Hne s1 s2 s3.
  assert (Hs1 : s1 = emit ToAll teams_status
                       (emit (ToSocket sock1) (auth_success_team id)
                          (set_connectedTeams
                             (<[sock1 := id]> (connectedTeams s))
                             (set_Teams
                                (<[id := team_with_online true now tm]>
                                   (Teams s)) s)))).
  { unfold s1, team_login. simpl. by rewrite Htm. }
  assert (Htm1 : Teams s1 !! id = Some (team_with_online true now tm))
    by (rewrite Hs1; simpl; apply lookup_insert_eq).
  assert (Hs2 : s2 = emit ToAll teams_status
                       (emit (ToSocket sock2) (auth_success_team id)
                          (set_connectedTeams
                             (<[sock2 := id]> (connectedTeams s1))
                             (set_Teams
                                (<[id := team_with_online true now
                                           (team_with_online true now tm)]>
                                   (Teams s1)) s1)))).
  { unfold s2, team_login. simpl. by rewrite Htm1. }
  assert (Hc21 : connectedTeams s2 !! sock1 = Some id).
  { rewrite Hs2. simpl. rewrite lookup_insert_ne by done.
    rewrite Hs1. simpl. apply lookup_insert_eq. }
  assert (Hc22 : connectedTeams s2 !! sock2 = Some id)
    by (rewrite Hs2; simpl; apply lookup_insert_eq).
  assert (Htm2 : Teams s2 !! id
                 = Some (team_with_online true now
                           (team_with_online true now tm)))
    by (rewrite Hs2; simpl; apply lookup_insert_eq).
  assert (Hs3 : s3 = set_bigScreenSockets (bigScreenSockets s2 ∖ {[sock1]})
            (set_adminSockets (adminSockets s2 ∖ {[sock1]})
               (emit ToAll teams_status
                  (set_connectedTeams (delete sock1 (connectedTeams s2))
                     (set_Teams (alter (team_with_online false now) id
                                   (Teams s2)) s2))))).
  { unfold s3, disconnect. by rewrite Hc21. }
  assert (Hc32 : connectedTeams s3 !! sock2 = Some id)
    by (rewrite Hs3; simpl; by rewrite lookup_delete_ne).
  assert (Htm3 : Teams s3 !! id
                 = Some (team_with_online false now
                           (team_with_online true now
                              (team_with_online true now tm))))
    by (rewrite Hs3; simpl; by rewrite lookup_alter_eq, Htm2).
  split_and!; try done.
  - by rewrite Htm2.
  - rewrite Hs3. simpl. apply lookup_delete_eq.
  - by rewrite Htm3.
  - intros amt. unfold placeBid_checks. rewrite Hc32, Hc22, Htm3, Htm2.
    by rewrite Hs3.
Qed.

Lemma login_twice_disconnect_once_witness :
  isOnline <$>
    Teams (disconnect 1 5 (team_login 1 6 (Some 100%nat) true
                             (team_login 1 5 (Some 100%nat) true
                                lobby_state))) !! 100%nat
  = Some false.
Proof.
  refine (proj1 (proj2 (proj2 (proj2
            (login_twice_disconnect_once 1 5 6 100 lobby_state
               (mk_is_Some _ _ eq_refl) _))))).
  lia.
Defined.

(** * From a bid to the sale *)

(** X29: an accepted bid puts the countdown at 10 whatever time was
    left.  If the interval is running and no other bid follows, the next
    nine ticks change no lot and no team, and the tenth sells the lot to
    the bidder for the amount of the bid: the lot is SOLD with its sale
    fields set, the bidder pays exactly that amount, which it can afford,
    and the lot joins its roster. *)
Theorem accepted_bid_wins_after_ten_ticks (now now' : Z) (sock : nat)
    (amt : Z) (s : State) :
  (bid_place now sock amt s).1 = None → auctionTimer s = true →
  let s1 := (bid_place now sock amt s).2 in
  ∃ teamId tm pid p,
    connectedTeams s !! sock = Some teamId ∧
    Teams s !! teamId = Some tm ∧
    currentPlayer <$> auction s = Some (Some pid) ∧
    Players s !! pid = Some p ∧
    timerValue s1 = 10 ∧
    (∀ k, (k < 10)%nat →
       Players (ticks k now' s1) = Players s ∧
       Teams (ticks k now' s1) = Teams s ∧
       auctionTimer (ticks k now' s1) = true) ∧
    Players (ticks 10 now' s1)
      = <[pid := mkPlayer (basePrice p) SOLD (Some teamId) (Some amt)
                   (Some now')]> (Players s) ∧
    Teams (ticks 10 now' s1)
      = <[teamId := mkTeam (remainingPoints tm - amt)
                      (rosterSlotsFilled tm + 1) (players tm ++ [pid])
                      (isOnline tm) (lastActive tm)]> (Teams s) ∧
    0 ≤ remainingPoints tm - amt ∧
    auctionTimer (ticks 10 now' s1) = false.
Proof.
  intros Hacc Hon s1.
  pose proof Hacc as Hchk. rewrite bid_place_reply in Hchk.
  destruct (placeBid_checks_accept_full s sock amt Hchk)
    as (teamId & a & tm & pid & p & Hc & Ha & _ & _ & Hcur & Hp & _ & Htm
        & Hle & _).
  destruct (bid_place_accepted now sock amt s Hacc)
    as (teamId' & pid' & a' & Hc' & Ha' & Hcur' & Hs1).
  assert (teamId' = teamId) as -> by congruence.
  assert (a' = a) as -> by congruence.
  assert (pid' = pid) as -> by congruence.
  fold s1 in Hs1.
  assert (Hon1 : auctionTimer s1 = true) by (by rewrite Hs1).
  assert (Hval1 : timerValue s1 = 10) by (by rewrite Hs1).
  assert (HP1 : Players s1 = Players s) by (by rewrite Hs1).
  assert (HT1 : Teams s1 = Teams s) by (by rewrite Hs1).
  assert (Ha1 : auction s1 = Some (auction_with_bid amt teamId now a))
    by (by rewrite Hs1).
  exists teamId, tm, pid, p.
  assert (Hcount : ∀ k, (k < 10)%nat →
            same_database s1 (ticks k now' s1) ∧
            auctionTimer (ticks k now' s1) = true ∧
            timerValue (ticks k now' s1) = 10 - Z.of_nat k).
  { intros k Hk.
    destruct (ticks_counting k now' s1 Hon1) as (Hdb & Ht & Hv & _);
      [right; lia|].
    rewrite Hval1 in Hv. done. }
  assert (E10 : ticks 10 now' s1 = timerTick now' (ticks 9 now' s1))
    by apply ticks_S.
  destruct (Hcount 9%nat ltac:(lia)) as ((HP9 & HT9 & Ha9 & _) & Hon9 & Hv9).
  remember (ticks 9 now' s1) as s9 eqn:Es9.
  assert (H10 : ticks 10 now' s1
                = handleAutoSold now'
                    (emit ToAll (timer_update (timerValue s9 - 1))
                       (set_timerValue (timerValue s9 - 1) s9))).
  { rewrite E10. unfold timerTick. rewrite Hon9. simpl.
    rewrite decide_True by lia. apply handleAutoSold_stopTimer. }
  set (pre := emit _ _ _) in H10.
  assert (Hpre : auction pre = Some (auction_with_bid amt teamId now a))
    by (unfold pre; simpl; by rewrite Ha9).
  assert (Hppre : Players pre !! pid = Some p)
    by (unfold pre; simpl; by rewrite HP9, HP1).
  assert (Htpre : Teams pre !! teamId = Some tm)
    by (unfold pre; simpl; by rewrite HT9, HT1).
  destruct (handleAutoSold_sold now' pre _ pid p teamId tm Hpre Hcur Hppre
              eq_refl Htpre) as (HP10 & HT10 & _).
  rewrite <- H10 in HP10, HT10.
  split_and!; try done.
  - by rewrite Ha, <- Hcur.
  - intros k Hk. destruct (Hcount k Hk) as ((-> & -> & _) & -> & _). done.
  - rewrite HP10. unfold pre. simpl. by rewrite HP9, HP1.
  - rewrite HT10. unfold pre. simpl. by rewrite HT9, HT1.
  - lia.
  - rewrite H10. apply handleAutoSold_timer_off.
Qed.

Lemma accepted_bid_wins_after_ten_ticks_witness :
  ∃ teamId tm pid p,
    connectedTeams high_bid_state !! 2%nat = Some teamId ∧
    Teams high_bid_state !! teamId = Some tm ∧
    currentPlayer <$> auction high_bid_state = Some (Some pid) ∧
    Players high_bid_state !! pid = Some p ∧
    timerValue (bid_place 4 2 25 high_bid_state).2 = 10.
Proof.
  destruct (accepted_bid_wins_after_ten_ticks 4 5 2 25 high_bid_state
              ltac:(vm_compute; reflexivity) eq_refl)
    as (teamId & tm & pid & p & H1 & H2 & H3 & H4 & H5 & _).
  exists teamId, tm, pid, p. by split_and!.
Defined.

(** * Scheduled timeouts *)

Lemma handleAutoSold_pending now s :
  pendingAdvance (handleAutoSold now s) = pendingAdvance s ∨
  pendingAdvance (handleAutoSold now s) = S (pendingAdvance s) ∧
  isAutoAuction s = true.
Proof.
  destruct (auction s) as [a|] eqn:Ha;
    [|left; by rewrite handleAutoSold_skip, stopTimer_eq
         by (intros; congruence)].
  destruct (findPlayer s (currentPlayer a)) as [p|] eqn:Hp;
    [|left; by rewrite handleAutoSold_skip, stopTimer_eq
         by (intros; congruence)].
  apply findPlayer_Some in Hp as (pid & Hcur & Hp).
  destruct (handleAutoSold_settles now s a pid p Ha Hcur Hp)
    as (_ & _ & _ & _ & _ & _ & _ & ->).
  destruct (isAutoAuction s); [by right|by left].
Qed.

(** X30: a timeout scheduled by a settlement is never cancelled.  The
    number of pending timeouts changes only in two ways: the tick that
    settles a lot in auto-run schedules one more, and a timeout that
    fires is consumed.  No message - not [admin:stopAutoAuction], not a
    pause, not a manual start - takes one away. *)
Theorem timeouts_never_cancelled (TD : option Z) (Anew : AuctionState)
    (now : Z) (i : Input) (s : State) :
  let s' := step TD Anew now i s in
  match i with
  | timeout_fires => pendingAdvance s' = Nat.pred (pendingAdvance s)
  | interval_fires =>
      pendingAdvance s' = pendingAdvance s ∨
      pendingAdvance s' = S (pendingAdvance s) ∧
      isAutoAuction s = true ∧ auctionTimer s = true ∧ timerValue s ≤ 1 ∧
      auctionTimer s' = false
  | _ => pendingAdvance s' = pendingAdvance s
  end.
Proof.
  assert (Hnext : ∀ s0, pendingAdvance (processNextPlayerInQueue TD Anew now s0)
                        = pendingAdvance s0).
  { intros s0.
    by destruct (processNextPlayerInQueue_cases TD Anew now s0)
      as [(? & ? & ? & ? & ? & _ & _ & _ & _ & _ & _ & _ & _ & _ & H)
         |[(? & ? & ? & ? & ? & _ & _ & _ & _ & _ & _ & _ & _ & _ & _ & H)
          |(_ & _ & _ & _ & _ & _ & _ & H)]]. }
  destruct i; simpl.
  - unfold team_login. by repeat case_match.
  - unfold admin_login. by case_match.
  - done.
  - done.
  - done.
  - destruct (bid_place now sock amt s).1 as [e|] eqn:Hreply.
    + by rewrite (bid_place_rejected now sock amt s e Hreply).
    + by destruct (bid_place_accepted now sock amt s Hreply)
        as (teamId & playerId & a & _ & _ & _ & ->).
  - unfold admin_startAuction. repeat case_match; try done.
    apply startAuctionForPlayer_frame.
  - unfold admin_pauseAuction. repeat case_match; try done.
    by rewrite stopTimer_eq.
  - unfold admin_resumeAuction. repeat case_match; try done.
    unfold startTimer. by rewrite stopTimer_eq.
  - unfold admin_undoSale. by repeat case_match.
  - unfold admin_startAutoAuction. repeat case_match; try done.
    by rewrite Hnext.
  - apply admin_stopAutoAuction_pending.
  - unfold admin_getAutoAuctionStatus. by case_decide.
  - unfold disconnect. by case_match.
  - unfold timerTick. destruct (auctionTimer s) eqn:Hon; [|by left]. simpl.
    case_decide as Hzero; [|by left].
    rewrite handleAutoSold_stopTimer.
    match goal with
    | |- context [handleAutoSold now ?x] =>
        destruct (handleAutoSold_pending now x) as [Hsame|[Hmore Hauto]];
        pose proof (handleAutoSold_timer_off now x)
    end.
    + by left.
    + right. split_and!; try done. lia.
  - unfold advanceTimeout.
    destruct (pendingAdvance s) as [|n] eqn:Hpend; [by rewrite Hpend|].
    by rewrite Hnext.
Qed.
